(** * libspin, slow mode: the capture / uncapture / switch protocol

    A shallow embedding of [src/lib/spin_slow.cpp] and the proofs of its
    state-machine properties.

    The executor state of the C++ file (the globals protected by
    [executorMutex]) is a record; every function that runs under the mutex is
    a computation in a small state-and-failure monad.  A [panic] or a failed
    [assert] ends the process: it is the outcome [Fatal], tagged with the
    source line of the check.  Indexing one of the fixed-size arrays outside
    its bounds is undefined behaviour in C++: it is the outcome [Undef].

    The guards never return: they end in [PIN_ExecuteAt], or they park the
    calling thread on its wait lock.  A guard therefore returns a [Control]
    value that says where the calling OS thread goes next. *)

From Stdlib Require Import NArith Lia.
From stdpp Require Import base decidable numbers option list gmap.

Local Open Scope N_scope.

(** ** Data model *)

(** [enum ThreadState], in declaration order. *)
Inductive ThreadState := UNCAPTURED | BLOCKED | IDLE | RUNNING.

#[global] Instance ThreadState_eq_dec : EqDecision ThreadState.
Proof. solve_decision. Defined.

(** [#define MAX_THREADS 2048] *)
Definition MAX_THREADS : N := 2048.

(** [-1u], the value of [executorTid] and [curTid] that means "none". *)
Definition NO_TID : N := 4294967295.

(** [(ADDRINT)-1], what [PIN_SetContextReg(c, switchReg, -1)] stores. *)
Definition ADDRINT_MINUS_ONE : N := 18446744073709551615.

(** Arithmetic of [uint32_t]: conversion, [x++] and [x--]. *)
Definition u32 (n : N) : N := n mod 2 ^ 32.
Definition u32_incr (n : N) : N := (n + 1) mod 2 ^ 32.
Definition u32_decr (n : N) : N := (n + (2 ^ 32 - 1)) mod 2 ^ 32.

(** The two tool registers claimed in [init]. *)
Inductive REG := executorReg | switchReg.

(** Pin's [CONTEXT]: the two tool registers, and the rest of the register
    image (instruction pointer and so on), which the protocol only copies. *)
Record CONTEXT := mkCONTEXT {
  ctx_executor : N;
  ctx_switch : N;
  ctx_image : N
}.

#[global] Instance CONTEXT_eq_dec : EqDecision CONTEXT.
Proof. solve_decision. Defined.

Definition PIN_GetContextReg (c : CONTEXT) (r : REG) : N :=
  match r with
  | executorReg => ctx_executor c
  | switchReg => ctx_switch c
  end.

Definition PIN_SetContextReg (c : CONTEXT) (r : REG) (v : N) : CONTEXT :=
  match r with
  | executorReg => mkCONTEXT v (ctx_switch c) (ctx_image c)
  | switchReg => mkCONTEXT (ctx_executor c) v (ctx_image c)
  end.

(** Calls of the tool's callbacks, in the order they are made.  The
    uncapture callback returns the next thread; the others return nothing. *)
Inductive HookCall :=
  | CallThreadStart (tid : N)
  | CallThreadEnd (tid : N)
  | CallCapture (tid : N) (runsNext : bool)
  | CallUncapture (tid : N) (ctx : CONTEXT) (nextTid : N).

(** The executor state.  [waitLocks] holds [true] for a locked mutex.
    [hookLog] is not a variable of the program: it records the callback
    calls, which are its only outputs besides the control transfers. *)
Record State := mkState {
  contexts : list CONTEXT;
  threadStates : list ThreadState;
  waitLocks : list bool;
  executorTid : N;
  curTid : N;
  capturedThreads : N;
  executorInSyscall : bool;
  blockAfterSwitchcall : bool;
  hookLog : list HookCall
}.

Definition set_contexts (v : list CONTEXT) (s : State) : State :=
  mkState v (threadStates s) (waitLocks s) (executorTid s) (curTid s)
    (capturedThreads s) (executorInSyscall s) (blockAfterSwitchcall s) (hookLog s).
Definition set_threadStates (v : list ThreadState) (s : State) : State :=
  mkState (contexts s) v (waitLocks s) (executorTid s) (curTid s)
    (capturedThreads s) (executorInSyscall s) (blockAfterSwitchcall s) (hookLog s).
Definition set_waitLocks (v : list bool) (s : State) : State :=
  mkState (contexts s) (threadStates s) v (executorTid s) (curTid s)
    (capturedThreads s) (executorInSyscall s) (blockAfterSwitchcall s) (hookLog s).
Definition set_executorTid (v : N) (s : State) : State :=
  mkState (contexts s) (threadStates s) (waitLocks s) v (curTid s)
    (capturedThreads s) (executorInSyscall s) (blockAfterSwitchcall s) (hookLog s).
Definition set_curTid (v : N) (s : State) : State :=
  mkState (contexts s) (threadStates s) (waitLocks s) (executorTid s) v
    (capturedThreads s) (executorInSyscall s) (blockAfterSwitchcall s) (hookLog s).
Definition set_capturedThreads (v : N) (s : State) : State :=
  mkState (contexts s) (threadStates s) (waitLocks s) (executorTid s) (curTid s)
    v (executorInSyscall s) (blockAfterSwitchcall s) (hookLog s).
Definition set_executorInSyscall (v : bool) (s : State) : State :=
  mkState (contexts s) (threadStates s) (waitLocks s) (executorTid s) (curTid s)
    (capturedThreads s) v (blockAfterSwitchcall s) (hookLog s).
Definition set_blockAfterSwitchcall (v : bool) (s : State) : State :=
  mkState (contexts s) (threadStates s) (waitLocks s) (executorTid s) (curTid s)
    (capturedThreads s) (executorInSyscall s) v (hookLog s).
Definition set_hookLog (v : list HookCall) (s : State) : State :=
  mkState (contexts s) (threadStates s) (waitLocks s) (executorTid s) (curTid s)
    (capturedThreads s) (executorInSyscall s) (blockAfterSwitchcall s) v.

(** ** Arrays of [MAX_THREADS] entries *)

(** [a[i]]: defined for [i < MAX_THREADS] only. *)
Definition aget {A : Type} (a : list A) (i : N) : option A :=
  if decide (i < MAX_THREADS) then a !! N.to_nat i else None.

(** [a[i] = v], used once [i < MAX_THREADS] is known. *)
Definition aset {A : Type} (a : list A) (i : N) (v : A) : list A :=
  <[N.to_nat i := v]> a.

(** ** The monad *)

Inductive Diag :=
  | Panic (line : N)
  | AssertFailed (line : N).

Inductive Outcome (A : Type) :=
  | Ok (a : A) (s : State)
  | Fatal (d : Diag)
  | Undef.
Arguments Ok {A} a s.
Arguments Fatal {A} d.
Arguments Undef {A}.

Definition M (A : Type) : Type := State -> Outcome A.

Definition ret {A : Type} (a : A) : M A := fun s => Ok a s.

Definition bind {A B : Type} (m : M A) (k : A -> M B) : M B :=
  fun s =>
    match m s with
    | Ok a s' => k a s'
    | Fatal d => Fatal d
    | Undef => Undef
    end.

Declare Scope spin_scope.
Delimit Scope spin_scope with spin.
Notation "x <- m ;; k" := (bind m (fun x => k))
  (at level 100, m at next level, right associativity) : spin_scope.
Notation "m ;; k" := (bind m (fun _ => k))
  (at level 100, right associativity) : spin_scope.
Local Open Scope spin_scope.

Definition gets {A : Type} (f : State -> A) : M A := fun s => Ok (f s) s.
Definition modify (f : State -> State) : M unit := fun s => Ok tt (f s).
(** Modelled from the spec: [panic] comes from [log.h] and [assert] from the
    project's own [assert.h], which are not among the sources; the
    specification says that both are fatal, process-terminating
    diagnostics.  [panic] at the given source line: *)
Definition panic {A : Type} (line : N) : M A := fun _ => Fatal (Panic line).

(** [assert(P)] at the given source line. *)
Definition assert_ (line : N) (P : Prop) `{Decision P} : M unit :=
  fun s => if decide P then Ok tt s else Fatal (AssertFailed line).

(** [if (c) { m }] *)
Definition when (c : bool) (m : M unit) : M unit :=
  if c then m else ret tt.

(** [threadStates[tid]] *)
Definition threadStates_at (tid : N) : M ThreadState :=
  fun s => match aget (threadStates s) tid with
           | Some x => Ok x s
           | None => Undef
           end.

(** [threadStates[tid] = v] *)
Definition threadStates_put (tid : N) (v : ThreadState) : M unit :=
  fun s => if decide (tid < MAX_THREADS)
           then Ok tt (set_threadStates (aset (threadStates s) tid v) s)
           else Undef.

(** [contexts[tid]] *)
Definition contexts_at (tid : N) : M CONTEXT :=
  fun s => match aget (contexts s) tid with
           | Some x => Ok x s
           | None => Undef
           end.

(** [PIN_SaveContext(ctxt, &contexts[tid])] *)
Definition PIN_SaveContext (ctxt : CONTEXT) (tid : N) : M unit :=
  fun s => if decide (tid < MAX_THREADS)
           then Ok tt (set_contexts (aset (contexts s) tid ctxt) s)
           else Undef.

(** [PIN_SetContextReg(&contexts[tid], r, v)] *)
Definition contexts_SetContextReg (tid : N) (r : REG) (v : N) : M unit :=
  c <- contexts_at tid ;;
  PIN_SaveContext (PIN_SetContextReg c r v) tid.

(** Modelled from the spec: the [mutex] type comes from [mutex.h], which is
    not among the sources; the specification describes one binary wait slot
    per thread.  [waitLocks[tid].unlock()] frees the slot: *)
Definition waitLocks_unlock (tid : N) : M unit :=
  fun s => if decide (tid < MAX_THREADS)
           then Ok tt (set_waitLocks (aset (waitLocks s) tid false) s)
           else Undef.

(** A callback that returns nothing is only recorded. *)
Definition call_hook (h : HookCall) : M unit :=
  modify (fun s => set_hookLog (hookLog s ++ [h]) s).

(** Where the calling OS thread goes when a guard is done:
    [PIN_ExecuteAt(&contexts[i])], or [waitLocks[tid].lock()] inside the
    loop of [TraceGuard]. *)
Inductive Control :=
  | ExecuteAt (c : CONTEXT)
  | Parked.

(** [PIN_ExecuteAt(&contexts[tid])] *)
Definition PIN_ExecuteAt (tid : N) : M Control :=
  c <- contexts_at tid ;;
  ret (ExecuteAt c).

(** ** The program *)

(** [init]: every thread [UNCAPTURED], every wait lock taken, no executor
    and no current thread.  The global [contexts] array is zero-initialised. *)
Definition init : State := {|
  contexts := replicate (N.to_nat MAX_THREADS) (mkCONTEXT 0 0 0);
  threadStates := replicate (N.to_nat MAX_THREADS) UNCAPTURED;
  waitLocks := replicate (N.to_nat MAX_THREADS) true;
  executorTid := NO_TID;
  curTid := NO_TID;
  capturedThreads := 0;
  executorInSyscall := false;
  blockAfterSwitchcall := false;
  hookLog := []
|}.

(** [ThreadStart]: returns the new thread's context, with [executorReg]
    cleared so that its first trace trips the capture guard. *)
Definition ThreadStart (tid : N) (ctxt : CONTEXT) : M CONTEXT :=
  call_hook (CallThreadStart tid) ;;
  st <- threadStates_at tid ;;
  assert_ 106 (st = UNCAPTURED) ;;
  ret (PIN_SetContextReg ctxt executorReg 0).

Definition ThreadFini (tid : N) : M unit :=
  st <- threadStates_at tid ;;
  (if decide (st = RUNNING) then
     n <- gets capturedThreads ;;
     assert_ 115 (n = 1)
   else
     assert_ 121 (st = UNCAPTURED)) ;;
  call_hook (CallThreadEnd tid).

Section Guards.

(** The tool's uncapture callback: given the outgoing thread and its saved
    context it names the thread to run next. *)
Variable uncaptureCallback : N -> CONTEXT -> N.

(** Helper of the guards, called with [executorMutex] held. *)
Definition UncaptureAndSwitch : M unit :=
  cur <- gets curTid ;;
  c <- contexts_at cur ;;
  let nextTid := uncaptureCallback cur c in
  call_hook (CallUncapture cur c nextTid) ;;
  (if decide (MAX_THREADS <= nextTid) then panic 132 else ret tt) ;;
  stn <- threadStates_at nextTid ;;
  (if decide (stn <> IDLE) then panic 134 else ret tt) ;;
  modify (fun s => set_capturedThreads (u32_decr (capturedThreads s)) s) ;;
  stc <- threadStates_at cur ;;
  assert_ 139 (stc = RUNNING) ;;
  threadStates_put cur UNCAPTURED ;;
  modify (set_curTid (u32 nextTid)) ;;
  cur' <- gets curTid ;;
  stc' <- threadStates_at cur' ;;
  assert_ 142 (stc' = IDLE) ;;
  threadStates_put cur' RUNNING.

Definition RunTraceGuard (executor : N) : N :=
  if decide (executor = 0) then 1 else 0.

(** Lines 223-232 of [TraceGuard]: the calling thread takes the executor
    role and continues the current logical thread. *)
Definition TraceGuard_become_executor (tid : N) : M Control :=
  e <- gets executorTid ;;
  assert_ 223 (e = NO_TID) ;;
  modify (set_executorTid tid) ;;
  cur <- gets curTid ;;
  assert_ 227 (cur < MAX_THREADS) ;;
  contexts_SetContextReg cur executorReg 1 ;;
  contexts_SetContextReg cur switchReg cur ;;
  PIN_ExecuteAt cur.

(** The head of [while (executorTid != -1u)]: either the thread releases
    the mutex and parks on [waitLocks[tid]], or the loop is over. *)
Definition TraceGuard_loop (tid : N) : M Control :=
  e <- gets executorTid ;;
  if decide (e <> NO_TID) then ret Parked
  else TraceGuard_become_executor tid.

(** Lines 173-185 of [TraceGuard]: the calling thread is captured. *)
Definition TraceGuard_capture (tid : N) : M unit :=
  st <- threadStates_at tid ;;
  assert_ 173 (st = UNCAPTURED) ;;
  n <- gets capturedThreads ;;
  let runsNext := bool_decide (n = 0) in
  call_hook (CallCapture tid runsNext) ;;
  modify (fun s => set_capturedThreads (u32_incr (capturedThreads s)) s) ;;
  threadStates_put tid IDLE ;;
  when runsNext (
    threadStates_put tid RUNNING ;;
    cur <- gets curTid ;;
    assert_ 183 (cur = NO_TID) ;;
    modify (set_curTid tid)).

(** Lines 187-195 of [TraceGuard]: the uncapture that [SyscallGuard] left
    to the next captured thread. *)
Definition TraceGuard_delayed_uncapture : M unit :=
  inSyscall <- gets executorInSyscall ;;
  when inSyscall (
    cur <- gets curTid ;;
    e <- gets executorTid ;;
    assert_ 189 (cur = e) ;;
    n <- gets capturedThreads ;;
    assert_ 190 (n = 2) ;;
    UncaptureAndSwitch ;;
    modify (set_executorTid NO_TID) ;;
    modify (set_executorInSyscall false)).

(** [TraceGuard] from its entry to the first point where the calling thread
    leaves the guard or parks. *)
Definition TraceGuard (tid : N) (ctxt : CONTEXT) : M Control :=
  assert_ 152 (PIN_GetContextReg ctxt executorReg = 0) ;;
  PIN_SaveContext ctxt tid ;;
  st <- threadStates_at tid ;;
  if decide (st = RUNNING) then
    e <- gets executorTid ;;
    assert_ 162 (e = tid) ;;
    cur <- gets curTid ;;
    assert_ 163 (cur = tid) ;;
    n <- gets capturedThreads ;;
    assert_ 164 (n = 1) ;;
    modify (set_executorInSyscall false) ;;
    contexts_SetContextReg tid executorReg 1 ;;
    cur <- gets curTid ;;
    contexts_SetContextReg tid switchReg cur ;;
    PIN_ExecuteAt tid
  else
    TraceGuard_capture tid ;;
    TraceGuard_delayed_uncapture ;;
    TraceGuard_loop tid.

(** The body of the loop of [TraceGuard] once [waitLocks[tid].lock()] has
    returned and the mutex is taken again (lines 202-220), up to the point
    where the thread leaves the guard or parks again. *)
Definition TraceGuard_wakeup (tid : N) : M Control :=
  st <- threadStates_at tid ;;
  if decide (st = UNCAPTURED) then
    contexts_SetContextReg tid executorReg 0 ;;
    contexts_SetContextReg tid switchReg ADDRINT_MINUS_ONE ;;
    PIN_ExecuteAt tid
  else
    e <- gets executorTid ;;
    if decide (e = NO_TID) then TraceGuard_become_executor tid
    else TraceGuard_loop tid.

Definition RunSyscallGuard (executor : N) : N := executor.

Definition SyscallGuard (tid : N) (ctxt : CONTEXT) : M Control :=
  e <- gets executorTid ;;
  assert_ 244 (e = tid) ;;
  cur <- gets curTid ;;
  PIN_SaveContext ctxt cur ;;
  if decide (cur <> tid) then
    n <- gets capturedThreads ;;
    assert_ 250 (2 <= n) ;;
    let wakeTid := cur in
    UncaptureAndSwitch ;;
    waitLocks_unlock wakeTid ;;
    cur' <- gets curTid ;;
    contexts_SetContextReg cur' executorReg 1 ;;
    contexts_SetContextReg cur' switchReg cur' ;;
    PIN_ExecuteAt cur'
  else
    n <- gets capturedThreads ;;
    (if decide (2 <= n) then
       UncaptureAndSwitch ;;
       modify (set_executorTid NO_TID) ;;
       cur' <- gets curTid ;;
       waitLocks_unlock cur'
     else
       inSyscall <- gets executorInSyscall ;;
       assert_ 275 (inSyscall = false) ;;
       modify (set_executorInSyscall true)) ;;
    contexts_SetContextReg tid executorReg 0 ;;
    contexts_SetContextReg tid switchReg ADDRINT_MINUS_ONE ;;
    PIN_ExecuteAt tid.

End Guards.

(** [NeedsSwitch]: the argument is the 64-bit value of [switchReg]. *)
Definition NeedsSwitch (nextTid : N) (s : State) : N :=
  N.lor (if decide (nextTid <> curTid s) then 1 else 0)
        (if blockAfterSwitchcall s then 1 else 0).

Definition SwitchHandler (tid : N) (ctxt : CONTEXT) : M Control :=
  let nextTid := u32 (PIN_GetContextReg ctxt switchReg) in
  (if decide (PIN_GetContextReg ctxt executorReg <> 1) then panic 295 else ret tt) ;;
  blockAfter <- gets blockAfterSwitchcall ;;
  cur <- gets curTid ;;
  (if decide (blockAfter = true /\ nextTid = cur) then panic 298 else ret tt) ;;
  e <- gets executorTid ;;
  assert_ 301 (e = tid) ;;
  assert_ 302 (nextTid <> cur) ;;
  assert_ 303 (cur <= MAX_THREADS) ;;
  (if decide (MAX_THREADS <= nextTid) then panic 305
   else
     stn <- threadStates_at nextTid ;;
     if decide (stn <> IDLE) then panic 305 else ret tt) ;;
  PIN_SaveContext ctxt cur ;;
  contexts_SetContextReg cur executorReg 0 ;;
  contexts_SetContextReg cur switchReg ADDRINT_MINUS_ONE ;;
  stc <- threadStates_at cur ;;
  assert_ 314 (stc = RUNNING) ;;
  blockAfter <- gets blockAfterSwitchcall ;;
  (if negb blockAfter then
     threadStates_put cur IDLE
   else
     threadStates_put cur BLOCKED ;;
     modify (fun s => set_capturedThreads (u32_decr (capturedThreads s)) s) ;;
     modify (set_blockAfterSwitchcall false)) ;;
  modify (set_curTid nextTid) ;;
  cur' <- gets curTid ;;
  threadStates_put cur' RUNNING ;;
  contexts_SetContextReg cur' executorReg 1 ;;
  contexts_SetContextReg cur' switchReg cur' ;;
  PIN_ExecuteAt cur'.

(** ** Public interface *)

Definition getContext (tid : N) : M CONTEXT :=
  assert_ 434 (tid < MAX_THREADS) ;;
  st <- threadStates_at tid ;;
  assert_ 435 (st = BLOCKED \/ st = IDLE) ;;
  contexts_at tid.

Definition blockAfterSwitch : M unit :=
  b <- gets blockAfterSwitchcall ;;
  assert_ 445 (b = false) ;;
  modify (set_blockAfterSwitchcall true).

Definition blockIdleThread (tid : N) : M unit :=
  assert_ 451 (tid < MAX_THREADS) ;;
  st <- threadStates_at tid ;;
  assert_ 452 (st = IDLE) ;;
  n <- gets capturedThreads ;;
  assert_ 453 (1 < n) ;;
  threadStates_put tid BLOCKED ;;
  modify (fun s => set_capturedThreads (u32_decr (capturedThreads s)) s).

Definition unblock (tid : N) : M unit :=
  assert_ 461 (tid < MAX_THREADS) ;;
  st <- threadStates_at tid ;;
  assert_ 462 (st = BLOCKED) ;;
  threadStates_put tid IDLE ;;
  modify (fun s => set_capturedThreads (u32_incr (capturedThreads s)) s).

(** Modelled from the spec: the same binary wait slot.
    [waitLocks[tid].lock()] returns only when the slot is free, and takes
    it. *)
Definition waitLocks_lock (tid : N) (s : State) : option State :=
  match aget (waitLocks s) tid with
  | Some false => Some (set_waitLocks (aset (waitLocks s) tid true) s)
  | _ => None
  end.

(** ** Counting the captured threads *)

Definition captured (st : ThreadState) : bool :=
  match st with
  | IDLE | RUNNING => true
  | UNCAPTURED | BLOCKED => false
  end.

Definition b2N (b : bool) : N := if b then 1 else 0.

(** The number of entries of [threadStates] that are [IDLE] or [RUNNING]. *)
Fixpoint countCaptured (l : list ThreadState) : N :=
  match l with
  | [] => 0
  | st :: l' => b2N (captured st) + countCaptured l'
  end.

(** What the C++ types guarantee of a state: the three arrays have
    [MAX_THREADS] entries and the three counters are [uint32_t]. *)
Record wf_State (s : State) : Prop := {
  wf_contexts : length (contexts s) = N.to_nat MAX_THREADS;
  wf_threadStates : length (threadStates s) = N.to_nat MAX_THREADS;
  wf_waitLocks : length (waitLocks s) = N.to_nat MAX_THREADS;
  wf_executorTid : executorTid s < 2 ^ 32;
  wf_curTid : curTid s < 2 ^ 32;
  wf_capturedThreads : capturedThreads s < 2 ^ 32
}.

(** ** Sequential reachability

    Every critical section of the file, run to completion from any state with
    any arguments and any callback, is one step; so is the helper
    [UncaptureAndSwitch] on its own.  A step that ends in [Fatal] or [Undef]
    is the end of the process and leads nowhere. *)
Inductive step : State -> State -> Prop :=
  | step_ThreadStart tid ctxt c s s' :
      ThreadStart tid ctxt s = Ok c s' -> step s s'
  | step_ThreadFini tid s s' :
      ThreadFini tid s = Ok tt s' -> step s s'
  | step_TraceGuard cb tid ctxt k s s' :
      TraceGuard cb tid ctxt s = Ok k s' -> step s s'
  | step_waitLocks_lock tid s s' :
      waitLocks_lock tid s = Some s' -> step s s'
  | step_TraceGuard_wakeup tid k s s' :
      TraceGuard_wakeup tid s = Ok k s' -> step s s'
  | step_SyscallGuard cb tid ctxt k s s' :
      SyscallGuard cb tid ctxt s = Ok k s' -> step s s'
  | step_UncaptureAndSwitch cb s s' :
      UncaptureAndSwitch cb s = Ok tt s' -> step s s'
  | step_SwitchHandler tid ctxt k s s' :
      SwitchHandler tid ctxt s = Ok k s' -> step s s'
  | step_blockAfterSwitch s s' :
      blockAfterSwitch s = Ok tt s' -> step s s'
  | step_blockIdleThread tid s s' :
      blockIdleThread tid s = Ok tt s' -> step s s'
  | step_unblock tid s s' :
      unblock tid s = Ok tt s' -> step s s'.

Inductive reachable : State -> Prop :=
  | reachable_init : reachable init
  | reachable_step s s' : reachable s -> step s s' -> reachable s'.

(** The invariant of the sequential machine. *)
Record inv (s : State) : Prop := {
  inv_wf : wf_State s;
  inv_count : capturedThreads s = countCaptured (threadStates s);
  inv_cur :
    (curTid s = NO_TID /\ capturedThreads s = 0 /\
     forall t st, aget (threadStates s) t = Some st -> st = UNCAPTURED) \/
    aget (threadStates s) (curTid s) = Some RUNNING
}.

(** ** The threads around the executor state

    What the instrumentation inserted by [Trace] lets an OS thread do
    depends on where the thread is and on the value of [executorReg] in its
    live register context:
    - [TraceGuard] runs at the start of a trace when [RunTraceGuard] of the
      live [executorReg] is non-zero;
    - [SyscallGuard] runs before a system call when [RunSyscallGuard] of the
      live [executorReg] is non-zero;
    - [SwitchHandler] runs at a switchpoint when [NeedsSwitch] of the live
      [switchReg] is non-zero;
    - [blockIdleThread] and [unblock] take [executorMutex] and check nothing
      about their caller: the tool may call them from any thread, whenever
      the lock is free;
    - [blockAfterSwitch] takes no lock and may be called at any time;
    - a thread parked in the loop of [TraceGuard] does nothing until its
      wait lock is released. *)
Inductive ThreadCtl :=
  | Live (c : CONTEXT)   (* running program code with register context [c] *)
  | Waiting              (* in [TraceGuard], at [waitLocks[tid].lock()] *)
  | Woken.               (* in [TraceGuard], at the [executorMutex.lock()] that follows *)

Record System := mkSystem {
  prot : State;
  ctl : gmap N ThreadCtl
}.

Definition after (k : Control) : ThreadCtl :=
  match k with
  | ExecuteAt c => Live c
  | Parked => Waiting
  end.

(** The program and the tool's analysis code change a thread's registers as
    they like, [executorReg] apart: only this file writes it. *)
Definition runs_to (c ctxt : CONTEXT) : Prop :=
  PIN_GetContextReg ctxt executorReg = PIN_GetContextReg c executorReg.

Inductive sys_step : System -> System -> Prop :=
  | sys_ThreadStart tid ctxt c s' (y : System) :
      tid < MAX_THREADS ->
      ctl y !! tid = None ->
      ThreadStart tid ctxt (prot y) = Ok c s' ->
      sys_step y (mkSystem s' (<[tid := Live c]> (ctl y)))
  | sys_ThreadFini tid c s' (y : System) :
      ctl y !! tid = Some (Live c) ->
      ThreadFini tid (prot y) = Ok tt s' ->
      sys_step y (mkSystem s' (delete tid (ctl y)))
  | sys_TraceGuard cb tid c ctxt k s' (y : System) :
      ctl y !! tid = Some (Live c) ->
      runs_to c ctxt ->
      RunTraceGuard (PIN_GetContextReg ctxt executorReg) <> 0 ->
      TraceGuard cb tid ctxt (prot y) = Ok k s' ->
      sys_step y (mkSystem s' (<[tid := after k]> (ctl y)))
  | sys_waitLocks_lock tid s' (y : System) :
      ctl y !! tid = Some Waiting ->
      waitLocks_lock tid (prot y) = Some s' ->
      sys_step y (mkSystem s' (<[tid := Woken]> (ctl y)))
  | sys_TraceGuard_wakeup tid k s' (y : System) :
      ctl y !! tid = Some Woken ->
      TraceGuard_wakeup tid (prot y) = Ok k s' ->
      sys_step y (mkSystem s' (<[tid := after k]> (ctl y)))
  | sys_SyscallGuard cb tid c ctxt k s' (y : System) :
      ctl y !! tid = Some (Live c) ->
      runs_to c ctxt ->
      RunSyscallGuard (PIN_GetContextReg ctxt executorReg) <> 0 ->
      SyscallGuard cb tid ctxt (prot y) = Ok k s' ->
      sys_step y (mkSystem s' (<[tid := after k]> (ctl y)))
  | sys_SwitchHandler tid c ctxt k s' (y : System) :
      ctl y !! tid = Some (Live c) ->
      runs_to c ctxt ->
      NeedsSwitch (PIN_GetContextReg ctxt switchReg) (prot y) <> 0 ->
      SwitchHandler tid ctxt (prot y) = Ok k s' ->
      sys_step y (mkSystem s' (<[tid := after k]> (ctl y)))
  | sys_blockAfterSwitch s' (y : System) :
      blockAfterSwitch (prot y) = Ok tt s' ->
      sys_step y (mkSystem s' (ctl y))
  | sys_blockIdleThread t s' (y : System) :
      blockIdleThread t (prot y) = Ok tt s' ->
      sys_step y (mkSystem s' (ctl y))
  | sys_unblock t s' (y : System) :
      unblock t (prot y) = Ok tt s' ->
      sys_step y (mkSystem s' (ctl y)).

Definition sys_init : System := mkSystem init empty.

Inductive sys_reachable : System -> Prop :=
  | sys_reachable_init : sys_reachable sys_init
  | sys_reachable_step y y' :
      sys_reachable y -> sys_step y y' -> sys_reachable y'.

(** ** The states that the operations lead to

    Each successful run of an operation ends in a state that is written out
    here in terms of the state it started from. *)

(** The state after a successful [UncaptureAndSwitch] that was given the
    saved context [c] of the outgoing thread and chose [next]. *)
Definition uncaptured_and_switched (s : State) (c : CONTEXT) (next : N) : State := {|
  contexts := contexts s;
  threadStates := aset (aset (threadStates s) (curTid s) UNCAPTURED) next RUNNING;
  waitLocks := waitLocks s;
  executorTid := executorTid s;
  curTid := next;
  capturedThreads := u32_decr (capturedThreads s);
  executorInSyscall := executorInSyscall s;
  blockAfterSwitchcall := blockAfterSwitchcall s;
  hookLog := hookLog s ++ [CallUncapture (curTid s) c next]
|}.

(** The context that a guard resumes: [c] with the two tool registers
    set to [er] and [sw]. *)
Definition resumed (c : CONTEXT) (er sw : N) : CONTEXT :=
  PIN_SetContextReg (PIN_SetContextReg c executorReg er) switchReg sw.

(** The state after [TraceGuard_capture]: thread [tid] is captured. *)
Definition capture_result (s : State) (tid : N) : State :=
  let runsNext := bool_decide (capturedThreads s = 0) in {|
  contexts := contexts s;
  threadStates := aset (threadStates s) tid (if runsNext then RUNNING else IDLE);
  waitLocks := waitLocks s;
  executorTid := executorTid s;
  curTid := if runsNext then tid else curTid s;
  capturedThreads := u32_incr (capturedThreads s);
  executorInSyscall := executorInSyscall s;
  blockAfterSwitchcall := blockAfterSwitchcall s;
  hookLog := hookLog s ++ [CallCapture tid runsNext]
|}.

(** The state after [TraceGuard_delayed_uncapture] when an uncapture was
    pending. *)
Definition delayed_uncapture_result (s : State) (c : CONTEXT) (next : N) : State :=
  set_executorInSyscall false
    (set_executorTid NO_TID (uncaptured_and_switched s c next)).

(** The state after [TraceGuard_become_executor]; [c] is the saved context
    of the current thread. *)
Definition became_executor (s : State) (tid : N) (c : CONTEXT) : State :=
  set_contexts (aset (contexts s) (curTid s) (resumed c 1 (curTid s)))
    (set_executorTid tid s).

(** The state after a wake-up that sends the thread to its own system call. *)
Definition took_syscall (s : State) (tid : N) (c : CONTEXT) : State :=
  set_contexts (aset (contexts s) tid (resumed c 0 ADDRINT_MINUS_ONE)) s.

(** The state after [SwitchHandler]; [c'] is the saved context of the
    requested thread. *)
Definition switched (s : State) (ctxt c' : CONTEXT) : State :=
  let next := u32 (PIN_GetContextReg ctxt switchReg) in {|
  contexts :=
    aset (aset (contexts s) (curTid s) (resumed ctxt 0 ADDRINT_MINUS_ONE))
      next (resumed c' 1 next);
  threadStates :=
    aset (aset (threadStates s) (curTid s)
            (if blockAfterSwitchcall s then BLOCKED else IDLE))
      next RUNNING;
  waitLocks := waitLocks s;
  executorTid := executorTid s;
  curTid := next;
  capturedThreads :=
    if blockAfterSwitchcall s then u32_decr (capturedThreads s)
    else capturedThreads s;
  executorInSyscall := executorInSyscall s;
  blockAfterSwitchcall := false;
  hookLog := hookLog s
|}.

(** Case 1: the system call belongs to the logical thread [curTid], which
    is not the executor's own; it is shipped to that thread. *)
Definition syscall_shipped (s : State) (ctxt c' : CONTEXT) (next : N) : State := {|
  contexts := aset (aset (contexts s) (curTid s) ctxt) next (resumed c' 1 next);
  threadStates := aset (aset (threadStates s) (curTid s) UNCAPTURED) next RUNNING;
  waitLocks := aset (waitLocks s) (curTid s) false;
  executorTid := executorTid s;
  curTid := next;
  capturedThreads := u32_decr (capturedThreads s);
  executorInSyscall := executorInSyscall s;
  blockAfterSwitchcall := blockAfterSwitchcall s;
  hookLog := hookLog s ++ [CallUncapture (curTid s) ctxt next]
|}.

(** Case 2: the executor takes its own system call and another captured
    thread is woken up to become the executor. *)
Definition syscall_handed_over (s : State) (ctxt : CONTEXT) (next : N) : State := {|
  contexts := aset (contexts s) (curTid s) (resumed ctxt 0 ADDRINT_MINUS_ONE);
  threadStates := aset (aset (threadStates s) (curTid s) UNCAPTURED) next RUNNING;
  waitLocks := aset (waitLocks s) next false;
  executorTid := NO_TID;
  curTid := next;
  capturedThreads := u32_decr (capturedThreads s);
  executorInSyscall := executorInSyscall s;
  blockAfterSwitchcall := blockAfterSwitchcall s;
  hookLog := hookLog s ++ [CallUncapture (curTid s) ctxt next]
|}.

(** Case 3: the executor is the only captured thread; the uncapture is
    left to the next captured thread. *)
Definition syscall_deferred (s : State) (ctxt : CONTEXT) : State := {|
  contexts := aset (contexts s) (curTid s) (resumed ctxt 0 ADDRINT_MINUS_ONE);
  threadStates := threadStates s;
  waitLocks := waitLocks s;
  executorTid := executorTid s;
  curTid := curTid s;
  capturedThreads := capturedThreads s;
  executorInSyscall := true;
  blockAfterSwitchcall := blockAfterSwitchcall s;
  hookLog := hookLog s
|}.

(** The fast path: the caller never gave up the executor role. *)
Definition trace_resumed (s : State) (tid : N) (ctxt : CONTEXT) : State := {|
  contexts := aset (contexts s) tid (resumed ctxt 1 tid);
  threadStates := threadStates s;
  waitLocks := waitLocks s;
  executorTid := executorTid s;
  curTid := curTid s;
  capturedThreads := capturedThreads s;
  executorInSyscall := false;
  blockAfterSwitchcall := blockAfterSwitchcall s;
  hookLog := hookLog s
|}.

(** The state in which the loop of [TraceGuard] starts when thread [tid] has
    been captured and has run the uncapture deferred by the executor. *)
Definition delayed_uncaptured (s : State) (tid : N) (ctxt c : CONTEXT) : State := {|
  contexts := aset (contexts s) tid ctxt;
  threadStates :=
    aset (aset (aset (threadStates s) tid IDLE) (curTid s) UNCAPTURED)
      tid RUNNING;
  waitLocks := waitLocks s;
  executorTid := NO_TID;
  curTid := tid;
  capturedThreads := 1;
  executorInSyscall := false;
  blockAfterSwitchcall := blockAfterSwitchcall s;
  hookLog :=
    hookLog s ++ [CallCapture tid false; CallUncapture (curTid s) c tid]
|}.

(** The states after [blockIdleThread] and after [unblock]. *)
Definition blocked_idle (s : State) (tid : N) : State :=
  set_capturedThreads (u32_decr (capturedThreads s))
    (set_threadStates (aset (threadStates s) tid BLOCKED) s).

Definition unblocked (s : State) (tid : N) : State :=
  set_capturedThreads (u32_incr (capturedThreads s))
    (set_threadStates (aset (threadStates s) tid IDLE) s).

(** The invariant of the threads around the executor state. *)
Record sys_inv (y : System) : Prop := {
  si_prot : inv (prot y);
  si_tids : forall t, is_Some (ctl y !! t) -> t < MAX_THREADS;
  (* a deferred uncapture is pending only for the executor, which is then
     the current thread *)
  si_syscall :
    executorInSyscall (prot y) = true ->
    executorTid (prot y) = curTid (prot y) /\
    aget (threadStates (prot y)) (curTid (prot y)) = Some RUNNING;
  (* a thread whose live [executorReg] is set is the executor, and it is
     not inside a system call *)
  si_executor :
    forall t c, ctl y !! t = Some (Live c) ->
      PIN_GetContextReg c executorReg <> 0 ->
      executorTid (prot y) = t /\ executorInSyscall (prot y) = false;
  (* a thread that runs with [executorReg] clear is uncaptured, or it is
     the executor inside the system call whose uncapture was deferred *)
  si_outside :
    forall t c st, ctl y !! t = Some (Live c) ->
      PIN_GetContextReg c executorReg = 0 ->
      aget (threadStates (prot y)) t = Some st ->
      st = UNCAPTURED \/
      (st = RUNNING /\ executorInSyscall (prot y) = true /\
       executorTid (prot y) = t)
}.

(** ** Scenarios

    Concrete runs of the program, on which the theorems are exercised. *)

Definition state_of {A : Type} (o : Outcome A) : State :=
  match o with
  | Ok _ s => s
  | _ => init
  end.

(** A register context: [executorReg], [switchReg] and the rest. *)
Definition ctx_of (er sw : N) (image : N) : CONTEXT := mkCONTEXT er sw image.

(** An uncapture callback that always picks thread [n]. *)
Definition pick (n : N) : N -> CONTEXT -> N := fun _ _ => n.

(** Thread 0 has started. *)
Definition st_started : State := state_of (ThreadStart 0 (ctx_of 7 7 100) init).

(** Thread 0 is captured: it is the first, so it runs and is the executor. *)
Definition st_one : State :=
  state_of (TraceGuard (pick 0) 0 (ctx_of 0 0 100) st_started).

(** Thread 1 has started and is captured too: it is idle and parked. *)
Definition st_two : State :=
  state_of (TraceGuard (pick 0) 1 (ctx_of 0 0 200)
              (state_of (ThreadStart 1 (ctx_of 7 7 200) st_one))).

(** Thread 0, alone, enters a system call: the uncapture is deferred. *)
Definition st_deferred : State :=
  state_of (SyscallGuard (pick 0) 0 (ctx_of 1 0 101) st_one).

(** Thread 1 starts while thread 0 is in its system call. *)
Definition st_deferred_started : State :=
  state_of (ThreadStart 1 (ctx_of 7 7 200) st_deferred).

(** With two captured threads, the tool arms the block-after-switch flag. *)
Definition st_two_armed : State := state_of (blockAfterSwitch st_two).

(** The scenario of the deferred uncapture with its threads: thread 0 has
    started. *)
Definition sys_started : System :=
  mkSystem st_started
    (<[0 := Live (PIN_SetContextReg (ctx_of 7 7 100) executorReg 0)]> (ctl sys_init)).

(** Thread 0 went through [TraceGuard] and runs as the executor. *)
Definition sys_one : System :=
  mkSystem st_one
    (<[0 := after (ExecuteAt (resumed (ctx_of 0 0 100) 1 0))]> (ctl sys_started)).

(** Thread 0 went through [SyscallGuard] and is inside its system call. *)
Definition sys_deferred : System :=
  mkSystem st_deferred
    (<[0 := after (ExecuteAt (resumed (ctx_of 1 0 101) 0 ADDRINT_MINUS_ONE))]>
       (ctl sys_one)).

(** ** The moves of the protocol

    The operations change the thread states, the current thread, the
    counter and the executor in a few ways only.  These are written out
    here; every operation of the file is a sequence of them. *)

(** The callbacks that only report the life of a thread. *)
Definition lifecycle (h : HookCall) : bool :=
  match h with
  | CallThreadStart _ | CallThreadEnd _ => true
  | CallCapture _ _ | CallUncapture _ _ _ => false
  end.

(** What the tool has been told about thread [t]: whether the last capture
    or uncapture callback about it was a capture. *)
Definition log_event (t : N) (b : bool) (h : HookCall) : bool :=
  match h with
  | CallCapture t' _ => if decide (t' = t) then true else b
  | CallUncapture t' _ _ => if decide (t' = t) then false else b
  | CallThreadStart _ | CallThreadEnd _ => b
  end.

Definition logged_captured (log : list HookCall) (t : N) : bool :=
  fold_left (log_event t) log false.

(** A callback that fits what the tool has been told so far: a capture of a
    thread that it holds as uncaptured, an uncapture of a thread that it
    holds as captured. *)
Definition ok_event (before : list HookCall) (h : HookCall) : Prop :=
  match h with
  | CallCapture t _ => logged_captured before t = false
  | CallUncapture t _ _ => logged_captured before t = true
  | CallThreadStart _ | CallThreadEnd _ => True
  end.

(** The moves: a capture, an uncapture with its switch, a switch, a block, an
    unblock, a thread taking the vacant executor role, and whatever leaves
    the thread states, the current thread and the counter alone. *)
Inductive micro : State -> State -> Prop :=
  | micro_capture s tid :
      aget (threadStates s) tid = Some UNCAPTURED ->
      micro s (capture_result s tid)
  | micro_uncapture s c next :
      aget (threadStates s) (curTid s) = Some RUNNING ->
      aget (threadStates s) next = Some IDLE ->
      micro s (uncaptured_and_switched s c next)
  | micro_switch s ctxt c' :
      aget (threadStates s) (curTid s) = Some RUNNING ->
      aget (threadStates s) (u32 (PIN_GetContextReg ctxt switchReg)) = Some IDLE ->
      micro s (switched s ctxt c')
  | micro_block s tid :
      aget (threadStates s) tid = Some IDLE ->
      1 < capturedThreads s ->
      micro s (blocked_idle s tid)
  | micro_unblock s tid :
      aget (threadStates s) tid = Some BLOCKED ->
      micro s (unblocked s tid)
  | micro_executor s tid c :
      executorTid s = NO_TID ->
      curTid s < MAX_THREADS ->
      tid < MAX_THREADS ->
      micro s (became_executor s tid c)
  | micro_frame s s' :
      threadStates s' = threadStates s ->
      curTid s' = curTid s ->
      capturedThreads s' = capturedThreads s ->
      length (contexts s') = length (contexts s) ->
      length (waitLocks s') = length (waitLocks s) ->
      executorTid s' = executorTid s \/ executorTid s' = NO_TID ->
      hookLog s' = hookLog s \/
        (exists h, lifecycle h = true /\ hookLog s' = hookLog s ++ [h]) ->
      micro s s'.

(** The invariant of the sequential machine, continued: the running thread
    is unique, an executor has a thread to run, and the callbacks tell the
    tool which threads are captured. *)
Record run_inv (s : State) : Prop := {
  ri_inv : inv s;
  ri_unique : forall t, aget (threadStates s) t = Some RUNNING -> t = curTid s;
  ri_executor : executorTid s <> NO_TID -> 1 <= capturedThreads s;
  ri_log : forall t st, aget (threadStates s) t = Some st ->
    (logged_captured (hookLog s) t = true <-> st <> UNCAPTURED);
  ri_alt : forall l1 h l2, hookLog s = l1 ++ h :: l2 -> ok_event l1 h
}.

(** ** The changes of a thread's state *)

(** The changes of state that a thread goes through in one operation.  The
    comment on [enum ThreadState] lists [UNCAPTURED -> {IDLE, RUNNING}],
    [IDLE <-> RUNNING], [RUNNING -> UNCAPTURED] and [IDLE <-> BLOCKED]; a switch
    with the block-after-switch flag armed adds [RUNNING -> BLOCKED]. *)
Definition may_become (a b : ThreadState) : bool :=
  match a, b with
  | UNCAPTURED, (UNCAPTURED | IDLE | RUNNING) => true
  | IDLE, (IDLE | RUNNING | BLOCKED) => true
  | RUNNING, _ => true
  | BLOCKED, (BLOCKED | IDLE) => true
  | _, _ => false
  end.

(** A thread that is captured and does not run: the states in which
    [getContext] hands out its saved context. *)
Definition suspended (st : ThreadState) : bool :=
  match st with
  | IDLE | BLOCKED => true
  | UNCAPTURED | RUNNING => false
  end.

(** ** The exits of the guards *)

(** The two ways in which a guard hands the processor back: to the current
    logical thread, with the caller as the executor, or to the caller's own
    system call. *)
Definition executor_exit (tid : N) (c : CONTEXT) (s' : State) : Prop :=
  PIN_GetContextReg c executorReg = 1 /\
  PIN_GetContextReg c switchReg = curTid s' /\
  executorTid s' = tid /\
  aget (contexts s') (curTid s') = Some c.

Definition syscall_exit (tid : N) (c : CONTEXT) (s' : State) : Prop :=
  PIN_GetContextReg c executorReg = 0 /\
  PIN_GetContextReg c switchReg = ADDRINT_MINUS_ONE /\
  aget (contexts s') tid = Some c.

(** ** The wake-ups *)

(** A thread inside the loop of [TraceGuard]. *)
Definition parked (k : ThreadCtl) : bool :=
  match k with
  | Live _ => false
  | Waiting | Woken => true
  end.

(** The invariant of the wake-ups: the executor whose uncapture was deferred
    is not parked, and a thread that sleeps on a wait lock that is taken has
    nothing to do: it has no system call of its own to make, and if its
    logical thread is the running one, some executor runs it. *)
Record wake_inv (y : System) : Prop := {
  wi_syscall :
    executorInSyscall (prot y) = true ->
    forall k, ctl y !! executorTid (prot y) = Some k -> parked k = false;
  wi_waiting :
    forall t st, ctl y !! t = Some Waiting ->
      aget (waitLocks (prot y)) t = Some true ->
      aget (threadStates (prot y)) t = Some st ->
      st <> UNCAPTURED /\ (st = RUNNING -> executorTid (prot y) <> NO_TID)
}.

(** ** Instrumentation

    [Trace] is the instrumentation callback: Pin calls it once for every
    trace it compiles, and [Trace] asks Pin to insert the guards.  What it
    does is the sequence of its calls of [INS_InsertIfCall] and
    [INS_InsertThenCall]. *)

(** Pin's handle of an instruction, the points of an instruction at which
    an analysis call can be inserted, and the order of the calls inserted
    at one point. *)
Definition INS : Type := N.

Inductive IPOINT :=
  | IPOINT_BEFORE | IPOINT_AFTER | IPOINT_ANYWHERE | IPOINT_TAKEN_BRANCH.

#[global] Instance IPOINT_eq_dec : EqDecision IPOINT.
Proof. solve_decision. Defined.

Inductive CALL_ORDER := CALL_ORDER_FIRST | CALL_ORDER_DEFAULT | CALL_ORDER_LAST.

(** The arguments that [Trace] asks Pin to pass to the inserted calls. *)
Inductive IARG :=
  | IARG_REG_VALUE (r : REG)
  | IARG_THREAD_ID
  | IARG_CONST_CONTEXT
  | IARG_CALL_ORDER (o : CALL_ORDER).

(** The analysis routines of the file. *)
Inductive AFUNPTR :=
  | Fun_RunTraceGuard | Fun_TraceGuard
  | Fun_RunSyscallGuard | Fun_SyscallGuard
  | Fun_NeedsSwitch | Fun_SwitchHandler.

#[global] Instance AFUNPTR_eq_dec : EqDecision AFUNPTR.
Proof. solve_decision. Defined.

(** A call of [INS_InsertIfCall] or of [INS_InsertThenCall]; the list of
    arguments ends where the source has [IARG_END]. *)
Inductive InsertedCall :=
  | INS_InsertIfCall (ins : INS) (p : IPOINT) (f : AFUNPTR) (args : list IARG)
  | INS_InsertThenCall (ins : INS) (p : IPOINT) (f : AFUNPTR) (args : list IARG).

(** A trace is a sequence of basic blocks, a basic block a sequence of
    instructions. *)
Definition BBL : Type := list INS.
Definition TRACE : Type := list BBL.

(** Modelled from the spec: [TraceInfo] is declared in [spin.h], which is not
    among the sources.  The fields are the three that [Trace] reads and
    writes; the specification has the trace callback declare the
    switchpoints of the code unit, each a location with its timing. *)
Record TraceInfo := mkTraceInfo {
  firstIns : INS;
  skipLeadingSwitchCall : bool;
  switchpoints : list (INS * IPOINT)
}.

(** How a run of [Trace] ends: the calls it has inserted, in order; a
    [panic]; or undefined behaviour. *)
Inductive TraceOutcome :=
  | Instrumented (calls : list InsertedCall)
  | TracePanic (line : N)
  | TraceUndef.

Section Instrumentation.

(** Whether an instruction is a system call is a fact of the program under
    instrumentation; the trace callback is the tool's.  It is handed the
    trace and [pt] by reference. *)
Variable INS_IsSyscall : INS -> bool.
Variable traceCallback : TRACE -> TraceInfo -> TraceInfo.

(** Lines 349-354. *)
Definition insert_TraceGuard (ins : INS) : list InsertedCall :=
  [INS_InsertIfCall ins IPOINT_BEFORE Fun_RunTraceGuard
     [IARG_REG_VALUE executorReg; IARG_CALL_ORDER CALL_ORDER_FIRST];
   INS_InsertThenCall ins IPOINT_BEFORE Fun_TraceGuard
     [IARG_THREAD_ID; IARG_CONST_CONTEXT; IARG_CALL_ORDER CALL_ORDER_FIRST]].

(** Lines 360-365. *)
Definition insert_SyscallGuard (ins : INS) : list InsertedCall :=
  [INS_InsertIfCall ins IPOINT_BEFORE Fun_RunSyscallGuard
     [IARG_REG_VALUE executorReg; IARG_CALL_ORDER CALL_ORDER_FIRST];
   INS_InsertThenCall ins IPOINT_BEFORE Fun_SyscallGuard
     [IARG_THREAD_ID; IARG_CONST_CONTEXT; IARG_CALL_ORDER CALL_ORDER_FIRST]].

(** Lines 385-388. *)
Definition insert_SwitchHandler (ins : INS) : list InsertedCall :=
  [INS_InsertIfCall ins IPOINT_BEFORE Fun_NeedsSwitch
     [IARG_REG_VALUE switchReg];
   INS_InsertThenCall ins IPOINT_BEFORE Fun_SwitchHandler
     [IARG_THREAD_ID; IARG_CONST_CONTEXT]].

(** The loop over the instructions (lines 358-367): a guard before every
    system call. *)
Fixpoint Trace_syscalls (idxToIns : list INS) : list InsertedCall :=
  match idxToIns with
  | [] => []
  | ins :: rest =>
      (if INS_IsSyscall ins then insert_SyscallGuard ins else [])
      ++ Trace_syscalls rest
  end.

(** The loop over [pt.switchpoints] (lines 374-389); [first] is
    [idxToIns[0]]. *)
Fixpoint Trace_switchpoints (first : INS) (sps : list (INS * IPOINT))
    : TraceOutcome :=
  match sps with
  | [] => Instrumented []
  | (ins, ipoint) :: rest =>
      if decide (ipoint <> IPOINT_BEFORE) then TracePanic 380
      else if bool_decide (ins = first) && INS_IsSyscall ins
      then Trace_switchpoints first rest
      else
        match Trace_switchpoints first rest with
        | Instrumented calls => Instrumented (insert_SwitchHandler ins ++ calls)
        | o => o
        end
  end.

(** [Trace].  [idxToIns[0]] of an empty vector is undefined behaviour. *)
Definition Trace (trace : TRACE) : TraceOutcome :=
  let idxToIns := concat trace in
  match idxToIns with
  | [] => TraceUndef
  | first :: _ =>
      let pt :=
        traceCallback trace (mkTraceInfo first (INS_IsSyscall first) []) in
      let guard :=
        if negb (INS_IsSyscall first) then insert_TraceGuard first else [] in
      let syscalls := Trace_syscalls idxToIns in
      match Trace_switchpoints first (switchpoints pt) with
      | Instrumented calls => Instrumented (guard ++ syscalls ++ calls)
      | o => o
      end
  end.

(** The switchpoints that get a switch handler: all but those on a leading
    system call. *)
Definition handled (first : INS) (sp : INS * IPOINT) : Prop :=
  ~ (sp.1 = first /\ INS_IsSyscall sp.1 = true).

#[global] Instance handled_dec first sp : Decision (handled first sp).
Proof. unfold handled. apply _. Defined.

End Instrumentation.

(** The instructions before which a call of [f] is inserted as the
    then-part of a pair. *)
Fixpoint then_calls (f : AFUNPTR) (calls : list InsertedCall) : list INS :=
  match calls with
  | [] => []
  | INS_InsertThenCall ins _ g _ :: rest =>
      if decide (g = f) then ins :: then_calls f rest else then_calls f rest
  | INS_InsertIfCall _ _ _ _ :: rest => then_calls f rest
  end.

(** The predicate that decides whether a routine runs. *)
Definition predicate_of (g : AFUNPTR) : option AFUNPTR :=
  match g with
  | Fun_TraceGuard => Some Fun_RunTraceGuard
  | Fun_SyscallGuard => Some Fun_RunSyscallGuard
  | Fun_SwitchHandler => Some Fun_NeedsSwitch
  | _ => None
  end.

(** The inserted calls come in pairs: an if-call of a predicate, then at
    once the then-call of its routine, before the same instruction. *)
Fixpoint well_paired (calls : list InsertedCall) : bool :=
  match calls with
  | [] => true
  | INS_InsertIfCall ins IPOINT_BEFORE f _
    :: INS_InsertThenCall ins' IPOINT_BEFORE g _ :: rest =>
      bool_decide (ins = ins') && bool_decide (predicate_of g = Some f)
      && well_paired rest
  | _ => false
  end.

(** ** Scenarios, continued *)

(** Thread 1 has started while thread 0 runs as the executor. *)
Definition st_one_started : State :=
  state_of (ThreadStart 1 (ctx_of 7 7 200) st_one).

(** With two captured threads, the executor switches from thread 0 to
    thread 1. *)
Definition st_switched : State :=
  state_of (SwitchHandler 0 (ctx_of 1 1 102) st_two).

(** The same switch with the block-after-switch flag armed: thread 0 is
    blocked, and its OS thread runs thread 1 as the executor. *)
Definition st_switched_blocked : State :=
  state_of (SwitchHandler 0 (ctx_of 1 1 102) st_two_armed).

(** With two captured threads, thread 0 goes to a system call of its own and
    hands the run to thread 1. *)
Definition st_handed : State :=
  state_of (SyscallGuard (pick 1) 0 (ctx_of 1 0 101) st_two).

(** Thread 0, the only captured thread, finishes. *)
Definition st_finished : State := state_of (ThreadFini 0 st_one).

(** A third thread has started and is captured: it is idle and parked, like
    thread 1. *)
Definition st_three : State :=
  state_of (TraceGuard (pick 0) 2 (ctx_of 0 0 300)
              (state_of (ThreadStart 2 (ctx_of 7 7 300) st_two))).

(** With three captured threads, the executor switches from thread 0 to
    thread 1. *)
Definition st_three_switched : State :=
  state_of (SwitchHandler 0 (ctx_of 1 1 102) st_three).

(** The same runs with their threads. *)
Definition sys_one_started : System :=
  mkSystem st_one_started
    (<[1 := Live (PIN_SetContextReg (ctx_of 7 7 200) executorReg 0)]>
       (ctl sys_one)).

Definition sys_two : System :=
  mkSystem st_two (<[1 := after Parked]> (ctl sys_one_started)).

Definition sys_two_armed : System := mkSystem st_two_armed (ctl sys_two).

Definition sys_switched_blocked : System :=
  mkSystem st_switched_blocked
    (<[0 := after (ExecuteAt (resumed (ctx_of 0 0 200) 1 1))]>
       (ctl sys_two_armed)).

(** Thread 0 went to a system call of its own and handed the run to thread
    1, which still sleeps in the loop of [TraceGuard]. *)
Definition sys_handed : System :=
  mkSystem st_handed
    (<[0 := after (ExecuteAt (resumed (ctx_of 1 0 101) 0 ADDRINT_MINUS_ONE))]>
       (ctl sys_two)).

(** With two captured threads, the tool blocks the idle thread 1.  Thread 0
    is then the only captured thread: when it enters a system call, the
    uncapture is deferred.  While thread 0 is inside that system call, the
    tool unblocks thread 1. *)
Definition st_blocked : State := state_of (blockIdleThread 1 st_two).

Definition st_blocked_deferred : State :=
  state_of (SyscallGuard (pick 0) 0 (ctx_of 1 0 101) st_blocked).

Definition st_unblocked_in_syscall : State :=
  state_of (unblock 1 st_blocked_deferred).

Definition sys_blocked : System := mkSystem st_blocked (ctl sys_two).

Definition sys_blocked_deferred : System :=
  mkSystem st_blocked_deferred
    (<[0 := after (ExecuteAt (resumed (ctx_of 1 0 101) 0 ADDRINT_MINUS_ONE))]>
       (ctl sys_blocked)).

Definition sys_unblocked_in_syscall : System :=
  mkSystem st_unblocked_in_syscall (ctl sys_blocked_deferred).

(** A third thread starts while thread 0 is still inside its system call. *)
Definition sys_unblocked_started : System :=
  mkSystem (state_of (ThreadStart 2 (ctx_of 7 7 300) st_unblocked_in_syscall))
    (<[2 := Live (PIN_SetContextReg (ctx_of 7 7 300) executorReg 0)]>
       (ctl sys_unblocked_in_syscall)).

(** A trace of two basic blocks whose third instruction is a system call,
    and a tool that declares a switchpoint before the second and before the
    fourth instruction. *)
Definition example_IsSyscall (ins : INS) : bool := bool_decide (ins = 2).

Definition example_traceCallback (trace : TRACE) (pt : TraceInfo) : TraceInfo :=
  mkTraceInfo (firstIns pt) (skipLeadingSwitchCall pt)
    [(1, IPOINT_BEFORE); (3, IPOINT_BEFORE)].

Definition example_trace : TRACE := [[0; 1]; [2; 3]].

Definition example_calls : list InsertedCall :=
  match Trace example_IsSyscall example_traceCallback example_trace with
  | Instrumented calls => calls
  | _ => []
  end.

(** * Proofs *)

(** ** Arrays *)

Section Arrays.
Context {A : Type}.
Implicit Types (a : list A) (i j : N) (v : A).

Lemma aget_Some_lt a i v : aget a i = Some v -> i < MAX_THREADS.
Proof. unfold aget. by case_decide. Qed.

Lemma aget_lookup a i v : aget a i = Some v -> a !! N.to_nat i = Some v.
Proof. unfold aget. by case_decide. Qed.

Lemma aget_is_Some a i :
  length a = N.to_nat MAX_THREADS -> i < MAX_THREADS -> is_Some (aget a i).
Proof.
  intros Hlen Hi. unfold aget. rewrite decide_True by done.
  apply lookup_lt_is_Some. lia.
Qed.

Lemma length_aset a i v : length (aset a i v) = length a.
Proof. apply length_insert. Qed.

Lemma aget_aset_eq a i v : is_Some (aget a i) -> aget (aset a i v) i = Some v.
Proof.
  unfold aget, aset. case_decide; intros [x Hx]; [|done].
  apply list_lookup_insert_eq. by eapply lookup_lt_Some.
Qed.

Lemma aget_aset_ne a i j v : i <> j -> aget (aset a i v) j = aget a j.
Proof.
  intros Hne. unfold aget, aset. case_decide; [|done].
  apply list_lookup_insert_ne. lia.
Qed.

Lemma aset_same a i v : aget a i = Some v -> aset a i v = a.
Proof. intros H. apply list_insert_id. by apply aget_lookup. Qed.

Lemma aset_aset a i v v' : aset (aset a i v) i v' = aset a i v'.
Proof. apply list_insert_insert_eq. Qed.

End Arrays.

(** ** Counting *)

Lemma countCaptured_insert l (i : nat) x y :
  l !! i = Some x ->
  countCaptured (<[i := y]> l) + b2N (captured x)
  = countCaptured l + b2N (captured y).
Proof.
  revert i. induction l as [|z l IH]; intros [|i] H; simplify_eq/=.
  - lia.
  - specialize (IH _ H). lia.
Qed.

Lemma countCaptured_aset l i x y :
  aget l i = Some x ->
  countCaptured (aset l i y) + b2N (captured x)
  = countCaptured l + b2N (captured y).
Proof. intros H. apply countCaptured_insert. by apply aget_lookup. Qed.

Lemma countCaptured_le_length l : countCaptured l <= N.of_nat (length l).
Proof. induction l as [|x l IH]; simpl; [lia|]. destruct (captured x); simpl; lia. Qed.

Lemma countCaptured_replicate_UNCAPTURED n :
  countCaptured (replicate n UNCAPTURED) = 0.
Proof. induction n as [|n IH]; simpl; [done|]. by rewrite IH. Qed.

Lemma countCaptured_pos l i x :
  aget l i = Some x -> captured x = true -> 1 <= countCaptured l.
Proof.
  intros H Hc. apply aget_lookup in H. revert H. generalize (N.to_nat i).
  induction l as [|z l IH]; intros [|n] H; simplify_eq/=.
  - rewrite Hc. simpl. lia.
  - specialize (IH _ H). lia.
Qed.

(** Two distinct captured threads. *)
Lemma countCaptured_two l i j x y :
  i <> j -> aget l i = Some x -> aget l j = Some y ->
  captured x = true -> captured y = true -> 2 <= countCaptured l.
Proof.
  intros Hne Hi Hj Hx Hy.
  pose proof (countCaptured_aset l i x UNCAPTURED Hi) as H1.
  assert (aget (aset l i UNCAPTURED) j = Some y) as Hj'
    by (by rewrite aget_aset_ne).
  pose proof (countCaptured_pos _ _ _ Hj' Hy) as H2.
  rewrite Hx in H1. simpl in H1. lia.
Qed.

(** ** Running the monad *)

Lemma bind_Ok {A B} (m : M A) (k : A -> M B) s b s' :
  bind m k s = Ok b s' <-> exists a s1, m s = Ok a s1 /\ k a s1 = Ok b s'.
Proof.
  unfold bind. split.
  - destruct (m s) as [a s1| |]; [eauto | done | done].
  - intros (a & s1 & -> & H). done.
Qed.

Lemma ret_Ok {A} (a b : A) s s' : ret a s = Ok b s' <-> b = a /\ s' = s.
Proof. unfold ret. split; [by intros [= -> ->] | by intros [-> ->]]. Qed.

Lemma gets_Ok {A} (f : State -> A) s a s' :
  gets f s = Ok a s' <-> a = f s /\ s' = s.
Proof. unfold gets. split; [by intros [= <- <-] | by intros [-> ->]]. Qed.

Lemma modify_Ok f s u s' : modify f s = Ok u s' <-> s' = f s.
Proof. unfold modify. destruct u. split; [by intros [= <-] | by intros ->]. Qed.

Lemma assert_Ok line P `{Decision P} s u s' :
  assert_ line P s = Ok u s' <-> P /\ s' = s.
Proof.
  unfold assert_. destruct u. case_decide; split; try done.
  - by intros [= <-].
  - by intros [_ ->].
  - by intros [? _].
Qed.

Lemma call_hook_Ok h s u s' :
  call_hook h s = Ok u s' <-> s' = set_hookLog (hookLog s ++ [h]) s.
Proof. unfold call_hook. by rewrite modify_Ok. Qed.

Lemma threadStates_at_Ok tid s x s' :
  threadStates_at tid s = Ok x s' <->
  aget (threadStates s) tid = Some x /\ s' = s.
Proof.
  unfold threadStates_at. destruct (aget _ _); split; try done.
  - by intros [= -> ->].
  - by intros [[= ->] ->].
  - by intros [? _].
Qed.

Lemma threadStates_put_Ok tid v s u s' :
  threadStates_put tid v s = Ok u s' <->
  tid < MAX_THREADS /\ s' = set_threadStates (aset (threadStates s) tid v) s.
Proof.
  unfold threadStates_put. destruct u. case_decide; split; try done.
  - by intros [= <-].
  - by intros [_ ->].
  - by intros [? _].
Qed.

Lemma contexts_at_Ok tid s x s' :
  contexts_at tid s = Ok x s' <-> aget (contexts s) tid = Some x /\ s' = s.
Proof.
  unfold contexts_at. destruct (aget _ _); split; try done.
  - by intros [= -> ->].
  - by intros [[= ->] ->].
  - by intros [? _].
Qed.

Lemma PIN_SaveContext_Ok c tid s u s' :
  PIN_SaveContext c tid s = Ok u s' <->
  tid < MAX_THREADS /\ s' = set_contexts (aset (contexts s) tid c) s.
Proof.
  unfold PIN_SaveContext. destruct u. case_decide; split; try done.
  - by intros [= <-].
  - by intros [_ ->].
  - by intros [? _].
Qed.

Lemma waitLocks_unlock_Ok tid s u s' :
  waitLocks_unlock tid s = Ok u s' <->
  tid < MAX_THREADS /\ s' = set_waitLocks (aset (waitLocks s) tid false) s.
Proof.
  unfold waitLocks_unlock. destruct u. case_decide; split; try done.
  - by intros [= <-].
  - by intros [_ ->].
  - by intros [? _].
Qed.

Lemma contexts_SetContextReg_Ok tid r v s u s' :
  contexts_SetContextReg tid r v s = Ok u s' <->
  exists c, aget (contexts s) tid = Some c /\
    s' = set_contexts (aset (contexts s) tid (PIN_SetContextReg c r v)) s.
Proof.
  unfold contexts_SetContextReg. rewrite bind_Ok. split.
  - intros (c & s1 & [Hc ->]%contexts_at_Ok & [_ ->]%PIN_SaveContext_Ok). eauto.
  - intros (c & Hc & ->). exists c, s. split; [by apply contexts_at_Ok|].
    apply PIN_SaveContext_Ok. split; [by eapply aget_Some_lt | done].
Qed.

Lemma PIN_ExecuteAt_Ok tid s k s' :
  PIN_ExecuteAt tid s = Ok k s' <->
  exists c, aget (contexts s) tid = Some c /\ k = ExecuteAt c /\ s' = s.
Proof.
  unfold PIN_ExecuteAt. rewrite bind_Ok. split.
  - intros (c & s1 & [Hc ->]%contexts_at_Ok & [-> ->]%ret_Ok). eauto.
  - intros (c & Hc & -> & ->). exists c, s. split; [by apply contexts_at_Ok | done].
Qed.

(** Simplification of the fields of an updated state. *)
Ltac fields :=
  cbn [contexts threadStates waitLocks executorTid curTid capturedThreads
       executorInSyscall blockAfterSwitchcall hookLog
       set_contexts set_threadStates set_waitLocks set_executorTid set_curTid
       set_capturedThreads set_executorInSyscall set_blockAfterSwitchcall
       set_hookLog] in *.

(** Inversion of a run that ended in [Ok]: every test on the way is turned
    into a hypothesis and every intermediate state into a term over the
    initial one. *)
Ltac minv1 :=
  match goal with
  | H : bind _ _ _ = Ok _ _ |- _ =>
      apply bind_Ok in H; destruct H as (? & ? & ? & H)
  | H : ret _ _ = Ok _ _ |- _ => apply ret_Ok in H; destruct H as [-> ->]
  | H : gets _ _ = Ok _ _ |- _ => apply gets_Ok in H; destruct H as [-> ->]
  | H : modify _ _ = Ok _ _ |- _ => apply modify_Ok in H; rewrite H in *; clear H
  | H : call_hook _ _ = Ok _ _ |- _ =>
      apply call_hook_Ok in H; rewrite H in *; clear H
  | H : assert_ _ _ _ = Ok _ _ |- _ =>
      apply assert_Ok in H; destruct H as [? ->]
  | H : panic _ _ = Ok _ _ |- _ => discriminate H
  | H : threadStates_at _ _ = Ok _ _ |- _ =>
      apply threadStates_at_Ok in H; destruct H as [? ->]
  | H : threadStates_put _ _ _ = Ok _ _ |- _ =>
      apply threadStates_put_Ok in H; destruct H as [? ->]
  | H : contexts_at _ _ = Ok _ _ |- _ =>
      apply contexts_at_Ok in H; destruct H as [? ->]
  | H : PIN_SaveContext _ _ _ = Ok _ _ |- _ =>
      apply PIN_SaveContext_Ok in H; destruct H as [? ->]
  | H : waitLocks_unlock _ _ = Ok _ _ |- _ =>
      apply waitLocks_unlock_Ok in H; destruct H as [? ->]
  | H : contexts_SetContextReg _ _ _ _ = Ok _ _ |- _ =>
      apply contexts_SetContextReg_Ok in H; destruct H as (? & ? & ->)
  | H : PIN_ExecuteAt _ _ = Ok _ _ |- _ =>
      apply PIN_ExecuteAt_Ok in H; destruct H as (? & ? & -> & ->)
  | H : (if decide ?P then _ else _) _ = Ok _ _ |- _ => destruct (decide P)
  | H : (if negb ?b then _ else _) _ = Ok _ _ |- _ =>
      destruct b eqn:?; cbn [negb] in H
  | H : when ?b _ _ = Ok _ _ |- _ => destruct b eqn:?; cbn [when] in H
  end.

Ltac minv0 := repeat (minv1; fields).

(** ** Arithmetic of the counters *)

Lemma u32_small n : n < 2 ^ 32 -> u32 n = n.
Proof. intros. unfold u32. by apply N.mod_small. Qed.

Lemma u32_lt n : u32 n < 2 ^ 32.
Proof. unfold u32. by apply N.mod_lt. Qed.

Lemma u32_incr_small n : n + 1 < 2 ^ 32 -> u32_incr n = n + 1.
Proof. intros. unfold u32_incr. by apply N.mod_small. Qed.

Lemma u32_decr_small n : 1 <= n -> n < 2 ^ 32 -> u32_decr n = n - 1.
Proof.
  intros H1 H2. unfold u32_decr.
  replace (n + (2 ^ 32 - 1)) with ((n - 1) + 1 * 2 ^ 32) by lia.
  rewrite N.Div0.mod_add. apply N.mod_small. lia.
Qed.

Lemma u32_incr_two n : n < 2 ^ 32 -> u32_incr n = 2 -> n = 1.
Proof.
  unfold u32_incr. intros Hn H.
  destruct (decide (n + 1 = 2 ^ 32)) as [Heq | Hne].
  - rewrite Heq, N.Div0.mod_same in H. done.
  - rewrite N.mod_small in H by lia. lia.
Qed.

Lemma u32_incr_lt n : u32_incr n < 2 ^ 32.
Proof. unfold u32_incr. by apply N.mod_lt. Qed.

Lemma u32_decr_lt n : u32_decr n < 2 ^ 32.
Proof. unfold u32_decr. by apply N.mod_lt. Qed.

Lemma MAX_THREADS_u32 n : n < MAX_THREADS -> n < 2 ^ 32.
Proof. unfold MAX_THREADS. lia. Qed.

Lemma MAX_THREADS_NO_TID n : n < MAX_THREADS -> n <> NO_TID.
Proof. unfold MAX_THREADS, NO_TID. lia. Qed.

Lemma countCaptured_bound s :
  wf_State s -> countCaptured (threadStates s) <= MAX_THREADS.
Proof.
  intros Hwf. pose proof (countCaptured_le_length (threadStates s)) as H.
  rewrite (wf_threadStates _ Hwf) in H. lia.
Qed.

(** ** [UncaptureAndSwitch] *)

Lemma UncaptureAndSwitch_Ok cb s u s' :
  UncaptureAndSwitch cb s = Ok u s' ->
  exists c,
    aget (contexts s) (curTid s) = Some c /\
    aget (threadStates s) (cb (curTid s) c) = Some IDLE /\
    aget (threadStates s) (curTid s) = Some RUNNING /\
    s' = uncaptured_and_switched s c (cb (curTid s) c).
Proof.
  unfold UncaptureAndSwitch. intros H. minv0.
  match goal with H : ~ _ <> IDLE |- _ => apply dec_stable in H; subst end.
  eexists; repeat split; try eassumption.
  rewrite u32_small by (apply MAX_THREADS_u32; lia). done.
Qed.

(** The two threads that [UncaptureAndSwitch] touches are distinct. *)
Lemma aget_distinct {A} (a : list A) i j x y :
  aget a i = Some x -> aget a j = Some y -> x <> y -> i <> j.
Proof. congruence. Qed.

Lemma uncaptured_and_switched_inv s c next :
  inv s ->
  aget (threadStates s) next = Some IDLE ->
  aget (threadStates s) (curTid s) = Some RUNNING ->
  inv (uncaptured_and_switched s c next) /\
  2 <= capturedThreads s /\
  capturedThreads (uncaptured_and_switched s c next) = capturedThreads s - 1.
Proof.
  intros [Hwf Hcnt Hcur] Hnext Hrun.
  assert (curTid s <> next) as Hne by (by eapply aget_distinct).
  pose proof (countCaptured_two _ _ _ _ _ Hne Hrun Hnext eq_refl eq_refl) as H2.
  pose proof (countCaptured_bound s Hwf) as Hb.
  pose proof (countCaptured_aset _ _ _ UNCAPTURED Hrun) as E1.
  assert (aget (aset (threadStates s) (curTid s) UNCAPTURED) next = Some IDLE)
    as Hnext' by (by rewrite aget_aset_ne).
  pose proof (countCaptured_aset _ _ _ RUNNING Hnext') as E2.
  simpl in E1, E2.
  assert (u32_decr (capturedThreads s) = capturedThreads s - 1) as Hdec.
  { apply u32_decr_small; [lia | by destruct Hwf]. }
  split; [|split; [lia | done]].
  destruct Hwf. split; [split|..]; unfold uncaptured_and_switched; fields;
    rewrite ?length_aset; try done.
  - apply MAX_THREADS_u32. by eapply aget_Some_lt.
  - apply u32_decr_lt.
  - rewrite Hdec. lia.
  - right. apply aget_aset_eq. rewrite Hnext'. eauto.
Qed.

(** ** Leaving a guard *)

(** The three lines that end every guard: set [executorReg] and
    [switchReg] in [contexts[i]], then [PIN_ExecuteAt] it. *)
Lemma resume_Ok i er sw s k s' :
  (contexts_SetContextReg i executorReg er ;;
   contexts_SetContextReg i switchReg sw ;;
   PIN_ExecuteAt i) s = Ok k s' <->
  exists c, aget (contexts s) i = Some c /\
    k = ExecuteAt (resumed c er sw) /\
    s' = set_contexts (aset (contexts s) i (resumed c er sw)) s.
Proof.
  split.
  - intros H. minv0.
    match goal with
    | H1 : aget (contexts s) i = Some ?c,
      H2 : aget (aset (contexts s) i ?c1) i = Some ?c2,
      H3 : aget (aset (aset (contexts s) i ?c1) i ?c3) i = Some ?c4 |- _ =>
        rewrite aget_aset_eq in H2 by (rewrite H1; eauto);
        rewrite aset_aset in H3 |- *;
        rewrite aget_aset_eq in H3 by (rewrite H1; eauto);
        simplify_eq; exists c
    end.
    done.
  - intros (c & Hc & -> & ->).
    assert (is_Some (aget (contexts s) i)) as Hs by eauto.
    unfold bind, contexts_SetContextReg, bind, contexts_at, PIN_SaveContext,
      PIN_ExecuteAt, bind, contexts_at, ret.
    rewrite Hc. rewrite decide_True by (by eapply aget_Some_lt). fields.
    rewrite aget_aset_eq by done.
    rewrite decide_True by (by eapply aget_Some_lt). fields.
    rewrite aset_aset, aget_aset_eq by done. done.
Qed.

(** Inversion that also knows the end of a guard and the helper. *)
Ltac minv2 :=
  match goal with
  | H : bind (contexts_SetContextReg ?i executorReg _)
          (fun _ => bind (contexts_SetContextReg ?i switchReg _)
                      (fun _ => PIN_ExecuteAt ?i)) _ = Ok _ _ |- _ =>
      apply resume_Ok in H; destruct H as (? & ? & -> & ->)
  | H : UncaptureAndSwitch _ _ = Ok _ _ |- _ =>
      apply UncaptureAndSwitch_Ok in H; destruct H as (? & ? & ? & ? & ->);
      unfold uncaptured_and_switched in *
  | _ => minv1
  end.

Ltac minv := repeat (minv2; fields).

(** ** The lifecycle callbacks *)

Lemma ThreadStart_Ok tid ctxt s c s' :
  ThreadStart tid ctxt s = Ok c s' <->
  aget (threadStates s) tid = Some UNCAPTURED /\
  c = PIN_SetContextReg ctxt executorReg 0 /\
  s' = set_hookLog (hookLog s ++ [CallThreadStart tid]) s.
Proof.
  unfold ThreadStart. split.
  - intros H. minv. by subst.
  - intros (Hst & -> & ->).
    unfold bind, call_hook, modify, threadStates_at, assert_, ret. fields.
    rewrite Hst. by rewrite decide_True.
Qed.

Lemma ThreadFini_Ok tid s u s' :
  ThreadFini tid s = Ok u s' <->
  ((aget (threadStates s) tid = Some RUNNING /\ capturedThreads s = 1) \/
   aget (threadStates s) tid = Some UNCAPTURED) /\
  s' = set_hookLog (hookLog s ++ [CallThreadEnd tid]) s.
Proof.
  unfold ThreadFini. split.
  - intros H. minv; subst; auto.
  - destruct u. intros (Hst & ->).
    unfold bind, call_hook, modify, threadStates_at, assert_, gets.
    destruct Hst as [[Hst Hn] | Hst]; rewrite Hst.
    + rewrite decide_True by done. by rewrite decide_True.
    + rewrite decide_False by done. by rewrite decide_True.
Qed.

(** ** The blocks of [TraceGuard] *)

Lemma TraceGuard_capture_Ok tid s u s' :
  TraceGuard_capture tid s = Ok u s' <->
  aget (threadStates s) tid = Some UNCAPTURED /\
  (capturedThreads s = 0 -> curTid s = NO_TID) /\
  s' = capture_result s tid.
Proof.
  unfold TraceGuard_capture, capture_result. split.
  - intros H. minv; subst.
    + rewrite aset_aset. done.
    + split; [done|]. split; [|done].
      intros Hn. by rewrite bool_decide_eq_false in *.
  - destruct u. intros (Hst & Hcur & ->).
    unfold bind, call_hook, modify, threadStates_at, threadStates_put,
      assert_, gets, when, ret. fields.
    rewrite Hst. rewrite decide_True by done.
    rewrite decide_True by (by eapply aget_Some_lt). fields.
    case_bool_decide as Hn; [|done].
    rewrite decide_True by (by eapply aget_Some_lt). fields.
    rewrite decide_True by auto. by rewrite aset_aset.
Qed.

Lemma TraceGuard_delayed_uncapture_Ok cb s u s' :
  TraceGuard_delayed_uncapture cb s = Ok u s' ->
  (executorInSyscall s = false /\ s' = s) \/
  (executorInSyscall s = true /\ curTid s = executorTid s /\
   capturedThreads s = 2 /\
   exists c, aget (contexts s) (curTid s) = Some c /\
     aget (threadStates s) (cb (curTid s) c) = Some IDLE /\
     aget (threadStates s) (curTid s) = Some RUNNING /\
     s' = delayed_uncapture_result s c (cb (curTid s) c)).
Proof.
  unfold TraceGuard_delayed_uncapture. intros H. minv; [|by left].
  right. repeat split; try done. eexists. repeat split; try eassumption.
Qed.

Lemma TraceGuard_become_executor_Ok tid s k s' :
  TraceGuard_become_executor tid s = Ok k s' <->
  executorTid s = NO_TID /\
  exists c, aget (contexts s) (curTid s) = Some c /\
    k = ExecuteAt (resumed c 1 (curTid s)) /\
    s' = became_executor s tid c.
Proof.
  unfold TraceGuard_become_executor. split.
  - intros H. minv. eauto.
  - intros (He & c & Hc & -> & ->).
    pose proof (proj2 (resume_Ok (curTid s) 1 (curTid s) (set_executorTid tid s)
      (ExecuteAt (resumed c 1 (curTid s))) (became_executor s tid c))) as Hr.
    unfold bind, gets, assert_, modify in *. fields.
    rewrite decide_True by done.
    rewrite decide_True by (by eapply aget_Some_lt).
    apply Hr. eauto.
Qed.

Lemma TraceGuard_loop_Ok tid s k s' :
  TraceGuard_loop tid s = Ok k s' <->
  (executorTid s <> NO_TID /\ k = Parked /\ s' = s) \/
  (executorTid s = NO_TID /\
   exists c, aget (contexts s) (curTid s) = Some c /\
     k = ExecuteAt (resumed c 1 (curTid s)) /\
     s' = became_executor s tid c).
Proof.
  unfold TraceGuard_loop, bind, gets, ret. case_decide as He.
  - split; [intros [= <- <-]; by left | intros [(_ & -> & ->) | [? _]]; done].
  - rewrite TraceGuard_become_executor_Ok.
    split; [by right | intros [[? _] | ?]; done].
Qed.

Lemma TraceGuard_wakeup_Ok tid s k s' :
  TraceGuard_wakeup tid s = Ok k s' ->
  (aget (threadStates s) tid = Some UNCAPTURED /\
   exists c, aget (contexts s) tid = Some c /\
     k = ExecuteAt (resumed c 0 ADDRINT_MINUS_ONE) /\
     s' = took_syscall s tid c) \/
  (is_Some (aget (threadStates s) tid) /\
   aget (threadStates s) tid <> Some UNCAPTURED /\
   TraceGuard_loop tid s = Ok k s').
Proof.
  unfold TraceGuard_wakeup. intros H.
  apply bind_Ok in H as (st & s1 & [Hst ->]%threadStates_at_Ok & H).
  destruct (decide (st = UNCAPTURED)) as [-> | Hne].
  - left. minv. eauto.
  - right. split; [eauto|]. split; [congruence|].
    apply bind_Ok in H as (e & s1 & [-> ->]%gets_Ok & H).
    destruct (decide (executorTid s = NO_TID)) as [He | He]; [|done].
    apply TraceGuard_loop_Ok. right.
    by apply TraceGuard_become_executor_Ok in H.
Qed.

Lemma aget_aset_Some {A} (a : list A) i v x :
  aget (aset a i v) i = Some x -> x = v /\ is_Some (aget a i).
Proof.
  unfold aget, aset. case_decide; [|done]. intros Hx.
  pose proof (lookup_lt_Some _ _ _ Hx) as Hlt. rewrite length_insert in Hlt.
  rewrite list_lookup_insert_eq in Hx by done. split; [congruence|].
  by apply lookup_lt_is_Some.
Qed.

(** Forward execution, one primitive at a time. *)

Lemma bind_step {A B} (m : M A) (k : A -> M B) s a s1 :
  m s = Ok a s1 -> bind m k s = k a s1.
Proof. unfold bind. by intros ->. Qed.

Lemma bind_Fatal {A B} (m : M A) (k : A -> M B) s d :
  m s = Fatal d -> bind m k s = Fatal d.
Proof. unfold bind. by intros ->. Qed.

Lemma assert_True line P `{Decision P} s : P -> assert_ line P s = Ok tt s.
Proof. intros. unfold assert_. by rewrite decide_True. Qed.

Lemma assert_False line P `{Decision P} s :
  ~ P -> assert_ line P s = Fatal (AssertFailed line).
Proof. intros. unfold assert_. by rewrite decide_False. Qed.

Lemma threadStates_at_fwd tid s x :
  aget (threadStates s) tid = Some x -> threadStates_at tid s = Ok x s.
Proof. intros. by apply threadStates_at_Ok. Qed.

Lemma threadStates_put_fwd tid v s :
  tid < MAX_THREADS ->
  threadStates_put tid v s
  = Ok tt (set_threadStates (aset (threadStates s) tid v) s).
Proof. intros. by apply threadStates_put_Ok. Qed.

Lemma contexts_at_fwd tid s x :
  aget (contexts s) tid = Some x -> contexts_at tid s = Ok x s.
Proof. intros. by apply contexts_at_Ok. Qed.

Lemma PIN_SaveContext_fwd c tid s :
  tid < MAX_THREADS ->
  PIN_SaveContext c tid s = Ok tt (set_contexts (aset (contexts s) tid c) s).
Proof. intros. by apply PIN_SaveContext_Ok. Qed.

Lemma waitLocks_unlock_fwd tid s :
  tid < MAX_THREADS ->
  waitLocks_unlock tid s
  = Ok tt (set_waitLocks (aset (waitLocks s) tid false) s).
Proof. intros. by apply waitLocks_unlock_Ok. Qed.

Lemma resume_fwd i er sw s c :
  aget (contexts s) i = Some c ->
  (contexts_SetContextReg i executorReg er ;;
   contexts_SetContextReg i switchReg sw ;;
   PIN_ExecuteAt i) s
  = Ok (ExecuteAt (resumed c er sw))
       (set_contexts (aset (contexts s) i (resumed c er sw)) s).
Proof. intros. apply resume_Ok. eauto. Qed.

Lemma contexts_SetContextReg_fwd tid r v s c :
  aget (contexts s) tid = Some c ->
  contexts_SetContextReg tid r v s
  = Ok tt (set_contexts (aset (contexts s) tid (PIN_SetContextReg c r v)) s).
Proof. intros. apply contexts_SetContextReg_Ok. eauto. Qed.

Lemma PIN_ExecuteAt_fwd tid s c :
  aget (contexts s) tid = Some c -> PIN_ExecuteAt tid s = Ok (ExecuteAt c) s.
Proof. intros. apply PIN_ExecuteAt_Ok. eauto. Qed.

Lemma aget_aset_is_Some {A} (a : list A) i j v :
  is_Some (aget a j) -> is_Some (aget (aset a i v) j).
Proof.
  intros Hs. destruct (decide (i = j)) as [->|Hne].
  - rewrite aget_aset_eq by done. eauto.
  - by rewrite aget_aset_ne.
Qed.

(** Reading an array that has been written to. *)
Ltac aget_is_Some :=
  repeat apply aget_aset_is_Some;
  first [ eassumption | eapply mk_is_Some; eassumption ].

Ltac fields_goal :=
  cbn [contexts threadStates waitLocks executorTid curTid capturedThreads
       executorInSyscall blockAfterSwitchcall hookLog
       set_contexts set_threadStates set_waitLocks set_executorTid set_curTid
       set_capturedThreads set_executorInSyscall set_blockAfterSwitchcall
       set_hookLog].

Ltac aget_solve :=
  fields_goal;
  solve [ repeat first
    [ eassumption
    | reflexivity
    | rewrite aget_aset_eq by aget_is_Some
    | rewrite aget_aset_ne by (done || lia || congruence) ] ].

Ltac side :=
  fields_goal;
  first [ done | lia | by intros [] | by intros [_ ?] | by eapply aget_Some_lt
        | aget_solve | aget_is_Some | eauto; fail ].

(** [mstep] runs the first primitive of the goal's computation. *)
Ltac mprim :=
  first
  [ reflexivity
  | apply assert_True; side
  | apply threadStates_at_fwd; aget_solve
  | apply threadStates_put_fwd; side
  | apply contexts_at_fwd; aget_solve
  | apply PIN_SaveContext_fwd; side
  | apply waitLocks_unlock_fwd; side
  | eapply contexts_SetContextReg_fwd; aget_solve
  | eapply PIN_ExecuteAt_fwd; aget_solve ].

Lemma bind_assoc {A B C} (m : M A) (k : A -> M B) (k' : B -> M C) s :
  bind (bind m k) k' s = bind m (fun a => bind (k a) k') s.
Proof. unfold bind. by destruct (m s). Qed.

Ltac mstep :=
  lazymatch goal with
  | |- bind (if decide ?P then _ else _) _ _ = _ =>
      first [ rewrite (decide_True (P:=P)) by side
            | rewrite (decide_False (P:=P)) by side ]
  | |- (if decide ?P then _ else _) _ = _ =>
      first [ rewrite (decide_True (P:=P)) by side
            | rewrite (decide_False (P:=P)) by side ]
  | |- bind (bind _ _) _ _ = _ => rewrite bind_assoc
  | |- bind (contexts_SetContextReg ?i executorReg _)
         (fun _ => bind (contexts_SetContextReg ?i switchReg _)
                     (fun _ => PIN_ExecuteAt ?i)) _ = _ =>
      erewrite resume_fwd by aget_solve
  | |- bind _ _ _ = _ => erewrite bind_step; [|mprim]; cbv beta; fields
  end.

(** Equality of two states, field by field. *)
Lemma State_eq (s1 s2 : State) :
  contexts s1 = contexts s2 ->
  threadStates s1 = threadStates s2 ->
  waitLocks s1 = waitLocks s2 ->
  executorTid s1 = executorTid s2 ->
  curTid s1 = curTid s2 ->
  capturedThreads s1 = capturedThreads s2 ->
  executorInSyscall s1 = executorInSyscall s2 ->
  blockAfterSwitchcall s1 = blockAfterSwitchcall s2 ->
  hookLog s1 = hookLog s2 ->
  s1 = s2.
Proof. destruct s1, s2; simpl; intros; by subst. Qed.

Ltac state_eq := apply State_eq; fields; (reflexivity || congruence).

(** ** [SwitchHandler] *)

Lemma SwitchHandler_Ok tid ctxt s k s' :
  SwitchHandler tid ctxt s = Ok k s' <->
  let next := u32 (PIN_GetContextReg ctxt switchReg) in
  PIN_GetContextReg ctxt executorReg = 1 /\
  executorTid s = tid /\
  next <> curTid s /\
  aget (threadStates s) next = Some IDLE /\
  aget (threadStates s) (curTid s) = Some RUNNING /\
  is_Some (aget (contexts s) (curTid s)) /\
  exists c', aget (contexts s) next = Some c' /\
    k = ExecuteAt (resumed c' 1 next) /\
    s' = switched s ctxt c'.
Proof.
  cbv zeta. split.
  - unfold SwitchHandler. intros H. minv.
    all: repeat match goal with
      | H : ~ _ <> _ |- _ => apply dec_stable in H
      | H : aget (aset _ ?i _) ?i = Some _ |- _ =>
          apply aget_aset_Some in H; destruct H as [? ?]
      | H : aget (aset _ ?i _) ?j = Some _, Hn : ?j <> ?i |- _ =>
          rewrite aget_aset_ne in H by done
    end; subst.
    all: repeat split; try done.
    all: eexists; split; [eassumption|]; split; [done|].
    all: rewrite !aset_aset; unfold switched;
      match goal with H : blockAfterSwitchcall _ = _ |- _ => rewrite H end;
      state_eq.
  - intros (Her & He & Hne & Hnext & Hcur & [c0 Hc0] & c' & Hc' & -> & ->).
    pose proof (aget_Some_lt _ _ _ Hnext) as Hlt.
    pose proof (aget_Some_lt _ _ _ Hcur) as Hlt'.
    unfold SwitchHandler.
    repeat mstep.
    destruct (blockAfterSwitchcall s) eqn:Hb; cbn [negb].
    all: repeat mstep.
    all: f_equal; unfold switched; rewrite Hb; apply State_eq; fields;
      rewrite ?aset_aset, ?Hb; reflexivity.
Qed.

(** ** [SyscallGuard] *)

Ltac aget_norm :=
  repeat match goal with
  | H : ~ _ <> _ |- _ => apply dec_stable in H
  | H : aget (aset _ ?i _) ?i = Some _ |- _ =>
      apply aget_aset_Some in H; destruct H as [? ?]
  | H : aget (aset _ ?i _) ?j = Some _, Hn : ?j <> ?i |- _ =>
      rewrite aget_aset_ne in H by done
  | H : aget (aset _ ?i _) ?j = Some _, Hn : ?i <> ?j |- _ =>
      rewrite aget_aset_ne in H by done
  end; subst.

Lemma SyscallGuard_Ok cb tid ctxt s k s' :
  SyscallGuard cb tid ctxt s = Ok k s' ->
  executorTid s = tid /\
  is_Some (aget (contexts s) (curTid s)) /\
  let next := cb (curTid s) ctxt in
  ((curTid s <> tid /\ 2 <= capturedThreads s /\
    aget (threadStates s) next = Some IDLE /\
    aget (threadStates s) (curTid s) = Some RUNNING /\
    exists c', aget (contexts s) next = Some c' /\
      k = ExecuteAt (resumed c' 1 next) /\
      s' = syscall_shipped s ctxt c' next) \/
   (curTid s = tid /\ 2 <= capturedThreads s /\
    aget (threadStates s) next = Some IDLE /\
    aget (threadStates s) (curTid s) = Some RUNNING /\
    k = ExecuteAt (resumed ctxt 0 ADDRINT_MINUS_ONE) /\
    s' = syscall_handed_over s ctxt next) \/
   (curTid s = tid /\ capturedThreads s < 2 /\
    executorInSyscall s = false /\
    k = ExecuteAt (resumed ctxt 0 ADDRINT_MINUS_ONE) /\
    s' = syscall_deferred s ctxt)).
Proof.
  cbv zeta. unfold SyscallGuard. intros H.
  apply bind_Ok in H as (e & s1 & [-> ->]%gets_Ok & H).
  apply bind_Ok in H as (? & s1 & [He ->]%assert_Ok & H).
  apply bind_Ok in H as (cur & s1 & [-> ->]%gets_Ok & H).
  apply bind_Ok in H as (? & s1 & [Hlt ->]%PIN_SaveContext_Ok & H).
  split; [done|].
  destruct (decide (curTid s <> tid)) as [Hne | Heq%dec_stable].
  - minv. aget_norm. split; [done|]. left.
    assert (curTid s <> cb (curTid s) ctxt) by (by eapply aget_distinct).
    aget_norm. repeat split; try done.
    eexists. split; [eassumption|]. split; [done|].
    unfold syscall_shipped. state_eq.
  - subst tid. rewrite <- Heq in H. minv; aget_norm; (split; [done|]).
    + right; left. repeat split; try done.
      unfold syscall_handed_over.
      apply State_eq; fields; rewrite ?aset_aset; reflexivity.
    + right; right. repeat split; try done; [lia|].
      unfold syscall_deferred.
      apply State_eq; fields; rewrite ?aset_aset; reflexivity.
Qed.

(** ** [TraceGuard] *)

Lemma TraceGuard_Ok cb tid ctxt s k s' :
  TraceGuard cb tid ctxt s = Ok k s' ->
  PIN_GetContextReg ctxt executorReg = 0 /\
  ((aget (threadStates s) tid = Some RUNNING /\
    executorTid s = tid /\ curTid s = tid /\ capturedThreads s = 1 /\
    k = ExecuteAt (resumed ctxt 1 tid) /\
    s' = trace_resumed s tid ctxt) \/
   (aget (threadStates s) tid = Some UNCAPTURED /\
    (capturedThreads s = 0 -> curTid s = NO_TID) /\
    exists s2,
      TraceGuard_delayed_uncapture cb
        (capture_result (set_contexts (aset (contexts s) tid ctxt) s) tid)
      = Ok tt s2 /\
      TraceGuard_loop tid s2 = Ok k s')).
Proof.
  unfold TraceGuard. intros H.
  apply bind_Ok in H as (? & s1 & [Her ->]%assert_Ok & H).
  apply bind_Ok in H as (? & s1 & [Hlt ->]%PIN_SaveContext_Ok & H).
  apply bind_Ok in H as (st & s1 & [Hst ->]%threadStates_at_Ok & H).
  fields. split; [done|].
  destruct (decide (st = RUNNING)) as [-> | Hnr].
  - left. minv.
    repeat match goal with
    | H : _ = tid |- _ => rewrite H in *; clear H
    end.
    aget_norm. repeat split; try done.
    unfold trace_resumed.
    apply State_eq; fields; rewrite ?aset_aset; reflexivity.
  - right.
    apply bind_Ok in H as ([] & s1 & (? & ? & ->)%TraceGuard_capture_Ok & Hk).
    apply bind_Ok in Hk as ([] & s2 & Hd & Hk).
    fields. eauto.
Qed.

(** ** The suspend / resume interface *)

Lemma blockAfterSwitch_Ok s u s' :
  blockAfterSwitch s = Ok u s' <->
  blockAfterSwitchcall s = false /\ s' = set_blockAfterSwitchcall true s.
Proof.
  unfold blockAfterSwitch. split.
  - intros H. by minv.
  - destruct u. intros [Hb ->]. repeat mstep. reflexivity.
Qed.

Lemma blockIdleThread_Ok tid s u s' :
  blockIdleThread tid s = Ok u s' <->
  aget (threadStates s) tid = Some IDLE /\ 1 < capturedThreads s /\
  s' = blocked_idle s tid.
Proof.
  unfold blockIdleThread. split.
  - intros H. minv. by subst.
  - destruct u. intros (Hst & Hn & ->). repeat mstep. reflexivity.
Qed.

Lemma unblock_Ok tid s u s' :
  unblock tid s = Ok u s' <->
  aget (threadStates s) tid = Some BLOCKED /\ s' = unblocked s tid.
Proof.
  unfold unblock. split.
  - intros H. minv. by subst.
  - destruct u. intros (Hst & ->). repeat mstep. reflexivity.
Qed.

Lemma waitLocks_lock_Some tid s s' :
  waitLocks_lock tid s = Some s' <->
  aget (waitLocks s) tid = Some false /\
  s' = set_waitLocks (aset (waitLocks s) tid true) s.
Proof.
  unfold waitLocks_lock. destruct (aget _ _) as [[]|]; split; try done.
  - by intros [[=] _].
  - by intros [= <-].
  - by intros [_ ->].
  - by intros [[=] _].
Qed.

(** ** The invariant of the sequential machine *)

Lemma inv_frame s s' :
  inv s ->
  threadStates s' = threadStates s ->
  curTid s' = curTid s ->
  capturedThreads s' = capturedThreads s ->
  length (contexts s') = length (contexts s) ->
  length (waitLocks s') = length (waitLocks s) ->
  executorTid s' < 2 ^ 32 ->
  inv s'.
Proof.
  intros [[] Hcnt Hcur] Hts Hc Hn Hlc Hlw He.
  split; [split|..]; rewrite ?Hts, ?Hc, ?Hn, ?Hlc, ?Hlw; done.
Qed.

Lemma inv_init : inv init.
Proof.
  split; [split|..]; unfold init; fields; rewrite ?length_replicate;
    rewrite ?countCaptured_replicate_UNCAPTURED; try done.
  left. split; [done|]. split; [done|].
  intros t st [? _]%aget_lookup%lookup_replicate. done.
Qed.

Lemma inv_captured_pos s :
  inv s -> is_Some (aget (threadStates s) (curTid s)) ->
  aget (threadStates s) (curTid s) = Some RUNNING /\ 1 <= capturedThreads s.
Proof.
  intros [Hwf Hcnt Hcur] [x Hx].
  destruct Hcur as [[Hno _] | Hrun].
  - apply aget_Some_lt, MAX_THREADS_NO_TID in Hx. congruence.
  - split; [done|]. rewrite Hcnt.
    eapply countCaptured_pos; [exact Hrun | done].
Qed.

Lemma capture_result_inv s tid :
  inv s ->
  aget (threadStates s) tid = Some UNCAPTURED ->
  inv (capture_result s tid) /\
  capturedThreads (capture_result s tid) = capturedThreads s + 1.
Proof.
  intros [Hwf Hcnt Hcur] Hst.
  pose proof (countCaptured_bound s Hwf) as Hb.
  assert (u32_incr (capturedThreads s) = capturedThreads s + 1) as Hinc.
  { apply u32_incr_small. unfold MAX_THREADS in Hb. lia. }
  split; [|done].
  unfold capture_result. destruct Hwf.
  split; [split|..]; fields; rewrite ?length_aset; try done.
  - case_bool_decide; [|done]. apply MAX_THREADS_u32. by eapply aget_Some_lt.
  - apply u32_incr_lt.
  - rewrite Hinc, Hcnt.
    pose proof (countCaptured_aset _ _ _
      (if bool_decide (countCaptured (threadStates s) = 0) then RUNNING else IDLE)
      Hst) as E.
    rewrite <- Hcnt in *. simpl in E. case_bool_decide; simpl in E; lia.
  - right. case_bool_decide as Hn.
    + apply aget_aset_eq. eauto.
    + destruct Hcur as [(_ & ? & _) | Hrun]; [done|].
      rewrite aget_aset_ne; [done | congruence].
Qed.

Lemma TraceGuard_delayed_uncapture_inv cb s u s' :
  inv s -> TraceGuard_delayed_uncapture cb s = Ok u s' -> inv s'.
Proof.
  intros Hinv [[_ ->] | (_ & _ & _ & c & Hc & Hnext & Hrun & ->)]
    %TraceGuard_delayed_uncapture_Ok; [done|].
  destruct (uncaptured_and_switched_inv s c _ Hinv Hnext Hrun) as (Hinv' & _).
  eapply inv_frame; [exact Hinv' | done..].
Qed.

Lemma TraceGuard_loop_inv tid s k s' :
  inv s -> tid < MAX_THREADS -> TraceGuard_loop tid s = Ok k s' -> inv s'.
Proof.
  intros Hinv Hlt [(_ & _ & ->) | (_ & c & Hc & _ & ->)]%TraceGuard_loop_Ok;
    [done|].
  apply (inv_frame s); unfold became_executor; fields;
    rewrite ?length_aset; try done.
  by apply MAX_THREADS_u32.
Qed.

Lemma TraceGuard_inv cb tid ctxt s k s' :
  inv s -> TraceGuard cb tid ctxt s = Ok k s' -> inv s'.
Proof.
  intros Hinv (_ & [(_ & _ & _ & _ & _ & ->) | (Hst & _ & s2 & Hd & Hl)])
    %TraceGuard_Ok.
  - apply (inv_frame s); unfold trace_resumed; fields;
      rewrite ?length_aset; try done. by destruct Hinv as [[]].
  - eapply TraceGuard_loop_inv; [| by eapply aget_Some_lt | done].
    eapply TraceGuard_delayed_uncapture_inv; [|done].
    apply capture_result_inv; fields; [|done].
    apply (inv_frame s); fields; rewrite ?length_aset; try done.
    by destruct Hinv as [[]].
Qed.

Lemma TraceGuard_wakeup_inv tid s k s' :
  inv s -> TraceGuard_wakeup tid s = Ok k s' -> inv s'.
Proof.
  intros Hinv [(_ & c & _ & _ & ->) | ([x Hx] & _ & Hl)]%TraceGuard_wakeup_Ok.
  - apply (inv_frame s); unfold took_syscall; fields;
      rewrite ?length_aset; try done. by destruct Hinv as [[]].
  - eapply TraceGuard_loop_inv; [done | by eapply aget_Some_lt | done].
Qed.

Lemma SyscallGuard_inv cb tid ctxt s k s' :
  inv s -> SyscallGuard cb tid ctxt s = Ok k s' -> inv s'.
Proof.
  intros Hinv (_ & _ & H)%SyscallGuard_Ok. cbv zeta in H.
  destruct H as [(_ & _ & Hnext & Hrun & c' & _ & _ & ->) |
                [(_ & _ & Hnext & Hrun & _ & ->) | (_ & _ & _ & _ & ->)]].
  - destruct (uncaptured_and_switched_inv s ctxt _ Hinv Hnext Hrun) as (Hinv' & _).
    eapply inv_frame; [exact Hinv' |..]; unfold syscall_shipped; fields;
      rewrite ?length_aset; try done. by destruct Hinv as [[]].
  - destruct (uncaptured_and_switched_inv s ctxt _ Hinv Hnext Hrun) as (Hinv' & _).
    eapply inv_frame; [exact Hinv' |..]; unfold syscall_handed_over; fields;
      rewrite ?length_aset; done.
  - apply (inv_frame s); unfold syscall_deferred; fields;
      rewrite ?length_aset; try done. by destruct Hinv as [[]].
Qed.

Lemma switched_inv s ctxt c' :
  let next := u32 (PIN_GetContextReg ctxt switchReg) in
  inv s ->
  aget (threadStates s) next = Some IDLE ->
  aget (threadStates s) (curTid s) = Some RUNNING ->
  inv (switched s ctxt c').
Proof.
  intros next [Hwf Hcnt Hcur] Hnext Hrun.
  assert (curTid s <> next) as Hne by (by eapply aget_distinct).
  pose proof (countCaptured_two _ _ _ _ _ Hne Hrun Hnext eq_refl eq_refl) as H2.
  pose proof (countCaptured_bound s Hwf) as Hb.
  set (st := if blockAfterSwitchcall s then BLOCKED else IDLE).
  pose proof (countCaptured_aset _ _ _ st Hrun) as E1.
  assert (aget (aset (threadStates s) (curTid s) st) next = Some IDLE)
    as Hnext' by (by rewrite aget_aset_ne).
  pose proof (countCaptured_aset _ _ _ RUNNING Hnext') as E2.
  simpl in E1, E2.
  assert (u32_decr (capturedThreads s) = capturedThreads s - 1) as Hdec.
  { apply u32_decr_small; [lia | by destruct Hwf]. }
  destruct Hwf. unfold switched. fold next. fold st.
  split; [split|..]; fields; rewrite ?length_aset; try done.
  - apply u32_lt.
  - destruct (blockAfterSwitchcall s); [apply u32_decr_lt | done].
  - subst st. destruct (blockAfterSwitchcall s); simpl in E1; [rewrite Hdec|]; lia.
  - right. apply aget_aset_eq. rewrite Hnext'. eauto.
Qed.

Lemma SwitchHandler_inv tid ctxt s k s' :
  inv s -> SwitchHandler tid ctxt s = Ok k s' -> inv s'.
Proof.
  intros Hinv H%SwitchHandler_Ok. cbv zeta in H.
  destruct H as (_ & _ & _ & Hnext & Hrun & _ & c' & _ & _ & ->).
  by apply switched_inv.
Qed.

Lemma blocked_idle_inv s tid :
  inv s -> aget (threadStates s) tid = Some IDLE -> 1 < capturedThreads s ->
  inv (blocked_idle s tid).
Proof.
  intros [Hwf Hcnt Hcur] Hst Hn.
  pose proof (countCaptured_aset _ _ _ BLOCKED Hst) as E. simpl in E.
  assert (u32_decr (capturedThreads s) = capturedThreads s - 1) as Hdec.
  { apply u32_decr_small; [lia | by destruct Hwf]. }
  destruct Hwf. unfold blocked_idle.
  split; [split|..]; fields; rewrite ?length_aset; try done.
  - apply u32_decr_lt.
  - rewrite Hdec. lia.
  - right. destruct Hcur as [(_ & ? & _) | Hrun]; [lia|].
    rewrite aget_aset_ne; [done | congruence].
Qed.

Lemma unblocked_inv s tid :
  inv s -> aget (threadStates s) tid = Some BLOCKED -> inv (unblocked s tid).
Proof.
  intros [Hwf Hcnt Hcur] Hst.
  pose proof (countCaptured_bound s Hwf) as Hb.
  pose proof (countCaptured_aset _ _ _ IDLE Hst) as E. simpl in E.
  assert (u32_incr (capturedThreads s) = capturedThreads s + 1) as Hinc.
  { apply u32_incr_small. unfold MAX_THREADS in Hb. lia. }
  destruct Hwf. unfold unblocked.
  split; [split|..]; fields; rewrite ?length_aset; try done.
  - apply u32_incr_lt.
  - rewrite Hinc. lia.
  - right. destruct Hcur as [(_ & _ & Hall) | Hrun].
    + by apply Hall in Hst.
    + rewrite aget_aset_ne; [done | congruence].
Qed.

Theorem step_inv s s' : inv s -> step s s' -> inv s'.
Proof.
  intros Hinv Hstep. pose proof (inv_wf _ Hinv) as Hwf.
  destruct Hstep as
    [tid ctxt c s s' H | tid s s' H | cb tid ctxt k s s' H | tid s s' H
    | tid k s s' H | cb tid ctxt k s s' H | cb s s' H | tid ctxt k s s' H
    | s s' H | tid s s' H | tid s s' H].
  - apply ThreadStart_Ok in H as (_ & _ & ->).
    apply (inv_frame s); try done. by destruct Hwf.
  - apply ThreadFini_Ok in H as (_ & ->).
    apply (inv_frame s); try done. by destruct Hwf.
  - by eapply TraceGuard_inv.
  - apply waitLocks_lock_Some in H as (_ & ->).
    apply (inv_frame s); fields; rewrite ?length_aset; try done.
    by destruct Hwf.
  - by eapply TraceGuard_wakeup_inv.
  - by eapply SyscallGuard_inv.
  - apply UncaptureAndSwitch_Ok in H as (c & _ & Hnext & Hrun & ->).
    by apply uncaptured_and_switched_inv.
  - by eapply SwitchHandler_inv.
  - apply blockAfterSwitch_Ok in H as (_ & ->).
    apply (inv_frame s); try done. by destruct Hwf.
  - apply blockIdleThread_Ok in H as (? & ? & ->). by apply blocked_idle_inv.
  - apply unblock_Ok in H as (? & ->). by apply unblocked_inv.
Qed.

Theorem reachable_inv s : reachable s -> inv s.
Proof.
  induction 1 as [|s s' _ IH Hstep]; [apply inv_init | by eapply step_inv].
Qed.

(** ** The invariant of the threads around the executor state *)

Lemma sys_inv_init : sys_inv sys_init.
Proof.
  split; unfold sys_init; cbn [prot ctl].
  - apply inv_init.
  - intros t [x Hx]. by rewrite lookup_empty in Hx.
  - done.
  - intros t c Hc. by rewrite lookup_empty in Hc.
  - intros t c st Hc. by rewrite lookup_empty in Hc.
Qed.

(** A step that leaves the thread states and the executor alone, and after
    which every live thread either was live with the same context before or
    runs uncaptured with [executorReg] clear. *)
Lemma sys_inv_frame y s' ctl' :
  sys_inv y ->
  inv s' ->
  threadStates s' = threadStates (prot y) ->
  curTid s' = curTid (prot y) ->
  capturedThreads s' = capturedThreads (prot y) ->
  executorTid s' = executorTid (prot y) ->
  executorInSyscall s' = executorInSyscall (prot y) ->
  (forall t, is_Some (ctl' !! t) -> t < MAX_THREADS) ->
  (forall t c, ctl' !! t = Some (Live c) ->
     ctl y !! t = Some (Live c) \/
     (PIN_GetContextReg c executorReg = 0 /\
      aget (threadStates (prot y)) t = Some UNCAPTURED)) ->
  sys_inv (mkSystem s' ctl').
Proof.
  intros [Hp Ht Hs He Ho] Hinv Hts Hc Hn Hex Hin Htids Hctl.
  split; cbn [prot ctl]; rewrite ?Hts, ?Hc, ?Hn, ?Hex, ?Hin; try done.
  - intros t c Hl Her. destruct (Hctl _ _ Hl) as [Hold | [Hz _]]; [eauto|done].
  - intros t c st Hl Her Hst. destruct (Hctl _ _ Hl) as [Hold | [_ Hu]]; [eauto|].
    left. congruence.
Qed.

Lemma insert_tids (m : gmap N ThreadCtl) tid v :
  tid < MAX_THREADS ->
  (forall t, is_Some (m !! t) -> t < MAX_THREADS) ->
  forall t, is_Some (<[tid := v]> m !! t) -> t < MAX_THREADS.
Proof.
  intros Hlt Hm t. destruct (decide (tid = t)) as [<- | Hne]; [done|].
  rewrite lookup_insert_ne by done. apply Hm.
Qed.

Ltac ctl_cases t tid Hl :=
  destruct (decide (tid = t)) as [<- | ?];
  [ rewrite lookup_insert_eq in Hl; cbn [after] in Hl; simplify_eq
  | rewrite lookup_insert_ne in Hl by done ].

Lemma aget_aset_full {A} (a : list A) i j v :
  length a = N.to_nat MAX_THREADS -> i < MAX_THREADS ->
  aget (aset a i v) j = if decide (i = j) then Some v else aget a j.
Proof.
  intros Hlen Hi. case_decide as Hij.
  - subst j. apply aget_aset_eq. by apply aget_is_Some.
  - by apply aget_aset_ne.
Qed.

(** Case analysis on the index of every read of an updated array. *)
Ltac ts_bound :=
  first [ assumption | by eapply aget_Some_lt | lia ].

Ltac ts_cases :=
  repeat match goal with
  | H : context [aget (aset _ _ _) _] |- _ =>
      rewrite aget_aset_full in H
        by (rewrite ?length_aset; first [assumption | ts_bound])
  end;
  repeat case_decide; simplify_eq.

Lemma sys_TraceGuard_inv y cb tid c ctxt k s' :
  sys_inv y ->
  ctl y !! tid = Some (Live c) ->
  TraceGuard cb tid ctxt (prot y) = Ok k s' ->
  sys_inv (mkSystem s' (<[tid := after k]> (ctl y))).
Proof.
  intros Hy Hl H. pose proof (si_prot _ Hy) as Hinv.
  assert (inv s') as Hinv'
    by (eapply step_inv; [done | by eapply step_TraceGuard]).
  assert (tid < MAX_THREADS) as Hlt by (apply (si_tids _ Hy); eauto).
  destruct Hy as [_ Htids Hsys Hexe Hout].
  apply TraceGuard_Ok in H
    as (Her & [(Hst & He & Hc & Hn & -> & ->) | (Hst & _ & s2 & Hd & Hloop)]).
  - split; cbn [prot ctl after]; unfold trace_resumed; fields;
      [done | by apply insert_tids | done | |].
    + intros t c' Hl' Her'. ctl_cases t tid Hl'; try done.
      destruct (Hexe _ _ Hl' Her'). congruence.
    + intros t c' st Hl' Her' Hst'. ctl_cases t tid Hl'; try done.
      destruct (Hout _ _ _ Hl' Her' Hst') as [? | (_ & _ & ?)]; [by left | congruence].
  - apply TraceGuard_delayed_uncapture_Ok in Hd. fields.
    apply TraceGuard_loop_Ok in Hloop.
    destruct Hd as [[Hin ->] | (Hin & Hce & Hn & c1 & Hc1 & Hnext & Hrun & ->)];
      unfold delayed_uncapture_result, uncaptured_and_switched in Hloop;
      fields;
      destruct Hloop as [(He & -> & ->) | (He & c2 & Hc2 & -> & ->)];
      try done;
      unfold became_executor, delayed_uncapture_result, uncaptured_and_switched;
      (split; cbn [prot ctl after]; fields;
       [done | by apply insert_tids | ..]).
    all: try (intros; congruence).
    all: unfold capture_result in *; fields.
    + intros t c' Hl' Her'. ctl_cases t tid Hl'; [done..|]. eauto.
    + intros t c' st Hl' Her' Hst'. ctl_cases t tid Hl'; [done..|].
      rewrite aget_aset_ne in Hst' by done.
      destruct (Hout _ _ _ Hl' Her' Hst') as [? | (_ & ? & _)];
        [by left | congruence].
    + intros t c' Hl' Her'. ctl_cases t tid Hl'; [done..|].
      destruct (Hexe _ _ Hl' Her') as [Hx _].
      assert (t < MAX_THREADS) as Ht by (apply Htids; eauto).
      apply MAX_THREADS_NO_TID in Ht. congruence.
    + intros t c' st Hl' Her' Hst'. ctl_cases t tid Hl'; [done..|].
      rewrite aget_aset_ne in Hst' by done.
      destruct (Hout _ _ _ Hl' Her' Hst') as [? | (_ & ? & _)];
        [by left | congruence].
    + intros t c' Hl' Her'. ctl_cases t tid Hl'; [done..|].
      destruct (Hexe _ _ Hl' Her') as [_ Hx]. congruence.
    + intros t c' st Hl' Her' Hst'. ctl_cases t tid Hl'; [done..|].
      destruct (Hsys Hin) as (Hec & Hcr).
      assert (capturedThreads (prot y) = 1) as Hone
        by (apply u32_incr_two; [apply Hinv | done]).
      rewrite Hone in *. rewrite bool_decide_eq_false_2 in * by done.
      pose proof (wf_threadStates _ (inv_wf _ Hinv)) as Hlen.
      left. ts_cases; try done.
      all: try (destruct (Hout _ _ _ Hl' Her' Hnext) as [? | (? & _)]; done).
      all: try (destruct (Hout _ _ _ Hl' Her' Hst') as [? | (_ & _ & ?)];
                [done | congruence]).
Qed.

Lemma sys_TraceGuard_wakeup_inv y tid k s' :
  sys_inv y ->
  ctl y !! tid = Some Woken ->
  TraceGuard_wakeup tid (prot y) = Ok k s' ->
  sys_inv (mkSystem s' (<[tid := after k]> (ctl y))).
Proof.
  intros Hy Hl H. pose proof (si_prot _ Hy) as Hinv.
  assert (inv s') as Hinv'
    by (eapply step_inv; [done | by eapply step_TraceGuard_wakeup]).
  assert (tid < MAX_THREADS) as Hlt by (apply (si_tids _ Hy); eauto).
  apply TraceGuard_wakeup_Ok in H
    as [(Hst & c & Hc & -> & ->) | (_ & _ & Hloop)].
  - apply (sys_inv_frame y); try done.
    + apply insert_tids; [done | by destruct Hy].
    + intros t c' Hl'. ctl_cases t tid Hl'; [by right.. | by left].
  - apply TraceGuard_loop_Ok in Hloop
      as [(He & -> & ->) | (He & c & Hc & -> & ->)].
    + apply (sys_inv_frame y); try done.
      * apply insert_tids; [done | by destruct Hy].
      * intros t c' Hl'. ctl_cases t tid Hl'; [done.. | by left].
    + destruct Hy as [_ Htids Hsys Hexe Hout].
      assert (executorInSyscall (prot y) = false) as Hin.
      { destruct (executorInSyscall (prot y)); [|done].
        destruct Hsys as (Hec & Hcr%aget_Some_lt%MAX_THREADS_NO_TID);
          [done | congruence]. }
      unfold became_executor in *.
      split; cbn [prot ctl after]; fields;
        [done | by apply insert_tids | intros; congruence | |].
      * intros t c' Hl' Her'. ctl_cases t tid Hl'; [done..|].
        destruct (Hexe _ _ Hl' Her') as [Hx _].
        assert (t < MAX_THREADS) as Ht by (apply Htids; eauto).
        apply MAX_THREADS_NO_TID in Ht. congruence.
      * intros t c' st Hl' Her' Hst'. ctl_cases t tid Hl'; [done..|].
        destruct (Hout _ _ _ Hl' Her' Hst') as [? | (_ & ? & _)];
          [by left | congruence].
Qed.

Lemma sys_SyscallGuard_inv y cb tid c ctxt k s' :
  sys_inv y ->
  ctl y !! tid = Some (Live c) ->
  PIN_GetContextReg c executorReg <> 0 ->
  SyscallGuard cb tid ctxt (prot y) = Ok k s' ->
  sys_inv (mkSystem s' (<[tid := after k]> (ctl y))).
Proof.
  intros Hy Hl Her H. pose proof (si_prot _ Hy) as Hinv.
  assert (inv s') as Hinv'
    by (eapply step_inv; [done | by eapply step_SyscallGuard]).
  assert (tid < MAX_THREADS) as Hlt by (apply (si_tids _ Hy); eauto).
  pose proof (wf_threadStates _ (inv_wf _ Hinv)) as Hlen.
  destruct Hy as [_ Htids Hsys Hexe Hout].
  destruct (Hexe _ _ Hl Her) as [Hexec Hin].
  apply SyscallGuard_Ok in H as (_ & Hsc & H). cbv zeta in H.
  destruct H as [(Hne & _ & Hnext & Hrun & c' & _ & -> & ->) |
                [(Heq & _ & Hnext & Hrun & -> & ->) |
                 (Heq & Hn & _ & -> & ->)]].
  - unfold syscall_shipped in *.
    split; cbn [prot ctl after]; fields;
      [done | by apply insert_tids | intros; congruence | |].
    + intros t c1 Hl' Her'. ctl_cases t tid Hl'; [done..|].
      destruct (Hexe _ _ Hl' Her') as [Hx _]. congruence.
    + intros t c1 st Hl' Her' Hst'. ctl_cases t tid Hl'; [done..|].
      left. ts_cases; try done.
      all: try (destruct (Hout _ _ _ Hl' Her' Hnext) as [? | (? & _)]; done).
      all: try (destruct (Hout _ _ _ Hl' Her' Hst') as [? | (_ & ? & _)];
                [done | congruence]).
  - unfold syscall_handed_over in *.
    split; cbn [prot ctl after]; fields;
      [done | by apply insert_tids | intros; congruence | |].
    + intros t c1 Hl' Her'. ctl_cases t tid Hl'; [done..|].
      destruct (Hexe _ _ Hl' Her') as [Hx _]. congruence.
    + intros t c1 st Hl' Her' Hst'. left.
      assert (curTid (prot y) <> cb (curTid (prot y)) ctxt)
        by (by eapply aget_distinct).
      ctl_cases t tid Hl'; ts_cases; try done.
      all: try (destruct (Hout _ _ _ Hl' Her' Hnext) as [? | (? & _)]; done).
      all: try (destruct (Hout _ _ _ Hl' Her' Hst') as [? | (_ & ? & _)];
                [done | congruence]).
  - unfold syscall_deferred in *.
    destruct (inv_captured_pos _ Hinv) as [Hrun Hpos];
      [apply aget_is_Some; [done | by rewrite Heq] |].
    split; cbn [prot ctl after]; fields; [done | by apply insert_tids | ..].
    + intros _. split; [congruence | done].
    + intros t c1 Hl' Her'. ctl_cases t tid Hl'; [done..|].
      destruct (Hexe _ _ Hl' Her') as [Hx _]. congruence.
    + intros t c1 st Hl' Her' Hst'. ctl_cases t tid Hl'.
      * by right.
      * destruct (Hout _ _ _ Hl' Her' Hst') as [? | (_ & ? & _)];
          [by left | congruence].
Qed.

Lemma sys_SwitchHandler_inv y tid c ctxt k s' :
  sys_inv y ->
  ctl y !! tid = Some (Live c) ->
  runs_to c ctxt ->
  SwitchHandler tid ctxt (prot y) = Ok k s' ->
  sys_inv (mkSystem s' (<[tid := after k]> (ctl y))).
Proof.
  intros Hy Hl Hrt H. pose proof (si_prot _ Hy) as Hinv.
  assert (inv s') as Hinv'
    by (eapply step_inv; [done | by eapply step_SwitchHandler]).
  assert (tid < MAX_THREADS) as Hlt by (apply (si_tids _ Hy); eauto).
  pose proof (wf_threadStates _ (inv_wf _ Hinv)) as Hlen.
  destruct Hy as [_ Htids Hsys Hexe Hout].
  apply SwitchHandler_Ok in H. cbv zeta in H.
  destruct H as (Her & _ & Hne & Hnext & Hrun & _ & c' & _ & -> & ->).
  assert (PIN_GetContextReg c executorReg <> 0) as Her0.
  { unfold runs_to in Hrt. rewrite <- Hrt, Her. done. }
  destruct (Hexe _ _ Hl Her0) as [Hexec Hin].
  unfold switched in *.
  split; cbn [prot ctl after]; fields;
    [done | by apply insert_tids | intros; congruence | |].
  - intros t c1 Hl' Her'. ctl_cases t tid Hl'; [done..|].
    destruct (Hexe _ _ Hl' Her') as [Hx _]. congruence.
  - intros t c1 st Hl' Her' Hst'. ctl_cases t tid Hl'; [done..|].
    left. ts_cases; try done.
    all: try (destruct (Hout _ _ _ Hl' Her' Hnext) as [? | (? & _)]; done).
    all: try (destruct (Hout _ _ _ Hl' Her' Hrun) as [? | (_ & ? & _)];
              [done | congruence]).
    all: try (destruct (Hout _ _ _ Hl' Her' Hst') as [? | (_ & ? & _)];
              [done | congruence]).
Qed.

Lemma sys_blockIdleThread_inv y t s' :
  sys_inv y ->
  blockIdleThread t (prot y) = Ok tt s' ->
  sys_inv (mkSystem s' (ctl y)).
Proof.
  intros Hy H. pose proof (si_prot _ Hy) as Hinv.
  assert (inv s') as Hinv'
    by (eapply step_inv; [done | by eapply step_blockIdleThread]).
  pose proof (wf_threadStates _ (inv_wf _ Hinv)) as Hlen.
  destruct Hy as [_ Htids Hsys Hexe Hout].
  apply blockIdleThread_Ok in H as (Hidle & _ & ->).
  unfold blocked_idle in *.
  split; cbn [prot ctl]; fields; [done | done | | done |].
  - intros Hin. destruct (Hsys Hin) as (He & Hrun). split; [done|].
    rewrite aget_aset_ne; [done | congruence].
  - intros t' c1 st Hl' Her' Hst'. ts_cases.
    + destruct (Hout _ _ _ Hl' Her' Hidle) as [? | (? & _)]; done.
    + by apply (Hout _ c1).
Qed.

Lemma sys_unblock_inv y t s' :
  sys_inv y ->
  unblock t (prot y) = Ok tt s' ->
  sys_inv (mkSystem s' (ctl y)).
Proof.
  intros Hy H. pose proof (si_prot _ Hy) as Hinv.
  assert (inv s') as Hinv'
    by (eapply step_inv; [done | by eapply step_unblock]).
  pose proof (wf_threadStates _ (inv_wf _ Hinv)) as Hlen.
  destruct Hy as [_ Htids Hsys Hexe Hout].
  apply unblock_Ok in H as (Hblocked & ->).
  unfold unblocked in *.
  split; cbn [prot ctl]; fields; [done | done | | done |].
  - intros Hin. destruct (Hsys Hin) as (He & Hrun). split; [done|].
    rewrite aget_aset_ne; [done | congruence].
  - intros t' c1 st Hl' Her' Hst'. ts_cases.
    + destruct (Hout _ _ _ Hl' Her' Hblocked) as [? | (? & _)]; done.
    + by apply (Hout _ c1).
Qed.

Theorem sys_step_inv y y' : sys_inv y -> sys_step y y' -> sys_inv y'.
Proof.
  intros Hy Hstep. pose proof (si_prot _ Hy) as Hinv.
  destruct Hstep as
    [tid ctxt c s' y Hlt Hnone H | tid c s' y Hl H
    | cb tid c ctxt k s' y Hl Hrun Hg H | tid s' y Hl H | tid k s' y Hl H
    | cb tid c ctxt k s' y Hl Hrun Hg H | tid c ctxt k s' y Hl Hrun Hg H
    | s' y H | t s' y H | t s' y H].
  - (* ThreadStart *)
    assert (step (prot y) s') as Hst by (by eapply step_ThreadStart).
    apply ThreadStart_Ok in H as (Hu & -> & ->).
    apply (sys_inv_frame y); try done.
    + by eapply step_inv.
    + apply insert_tids; [done | by destruct Hy].
    + intros t c. destruct (decide (tid = t)) as [<- | Hne].
      * rewrite lookup_insert_eq. intros [= <-]. by right.
      * rewrite lookup_insert_ne by done. by left.
  - (* ThreadFini *)
    assert (step (prot y) s') as Hst by (by eapply step_ThreadFini).
    apply ThreadFini_Ok in H as (_ & ->).
    apply (sys_inv_frame y); try done.
    + by eapply step_inv.
    + intros t [x Hx]. apply (si_tids _ Hy). exists x.
      apply lookup_delete_Some in Hx. tauto.
    + intros t c' [_ Hx]%lookup_delete_Some. by left.
  - by eapply sys_TraceGuard_inv.
  - (* waitLocks[tid].lock() *)
    assert (step (prot y) s') as Hst by (by eapply step_waitLocks_lock).
    apply waitLocks_lock_Some in H as (_ & ->).
    apply (sys_inv_frame y); try done.
    + by eapply step_inv.
    + apply insert_tids; [|by destruct Hy]. apply (si_tids _ Hy). eauto.
    + intros t c Hl'. ctl_cases t tid Hl'; [done.. | by left].
  - by eapply sys_TraceGuard_wakeup_inv.
  - eapply sys_SyscallGuard_inv; try done.
    unfold runs_to, RunSyscallGuard in *. congruence.
  - by eapply sys_SwitchHandler_inv.
  - (* blockAfterSwitch *)
    assert (step (prot y) s') as Hst by (by eapply step_blockAfterSwitch).
    apply blockAfterSwitch_Ok in H as (_ & ->).
    apply (sys_inv_frame y); try done.
    + by eapply step_inv.
    + by destruct Hy.
    + intros t' c' Hl'. by left.
  - by eapply sys_blockIdleThread_inv.
  - by eapply sys_unblock_inv.
Qed.

Theorem sys_reachable_inv y : sys_reachable y -> sys_inv y.
Proof.
  induction 1 as [|y y' _ IH Hstep];
    [apply sys_inv_init | by eapply sys_step_inv].
Qed.

(** Every run of the threaded system is a run of the sequential machine. *)
Lemma sys_step_step y y' : sys_step y y' -> step (prot y) (prot y').
Proof.
  destruct 1; cbn [prot];
    eauto using step_ThreadStart, step_ThreadFini, step_TraceGuard,
      step_waitLocks_lock, step_TraceGuard_wakeup, step_SyscallGuard,
      step_SwitchHandler, step_blockAfterSwitch, step_blockIdleThread,
      step_unblock.
Qed.

Lemma sys_reachable_reachable y : sys_reachable y -> reachable (prot y).
Proof.
  induction 1 as [|y y' _ IH Hstep]; [apply reachable_init|].
  eapply reachable_step; [done | by apply sys_step_step].
Qed.

(** ** The scenarios are runs of the program *)

Example st_one_fields :
  (threadStates st_one !! 0%nat, curTid st_one, executorTid st_one,
   capturedThreads st_one, executorInSyscall st_one)
  = (Some RUNNING, 0, 0, 1, false).
Proof. vm_compute. reflexivity. Qed.

Example st_two_fields :
  (threadStates st_two !! 0%nat, threadStates st_two !! 1%nat, curTid st_two,
   executorTid st_two, capturedThreads st_two)
  = (Some RUNNING, Some IDLE, 0, 0, 2).
Proof. vm_compute. reflexivity. Qed.

Example st_deferred_fields :
  (threadStates st_deferred !! 0%nat, curTid st_deferred,
   executorTid st_deferred, capturedThreads st_deferred,
   executorInSyscall st_deferred, hookLog st_deferred)
  = (Some RUNNING, 0, 0, 1, true, [CallThreadStart 0; CallCapture 0 true]).
Proof. vm_compute. reflexivity. Qed.

Lemma reachable_st_started : reachable st_started.
Proof.
  eapply reachable_step; [apply reachable_init|].
  eapply (step_ThreadStart 0 (ctx_of 7 7 100)). vm_compute. reflexivity.
Qed.

Lemma reachable_st_one : reachable st_one.
Proof.
  eapply reachable_step; [apply reachable_st_started|].
  eapply (step_TraceGuard (pick 0) 0 (ctx_of 0 0 100)). vm_compute. reflexivity.
Qed.

Lemma reachable_st_two : reachable st_two.
Proof.
  eapply reachable_step; [eapply reachable_step; [apply reachable_st_one|]|].
  - eapply (step_ThreadStart 1 (ctx_of 7 7 200)). vm_compute. reflexivity.
  - eapply (step_TraceGuard (pick 0) 1 (ctx_of 0 0 200)). vm_compute. reflexivity.
Qed.

Lemma reachable_st_deferred : reachable st_deferred.
Proof.
  eapply reachable_step; [apply reachable_st_one|].
  eapply (step_SyscallGuard (pick 0) 0 (ctx_of 1 0 101)). vm_compute. reflexivity.
Qed.

Lemma reachable_st_two_armed : reachable st_two_armed.
Proof.
  eapply reachable_step; [apply reachable_st_two|].
  eapply step_blockAfterSwitch. vm_compute. reflexivity.
Qed.

Lemma sys_reachable_started : sys_reachable sys_started.
Proof.
  eapply sys_reachable_step; [apply sys_reachable_init|].
  apply (sys_ThreadStart 0 (ctx_of 7 7 100)).
  - done.
  - apply lookup_empty.
  - vm_compute. reflexivity.
Qed.

Lemma sys_reachable_one : sys_reachable sys_one.
Proof.
  eapply sys_reachable_step; [apply sys_reachable_started|].
  eapply (sys_TraceGuard (pick 0) 0 _ (ctx_of 0 0 100)).
  - apply lookup_insert_eq.
  - reflexivity.
  - vm_compute. discriminate.
  - vm_compute. reflexivity.
Qed.

Lemma sys_reachable_deferred : sys_reachable sys_deferred.
Proof.
  eapply sys_reachable_step; [apply sys_reachable_one|].
  eapply (sys_SyscallGuard (pick 0) 0 _ (ctx_of 1 0 101)).
  - apply lookup_insert_eq.
  - reflexivity.
  - vm_compute. discriminate.
  - vm_compute. reflexivity.
Qed.

Lemma sys_reachable_one_started : sys_reachable sys_one_started.
Proof.
  eapply sys_reachable_step; [apply sys_reachable_one|].
  apply (sys_ThreadStart 1 (ctx_of 7 7 200)).
  - done.
  - vm_compute. reflexivity.
  - vm_compute. reflexivity.
Qed.

Lemma sys_reachable_two : sys_reachable sys_two.
Proof.
  eapply sys_reachable_step; [apply sys_reachable_one_started|].
  eapply (sys_TraceGuard (pick 0) 1 _ (ctx_of 0 0 200)).
  - apply lookup_insert_eq.
  - reflexivity.
  - vm_compute. discriminate.
  - vm_compute. reflexivity.
Qed.

Lemma sys_two_executor :
  ctl sys_two !! 0 = Some (Live (resumed (ctx_of 0 0 100) 1 0)).
Proof. vm_compute. reflexivity. Qed.

Lemma sys_reachable_blocked : sys_reachable sys_blocked.
Proof.
  eapply sys_reachable_step; [apply sys_reachable_two|].
  apply (sys_blockIdleThread 1 st_blocked sys_two). vm_compute. reflexivity.
Qed.

Lemma sys_reachable_blocked_deferred : sys_reachable sys_blocked_deferred.
Proof.
  eapply sys_reachable_step; [apply sys_reachable_blocked|].
  eapply (sys_SyscallGuard (pick 0) 0 _ (ctx_of 1 0 101)).
  - exact sys_two_executor.
  - reflexivity.
  - vm_compute. discriminate.
  - vm_compute. reflexivity.
Qed.

Lemma sys_reachable_unblocked_in_syscall :
  sys_reachable sys_unblocked_in_syscall.
Proof.
  eapply sys_reachable_step; [apply sys_reachable_blocked_deferred|].
  apply (sys_unblock 1 st_unblocked_in_syscall sys_blocked_deferred).
  vm_compute. reflexivity.
Qed.

Lemma sys_reachable_unblocked_started : sys_reachable sys_unblocked_started.
Proof.
  eapply sys_reachable_step; [apply sys_reachable_unblocked_in_syscall|].
  apply (sys_ThreadStart 2 (ctx_of 7 7 300)).
  - done.
  - vm_compute. reflexivity.
  - vm_compute. reflexivity.
Qed.

(** * The properties of the specification *)

Lemma countCaptured_filter l :
  countCaptured l
  = N.of_nat (length (filter (fun st => st = IDLE \/ st = RUNNING) l)).
Proof.
  induction l as [|st l IH]; [done|].
  rewrite filter_cons. cbn [countCaptured]. rewrite IH.
  destruct st; case_decide as H; cbn [captured b2N length]; try lia;
    exfalso; try (destruct H; congruence); apply H; auto.
Qed.

(** C1.  In every state that some sequence of the guarded operations (thread
    start and finish, capture, wake-up, system-call guard with its
    uncapture-and-switch, switch, block, unblock, arming the block-after-switch
    flag) reaches from [init], [capturedThreads] is the number of threads
    whose state is [IDLE] or [RUNNING]; threads that are [BLOCKED] or
    [UNCAPTURED] are not counted. *)
Theorem capturedThreads_counts_idle_and_running s :
  reachable s ->
  capturedThreads s
  = N.of_nat (length (filter (fun st => st = IDLE \/ st = RUNNING)
                        (threadStates s))).
Proof.
  intros Hr. rewrite <- countCaptured_filter.
  apply reachable_inv in Hr. by destruct Hr.
Qed.

Lemma capturedThreads_counts_idle_and_running_witness :
  reachable st_two /\
  capturedThreads st_two
  = N.of_nat (length (filter (fun st => st = IDLE \/ st = RUNNING)
                        (threadStates st_two))).
Proof.
  split; [exact reachable_st_two|].
  apply (capturedThreads_counts_idle_and_running st_two).
  exact reachable_st_two.
Defined.

(** C7.  For a thread [tid] that is [IDLE] while more than one thread is
    captured, [blockIdleThread tid] succeeds, makes the thread [BLOCKED] and
    takes one off [capturedThreads]; [unblock tid] then succeeds and gives
    back the very state the pair started from, every component included. *)
Theorem blockIdleThread_unblock_roundtrip s tid :
  wf_State s ->
  aget (threadStates s) tid = Some IDLE ->
  1 < capturedThreads s ->
  exists s1,
    blockIdleThread tid s = Ok tt s1 /\
    aget (threadStates s1) tid = Some BLOCKED /\
    capturedThreads s1 = capturedThreads s - 1 /\
    unblock tid s1 = Ok tt s.
Proof.
  intros Hwf Hst Hn. exists (blocked_idle s tid).
  assert (aget (threadStates (blocked_idle s tid)) tid = Some BLOCKED) as Hb.
  { unfold blocked_idle. fields. apply aget_aset_eq. eauto. }
  assert (u32_decr (capturedThreads s) = capturedThreads s - 1) as Hdec.
  { apply u32_decr_small; [lia | by destruct Hwf]. }
  split; [by apply blockIdleThread_Ok|]. split; [done|].
  split; [unfold blocked_idle; fields; done|].
  apply unblock_Ok. split; [done|].
  unfold unblocked, blocked_idle. apply State_eq; fields; try done.
  - rewrite aset_aset. symmetry. by apply aset_same.
  - rewrite Hdec. rewrite u32_incr_small.
    + lia.
    + destruct Hwf. lia.
Qed.

Lemma blockIdleThread_unblock_roundtrip_witness :
  exists s1,
    blockIdleThread 1 st_two = Ok tt s1 /\
    aget (threadStates s1) 1 = Some BLOCKED /\
    capturedThreads s1 = capturedThreads st_two - 1 /\
    unblock 1 s1 = Ok tt st_two.
Proof.
  apply (blockIdleThread_unblock_roundtrip st_two 1).
  - apply inv_wf, reachable_inv, reachable_st_two.
  - vm_compute. reflexivity.
  - vm_compute. reflexivity.
Defined.

(** C8.  [ThreadFini] succeeds in two cases only: the finishing thread is
    [RUNNING] and [capturedThreads] is 1, or the thread is [UNCAPTURED].
    Anything else fails an assertion.  When it succeeds the only thing that
    happens is the call of the finish callback: no uncapture callback is
    called and the executor state is left as it was. *)
Theorem ThreadFini_cases tid s st :
  aget (threadStates s) tid = Some st ->
  (st = RUNNING -> capturedThreads s = 1 ->
   ThreadFini tid s = Ok tt (set_hookLog (hookLog s ++ [CallThreadEnd tid]) s)) /\
  (st = UNCAPTURED ->
   ThreadFini tid s = Ok tt (set_hookLog (hookLog s ++ [CallThreadEnd tid]) s)) /\
  (st = RUNNING -> capturedThreads s <> 1 ->
   ThreadFini tid s = Fatal (AssertFailed 115)) /\
  (st = IDLE \/ st = BLOCKED ->
   ThreadFini tid s = Fatal (AssertFailed 121)).
Proof.
  intros Hst. repeat split.
  - intros -> Hn. apply ThreadFini_Ok. auto.
  - intros ->. apply ThreadFini_Ok. auto.
  - intros -> Hn. unfold ThreadFini. repeat mstep.
    apply bind_Fatal. by apply assert_False.
  - intros Hx. unfold ThreadFini. mstep.
    rewrite decide_False by (destruct Hx; congruence).
    apply bind_Fatal. apply assert_False. destruct Hx; congruence.
Qed.

Lemma ThreadFini_cases_witness :
  ThreadFini 0 st_deferred
  = Ok tt (set_hookLog (hookLog st_deferred ++ [CallThreadEnd 0]) st_deferred) /\
  ThreadFini 1 st_two = Fatal (AssertFailed 121).
Proof.
  split.
  - refine (proj1 (ThreadFini_cases 0 st_deferred RUNNING _) _ _);
      vm_compute; reflexivity.
  - refine (proj2 (proj2 (proj2 (ThreadFini_cases 1 st_two IDLE _))) _);
      [vm_compute; reflexivity | left; reflexivity].
Defined.

(** C9.  [getContext tid] returns the saved context of thread [tid] exactly
    when [tid] is below [MAX_THREADS] and the thread is [BLOCKED] or [IDLE].
    An id out of range fails the first assertion, a thread that is [RUNNING]
    or [UNCAPTURED] fails the second: the context of the running thread, or
    of a thread outside the tool's control, is never handed out. *)
Theorem getContext_cases tid s :
  (forall c s',
     getContext tid s = Ok c s' <->
     (aget (threadStates s) tid = Some BLOCKED \/
      aget (threadStates s) tid = Some IDLE) /\
     aget (contexts s) tid = Some c /\ s' = s) /\
  (MAX_THREADS <= tid -> getContext tid s = Fatal (AssertFailed 434)) /\
  (aget (threadStates s) tid = Some RUNNING \/
   aget (threadStates s) tid = Some UNCAPTURED ->
   getContext tid s = Fatal (AssertFailed 435)).
Proof.
  split; [|split].
  - intros c s'. split.
    + unfold getContext. intros Hg. minv.
      match goal with H : _ \/ _ |- _ => destruct H; subst; auto end.
    + intros ([Hst | Hst] & Hc & ->); unfold getContext; repeat mstep;
        by apply contexts_at_fwd.
  - intros Hge. unfold getContext. apply bind_Fatal, assert_False. lia.
  - intros Hst. unfold getContext.
    assert (tid < MAX_THREADS) by (destruct Hst; by eapply aget_Some_lt).
    mstep. destruct Hst as [Hst | Hst]; mstep;
      apply bind_Fatal, assert_False; intros []; congruence.
Qed.

Lemma getContext_cases_witness :
  getContext 4096 st_two = Fatal (AssertFailed 434) /\
  getContext 0 st_two = Fatal (AssertFailed 435).
Proof.
  split.
  - refine (proj1 (proj2 (getContext_cases 4096 st_two)) _).
    vm_compute. discriminate.
  - refine (proj2 (proj2 (getContext_cases 0 st_two)) _).
    left. vm_compute. reflexivity.
Defined.

Lemma UncaptureAndSwitch_invalid cb s c :
  aget (contexts s) (curTid s) = Some c ->
  MAX_THREADS <= cb (curTid s) c ->
  UncaptureAndSwitch cb s = Fatal (Panic 132).
Proof.
  intros Hc Hge. unfold UncaptureAndSwitch. do 3 mstep.
  rewrite decide_True by done. reflexivity.
Qed.

Lemma UncaptureAndSwitch_not_idle cb s c st :
  aget (contexts s) (curTid s) = Some c ->
  aget (threadStates s) (cb (curTid s) c) = Some st -> st <> IDLE ->
  UncaptureAndSwitch cb s = Fatal (Panic 134).
Proof.
  intros Hc Hst Hne. pose proof (aget_Some_lt _ _ _ Hst).
  unfold UncaptureAndSwitch. do 3 mstep.
  rewrite decide_False by lia. do 2 mstep.
  rewrite decide_True by done. reflexivity.
Qed.

Lemma UncaptureAndSwitch_run cb s c :
  aget (contexts s) (curTid s) = Some c ->
  aget (threadStates s) (curTid s) = Some RUNNING ->
  aget (threadStates s) (cb (curTid s) c) = Some IDLE ->
  UncaptureAndSwitch cb s
  = Ok tt (uncaptured_and_switched s c (cb (curTid s) c)).
Proof.
  intros Hc Hrun Hnext. pose proof (aget_Some_lt _ _ _ Hnext) as Hlt.
  assert (curTid s <> cb (curTid s) c) as Hne by (by eapply aget_distinct).
  unfold UncaptureAndSwitch. do 3 mstep.
  rewrite decide_False by lia. do 2 mstep.
  rewrite decide_False by (by intros ?).
  rewrite (u32_small (cb (curTid s) c)) by (by apply MAX_THREADS_u32).
  repeat mstep.
  erewrite threadStates_put_fwd by done. f_equal.
Qed.

(** C2.  [UncaptureAndSwitch] calls the uncapture callback with the outgoing
    thread [curTid] and its saved context.  If the thread id that comes back
    is [MAX_THREADS] or more, or names a thread that is not [IDLE], the
    process panics.  Otherwise [capturedThreads] goes down by one, the outgoing
    thread goes from [RUNNING] to [UNCAPTURED], the returned thread from [IDLE]
    to [RUNNING], and [curTid] becomes the returned thread; nothing else
    changes.  The counter is a [uint32_t]; in a state that satisfies the
    invariant it is at least 2 here, so that the new value is the old one
    minus 1 and is not 0. *)
Theorem UncaptureAndSwitch_cases cb s c :
  aget (contexts s) (curTid s) = Some c ->
  aget (threadStates s) (curTid s) = Some RUNNING ->
  let next := cb (curTid s) c in
  (MAX_THREADS <= next -> UncaptureAndSwitch cb s = Fatal (Panic 132)) /\
  (forall st, aget (threadStates s) next = Some st -> st <> IDLE ->
     UncaptureAndSwitch cb s = Fatal (Panic 134)) /\
  (aget (threadStates s) next = Some IDLE ->
     UncaptureAndSwitch cb s = Ok tt {|
       contexts := contexts s;
       threadStates :=
         aset (aset (threadStates s) (curTid s) UNCAPTURED) next RUNNING;
       waitLocks := waitLocks s;
       executorTid := executorTid s;
       curTid := next;
       capturedThreads := u32_decr (capturedThreads s);
       executorInSyscall := executorInSyscall s;
       blockAfterSwitchcall := blockAfterSwitchcall s;
       hookLog := hookLog s ++ [CallUncapture (curTid s) c next]
     |}) /\
  (inv s -> aget (threadStates s) next = Some IDLE ->
     exists s', UncaptureAndSwitch cb s = Ok tt s' /\
       capturedThreads s' = capturedThreads s - 1 /\
       1 <= capturedThreads s').
Proof.
  intros Hc Hrun next. subst next. split; [|split; [|split]].
  - by apply UncaptureAndSwitch_invalid.
  - intros st. by apply UncaptureAndSwitch_not_idle.
  - by apply UncaptureAndSwitch_run.
  - intros Hinv Hnext. eexists. split; [by apply UncaptureAndSwitch_run|].
    unfold uncaptured_and_switched. cbn [capturedThreads].
    assert (2 <= capturedThreads s) as Hn.
    { rewrite (inv_count _ Hinv).
      apply (countCaptured_two _ (curTid s) (cb (curTid s) c) RUNNING IDLE);
        try done.
      by eapply aget_distinct. }
    pose proof (wf_capturedThreads _ (inv_wf _ Hinv)) as Hmax.
    rewrite u32_decr_small by lia. lia.
Qed.

Lemma UncaptureAndSwitch_cases_witness :
  UncaptureAndSwitch (pick 1) st_two
  = Ok tt {|
      contexts := contexts st_two;
      threadStates := aset (aset (threadStates st_two) 0 UNCAPTURED) 1 RUNNING;
      waitLocks := waitLocks st_two;
      executorTid := executorTid st_two;
      curTid := 1;
      capturedThreads := 1;
      executorInSyscall := executorInSyscall st_two;
      blockAfterSwitchcall := blockAfterSwitchcall st_two;
      hookLog := hookLog st_two ++ [CallUncapture 0 (resumed (ctx_of 0 0 100) 1 0) 1]
    |} /\
  capturedThreads st_two = 2 /\
  UncaptureAndSwitch (pick 4096) st_two = Fatal (Panic 132) /\
  UncaptureAndSwitch (pick 0) st_two = Fatal (Panic 134).
Proof.
  assert (aget (contexts st_two) (curTid st_two)
          = Some (resumed (ctx_of 0 0 100) 1 0)) as Hc
    by (vm_compute; reflexivity).
  assert (aget (threadStates st_two) (curTid st_two) = Some RUNNING) as Hrun
    by (vm_compute; reflexivity).
  split; [|split; [vm_compute; reflexivity|split]].
  - refine (proj1 (proj2 (proj2
              (UncaptureAndSwitch_cases (pick 1) st_two _ Hc Hrun))) _).
    vm_compute. reflexivity.
  - refine (proj1 (UncaptureAndSwitch_cases (pick 4096) st_two _ Hc Hrun) _).
    vm_compute. discriminate.
  - refine (proj1 (proj2 (UncaptureAndSwitch_cases (pick 0) st_two _ Hc Hrun))
              RUNNING _ _); [vm_compute; reflexivity | discriminate].
Defined.

(** C4.  On a valid switchcall (the caller is the executor, the requested
    thread is [IDLE] and is not the current one, the current one is
    [RUNNING]) [SwitchHandler] succeeds.  The outgoing thread becomes [IDLE];
    but when the block-after-switch flag is armed it becomes [BLOCKED]
    instead, [capturedThreads] goes down by one and the flag is cleared.
    Either way the requested thread becomes [RUNNING] and [curTid], the
    executor stays the calling OS thread, and control goes to the requested
    thread's saved context with [executorReg] set to 1. *)
Theorem SwitchHandler_switches tid ctxt s c' :
  let next := u32 (PIN_GetContextReg ctxt switchReg) in
  let armed := blockAfterSwitchcall s in
  wf_State s ->
  PIN_GetContextReg ctxt executorReg = 1 ->
  executorTid s = tid ->
  next <> curTid s ->
  aget (threadStates s) next = Some IDLE ->
  aget (threadStates s) (curTid s) = Some RUNNING ->
  aget (contexts s) next = Some c' ->
  exists s',
    SwitchHandler tid ctxt s = Ok (ExecuteAt (resumed c' 1 next)) s' /\
    aget (threadStates s') (curTid s) = Some (if armed then BLOCKED else IDLE) /\
    aget (threadStates s') next = Some RUNNING /\
    (forall t, t <> curTid s -> t <> next ->
       aget (threadStates s') t = aget (threadStates s) t) /\
    capturedThreads s'
    = (if armed then u32_decr (capturedThreads s) else capturedThreads s) /\
    blockAfterSwitchcall s' = false /\
    curTid s' = next /\
    executorTid s' = tid /\
    executorInSyscall s' = executorInSyscall s /\
    aget (contexts s') next = Some (resumed c' 1 next) /\
    PIN_GetContextReg (resumed c' 1 next) executorReg = 1.
Proof.
  intros next armed Hwf Her He Hne Hnext Hrun Hc'. subst next armed.
  pose proof (wf_threadStates _ Hwf) as Hlen.
  pose proof (wf_contexts _ Hwf) as Hlenc.
  pose proof (aget_Some_lt _ _ _ Hnext) as Hlt.
  pose proof (aget_Some_lt _ _ _ Hrun) as Hlt'.
  exists (switched s ctxt c'). split.
  - apply SwitchHandler_Ok. cbv zeta. repeat split; try done.
    + by apply aget_is_Some.
    + eauto.
  - unfold switched. fields. repeat split; try done.
    + rewrite aget_aset_ne by done. apply aget_aset_eq. eauto.
    + apply aget_aset_eq. rewrite aget_aset_ne by done. eauto.
    + intros t Ht1 Ht2. by rewrite !aget_aset_ne by done.
    + apply aget_aset_eq. apply aget_aset_is_Some. eauto.
Qed.

Lemma SwitchHandler_switches_witness :
  (exists s',
     SwitchHandler 0 (ctx_of 1 1 102) st_two
     = Ok (ExecuteAt (resumed (ctx_of 0 0 200) 1 1)) s' /\
     aget (threadStates s') 0 = Some IDLE /\
     aget (threadStates s') 1 = Some RUNNING /\
     capturedThreads s' = 2 /\ curTid s' = 1 /\ executorTid s' = 0) /\
  (exists s',
     SwitchHandler 0 (ctx_of 1 1 102) st_two_armed
     = Ok (ExecuteAt (resumed (ctx_of 0 0 200) 1 1)) s' /\
     aget (threadStates s') 0 = Some BLOCKED /\
     aget (threadStates s') 1 = Some RUNNING /\
     capturedThreads s' = 1 /\ blockAfterSwitchcall s' = false /\
     curTid s' = 1 /\ executorTid s' = 0).
Proof.
  split.
  - destruct (SwitchHandler_switches 0 (ctx_of 1 1 102) st_two (ctx_of 0 0 200))
      as (s' & H & H0 & H1 & _ & Hn & _ & Hc & He & _);
      [apply inv_wf, reachable_inv, reachable_st_two
      | vm_compute; reflexivity | vm_compute; reflexivity
      | vm_compute; discriminate | vm_compute; reflexivity
      | vm_compute; reflexivity | vm_compute; reflexivity |].
    exists s'. repeat split; assumption.
  - destruct (SwitchHandler_switches 0 (ctx_of 1 1 102) st_two_armed
                (ctx_of 0 0 200))
      as (s' & H & H0 & H1 & _ & Hn & Hb & Hc & He & _);
      [apply inv_wf, reachable_inv, reachable_st_two_armed
      | vm_compute; reflexivity | vm_compute; reflexivity
      | vm_compute; discriminate | vm_compute; reflexivity
      | vm_compute; reflexivity | vm_compute; reflexivity |].
    exists s'. repeat split; assumption.
Defined.

(** C5, as the code has it.  [SwitchHandler] checks, in this order and each
    with a fatal diagnostic: that [executorReg] of the caller is 1 (panic);
    that the request does not name the current thread while the
    block-after-switch flag is armed (panic); that the caller is
    [executorTid] (assertion); that the request does not name the current
    thread (assertion); that the requested thread is below [MAX_THREADS] and
    [IDLE] (panic).  A request for the current thread is therefore never
    accepted: with the flag armed it panics, without it an assertion fails.
    Conversely, when the handler succeeds, the caller is the executor and
    the requested thread differs from [curTid] and was [IDLE].  The gate
    [NeedsSwitch] lets a request through exactly when it names another
    thread or the flag is armed. *)
Theorem SwitchHandler_preconditions tid ctxt s :
  let next := u32 (PIN_GetContextReg ctxt switchReg) in
  let executor := PIN_GetContextReg ctxt executorReg in
  (NeedsSwitch (PIN_GetContextReg ctxt switchReg) s <> 0 <->
   PIN_GetContextReg ctxt switchReg <> curTid s \/
   blockAfterSwitchcall s = true) /\
  (executor <> 1 -> SwitchHandler tid ctxt s = Fatal (Panic 295)) /\
  (executor = 1 -> blockAfterSwitchcall s = true -> next = curTid s ->
   SwitchHandler tid ctxt s = Fatal (Panic 298)) /\
  (executor = 1 -> ~ (blockAfterSwitchcall s = true /\ next = curTid s) ->
   executorTid s <> tid ->
   SwitchHandler tid ctxt s = Fatal (AssertFailed 301)) /\
  (executor = 1 -> blockAfterSwitchcall s = false -> executorTid s = tid ->
   next = curTid s ->
   SwitchHandler tid ctxt s = Fatal (AssertFailed 302)) /\
  (executor = 1 -> executorTid s = tid -> next <> curTid s ->
   curTid s <= MAX_THREADS -> MAX_THREADS <= next ->
   SwitchHandler tid ctxt s = Fatal (Panic 305)) /\
  (forall st, executor = 1 -> executorTid s = tid -> next <> curTid s ->
   curTid s <= MAX_THREADS ->
   aget (threadStates s) next = Some st -> st <> IDLE ->
   SwitchHandler tid ctxt s = Fatal (Panic 305)) /\
  (forall k s', SwitchHandler tid ctxt s = Ok k s' ->
   executor = 1 /\ executorTid s = tid /\ next <> curTid s /\
   aget (threadStates s) next = Some IDLE).
Proof.
  cbv zeta. split.
  { unfold NeedsSwitch.
    case_decide; destruct (blockAfterSwitchcall s); cbn; split; try done;
      try (by left); try (by right); intros [|]; done. }
  repeat split.
  - intros Her. unfold SwitchHandler. repeat mstep. reflexivity.
  - intros Her Hb Heq. unfold SwitchHandler. repeat mstep. reflexivity.
  - intros Her Hnb He. unfold SwitchHandler. repeat mstep.
    apply bind_Fatal, assert_False. done.
  - intros Her Hb He Heq. unfold SwitchHandler. do 4 mstep.
    rewrite decide_False by (intros [? _]; congruence).
    repeat mstep. apply bind_Fatal, assert_False. by intros ?.
  - intros Her He Hne Hle Hge. unfold SwitchHandler. repeat mstep.
    reflexivity.
  - intros st Her He Hne Hle Hst Hni. unfold SwitchHandler.
    pose proof (aget_Some_lt _ _ _ Hst).
    repeat mstep. reflexivity.
  - by apply SwitchHandler_Ok in H as (? & _).
  - by apply SwitchHandler_Ok in H as (_ & ? & _).
  - by apply SwitchHandler_Ok in H as (_ & _ & ? & _).
  - by apply SwitchHandler_Ok in H as (_ & _ & _ & ? & _).
Qed.

Lemma SwitchHandler_preconditions_witness :
  SwitchHandler 0 (ctx_of 1 0 102) st_two_armed = Fatal (Panic 298) /\
  SwitchHandler 0 (ctx_of 1 0 102) st_two = Fatal (AssertFailed 302) /\
  SwitchHandler 1 (ctx_of 0 1 102) st_two = Fatal (Panic 295).
Proof.
  split; [|split].
  - refine (proj1 (proj2 (proj2
      (SwitchHandler_preconditions 0 (ctx_of 1 0 102) st_two_armed))) _ _ _);
      vm_compute; reflexivity.
  - refine (proj1 (proj2 (proj2 (proj2 (proj2
      (SwitchHandler_preconditions 0 (ctx_of 1 0 102) st_two))))) _ _ _ _);
      vm_compute; reflexivity.
  - refine (proj1 (proj2
      (SwitchHandler_preconditions 1 (ctx_of 0 1 102) st_two)) _).
    vm_compute. discriminate.
Defined.

(** C5 as the specification states it does not hold: with the
    block-after-switch flag armed, a request that names the current thread
    passes [NeedsSwitch] but makes [SwitchHandler] panic.  Here thread 0 is the
    executor and the current thread, thread 1 is idle, the flag is armed and
    [switchReg] holds 0. *)
Lemma SwitchHandler_same_thread_when_armed_counterexample :
  blockAfterSwitchcall st_two_armed = true /\
  executorTid st_two_armed = 0 /\
  curTid st_two_armed = 0 /\
  u32 (PIN_GetContextReg (ctx_of 1 0 102) switchReg) = curTid st_two_armed /\
  NeedsSwitch (PIN_GetContextReg (ctx_of 1 0 102) switchReg) st_two_armed = 1 /\
  SwitchHandler 0 (ctx_of 1 0 102) st_two_armed = Fatal (Panic 298).
Proof. vm_compute. repeat split; reflexivity. Qed.

Lemma inv_first_capture s :
  inv s -> capturedThreads s = 0 -> curTid s = NO_TID.
Proof.
  intros Hinv Hn. destruct (inv_cur _ Hinv) as [(? & _) | Hrun]; [done|].
  destruct (inv_captured_pos _ Hinv) as [_ ?]; [eauto | lia].
Qed.

(** The capture of an uncaptured thread, as a step of [TraceGuard]. *)
Lemma TraceGuard_uncaptured_run cb tid ctxt s :
  inv s ->
  PIN_GetContextReg ctxt executorReg = 0 ->
  aget (threadStates s) tid = Some UNCAPTURED ->
  TraceGuard cb tid ctxt s
  = (TraceGuard_delayed_uncapture cb ;; TraceGuard_loop tid)
      (capture_result (set_contexts (aset (contexts s) tid ctxt) s) tid).
Proof.
  intros Hinv Her Hst. pose proof (aget_Some_lt _ _ _ Hst) as Hlt.
  unfold TraceGuard. do 3 mstep. rewrite decide_False by done.
  erewrite (bind_step (TraceGuard_capture tid) _ _ tt); [reflexivity|].
  apply TraceGuard_capture_Ok.
  split; [done|]. split; [|done]. fields.
  by apply inv_first_capture.
Qed.

(** C6.  When a thread whose state is [UNCAPTURED] enters [TraceGuard], the
    guard calls the capture callback with the thread and with the flag that
    says whether [capturedThreads] was 0, adds one to [capturedThreads] and
    makes the thread [IDLE]; if it is the first captured thread it is made
    [RUNNING] at once and becomes [curTid], which was none until then.  The
    guard then goes on, from that state, with the delayed uncapture and the
    wait for the executor role. *)
Theorem TraceGuard_captures cb tid ctxt s :
  let first := bool_decide (capturedThreads s = 0) in
  inv s ->
  PIN_GetContextReg ctxt executorReg = 0 ->
  aget (threadStates s) tid = Some UNCAPTURED ->
  exists s1,
    hookLog s1 = hookLog s ++ [CallCapture tid first] /\
    capturedThreads s1 = capturedThreads s + 1 /\
    aget (threadStates s1) tid = Some (if first then RUNNING else IDLE) /\
    (forall t, t <> tid -> aget (threadStates s1) t = aget (threadStates s) t) /\
    curTid s1 = (if first then tid else curTid s) /\
    (first = true -> curTid s = NO_TID) /\
    executorTid s1 = executorTid s /\
    executorInSyscall s1 = executorInSyscall s /\
    blockAfterSwitchcall s1 = blockAfterSwitchcall s /\
    TraceGuard cb tid ctxt s
    = (TraceGuard_delayed_uncapture cb ;; TraceGuard_loop tid) s1.
Proof.
  intros first Hinv Her Hst. subst first.
  pose proof (aget_Some_lt _ _ _ Hst) as Hlt.
  set (s0 := set_contexts (aset (contexts s) tid ctxt) s).
  assert (inv s0) as Hinv0.
  { apply (inv_frame s); subst s0; fields; rewrite ?length_aset; try done.
    by destruct Hinv as [[]]. }
  destruct (capture_result_inv s0 tid Hinv0 Hst) as [_ Hn].
  exists (capture_result s0 tid). repeat split; try done.
  - unfold capture_result. fields. apply aget_aset_eq. eauto.
  - intros t Ht. unfold capture_result. fields. by rewrite aget_aset_ne.
  - intros Hf%bool_decide_eq_true. by apply inv_first_capture.
  - by apply TraceGuard_uncaptured_run.
Qed.

Lemma TraceGuard_captures_witness :
  exists s1,
    hookLog s1 = hookLog st_started ++ [CallCapture 0 true] /\
    capturedThreads s1 = capturedThreads st_started + 1 /\
    aget (threadStates s1) 0 = Some RUNNING /\
    curTid s1 = 0 /\
    curTid st_started = NO_TID /\
    TraceGuard (pick 0) 0 (ctx_of 0 0 100) st_started
    = (TraceGuard_delayed_uncapture (pick 0) ;; TraceGuard_loop 0) s1.
Proof.
  destruct (TraceGuard_captures (pick 0) 0 (ctx_of 0 0 100) st_started)
    as (s1 & Hlog & Hn & Hst & _ & Hcur & Hno & _ & _ & _ & Hgo);
    [apply reachable_inv, reachable_st_started
    | vm_compute; reflexivity | vm_compute; reflexivity |].
  exists s1. repeat split; assumption.
Defined.

(** ** The deferred uncapture *)

Lemma sole_captured l i j st :
  countCaptured l = 1 -> aget l i = Some RUNNING -> j <> i ->
  aget l j = Some st -> captured st = false.
Proof.
  intros Hn Hi Hne Hj. destruct (captured st) eqn:Hc; [|done].
  pose proof (countCaptured_two l j i st RUNNING Hne Hj Hi Hc eq_refl). lia.
Qed.

(** The executor, the only captured thread, is about to make a system call. *)
Lemma SyscallGuard_sole_run cb ctxt s :
  inv s ->
  executorTid s = curTid s ->
  capturedThreads s = 1 ->
  executorInSyscall s = false ->
  SyscallGuard cb (curTid s) ctxt s
  = Ok (ExecuteAt (resumed ctxt 0 ADDRINT_MINUS_ONE)) (syscall_deferred s ctxt).
Proof.
  intros Hinv He Hn Hin.
  destruct (inv_cur _ Hinv) as [(_ & ? & _) | Hrun]; [lia|].
  pose proof (aget_Some_lt _ _ _ Hrun) as Hlt.
  destruct (aget_is_Some (contexts s) (curTid s)) as [c0 Hc0];
    [by destruct Hinv as [[]] | done |].
  unfold SyscallGuard. do 4 mstep.
  rewrite decide_False by (by intros ?).
  repeat mstep.
  f_equal. unfold syscall_deferred.
  apply State_eq; fields; rewrite ?aset_aset; reflexivity.
Qed.

(** The executor comes back from the system call before any other thread
    was captured: [TraceGuard] only clears the flag. *)
Lemma TraceGuard_running_run cb ctxt s :
  inv s ->
  PIN_GetContextReg ctxt executorReg = 0 ->
  aget (threadStates s) (curTid s) = Some RUNNING ->
  executorTid s = curTid s ->
  capturedThreads s = 1 ->
  TraceGuard cb (curTid s) ctxt s
  = Ok (ExecuteAt (resumed ctxt 1 (curTid s))) (trace_resumed s (curTid s) ctxt).
Proof.
  intros Hinv Her Hrun He Hn.
  pose proof (aget_Some_lt _ _ _ Hrun) as Hlt.
  destruct (aget_is_Some (contexts s) (curTid s)) as [c0 Hc0];
    [by destruct Hinv as [[]] | done |].
  unfold TraceGuard. repeat mstep.
  erewrite PIN_ExecuteAt_fwd by aget_solve.
  f_equal. unfold trace_resumed.
  apply State_eq; fields; rewrite ?aset_aset; reflexivity.
Qed.

Lemma TraceGuard_delayed_run cb tid ctxt c s :
  inv s ->
  executorInSyscall s = true ->
  executorTid s = curTid s ->
  capturedThreads s = 1 ->
  aget (threadStates s) (curTid s) = Some RUNNING ->
  aget (contexts s) (curTid s) = Some c ->
  PIN_GetContextReg ctxt executorReg = 0 ->
  aget (threadStates s) tid = Some UNCAPTURED ->
  cb (curTid s) c = tid ->
  TraceGuard cb tid ctxt s = TraceGuard_loop tid (delayed_uncaptured s tid ctxt c) /\
  TraceGuard_loop tid (delayed_uncaptured s tid ctxt c)
  = Ok (ExecuteAt (resumed ctxt 1 tid))
       (became_executor (delayed_uncaptured s tid ctxt c) tid ctxt).
Proof.
  intros Hinv Hin He Hn Hrun Hc Her Hst Hcb.
  pose proof (aget_Some_lt _ _ _ Hst) as Hlt.
  pose proof (aget_Some_lt _ _ _ Hrun) as Hlt'.
  pose proof (wf_threadStates _ (inv_wf _ Hinv)) as Hlen.
  pose proof (wf_contexts _ (inv_wf _ Hinv)) as Hlenc.
  assert (tid <> curTid s) as Hne by (by eapply aget_distinct).
  pose proof (aget_is_Some (contexts s) tid Hlenc Hlt) as Hsome.
  split.
  - rewrite TraceGuard_uncaptured_run by done.
    unfold capture_result. fields. rewrite Hn.
    rewrite bool_decide_eq_false_2 by done.
    unfold TraceGuard_delayed_uncapture. rewrite bind_assoc. mstep.
    rewrite Hin. cbn [when]. rewrite bind_assoc.
    do 5 mstep.
    assert (u32_incr 1 = 2) as Hinc by done.
    repeat mstep.
    erewrite (bind_step (UncaptureAndSwitch cb) _ _ tt);
      [|apply (UncaptureAndSwitch_run cb _ c); fields; rewrite ?Hcb;
        aget_solve].
    repeat mstep. unfold modify. f_equal.
    unfold delayed_uncaptured, uncaptured_and_switched.
    apply State_eq; fields; rewrite ?Hcb, ?Hinc; try reflexivity.
    by rewrite <- app_assoc.
  - unfold TraceGuard_loop, delayed_uncaptured. mstep.
    rewrite decide_False by (by intros ?).
    unfold TraceGuard_become_executor. repeat mstep.
    unfold became_executor. reflexivity.
Qed.

(** When the hook names any other thread, the delayed uncapture panics: the
    newly captured thread is the only idle one. *)
Lemma TraceGuard_delayed_panics cb tid ctxt c s :
  inv s ->
  executorInSyscall s = true ->
  executorTid s = curTid s ->
  capturedThreads s = 1 ->
  aget (threadStates s) (curTid s) = Some RUNNING ->
  aget (contexts s) (curTid s) = Some c ->
  PIN_GetContextReg ctxt executorReg = 0 ->
  aget (threadStates s) tid = Some UNCAPTURED ->
  cb (curTid s) c <> tid ->
  TraceGuard cb tid ctxt s
  = Fatal (Panic (if decide (MAX_THREADS <= cb (curTid s) c) then 132 else 134)).
Proof.
  intros Hinv Hin He Hn Hrun Hc Her Hst Hcb.
  pose proof (aget_Some_lt _ _ _ Hst) as Hlt.
  pose proof (aget_Some_lt _ _ _ Hrun) as Hlt'.
  pose proof (wf_threadStates _ (inv_wf _ Hinv)) as Hlen.
  pose proof (wf_contexts _ (inv_wf _ Hinv)) as Hlenc.
  assert (tid <> curTid s) as Hne by (by eapply aget_distinct).
  rewrite TraceGuard_uncaptured_run by done.
  unfold capture_result. fields. rewrite Hn.
  rewrite bool_decide_eq_false_2 by done.
  unfold TraceGuard_delayed_uncapture. rewrite bind_assoc. mstep.
  rewrite Hin. cbn [when]. rewrite bind_assoc.
  do 5 mstep.
  assert (u32_incr 1 = 2) as Hinc by done.
  repeat mstep.
  destruct (decide (MAX_THREADS <= cb (curTid s) c)) as [Hge | Hlt2].
  - apply bind_Fatal.
    apply (UncaptureAndSwitch_invalid cb _ c); fields; [aget_solve | done].
  - apply bind_Fatal.
    destruct (aget_is_Some (threadStates s) (cb (curTid s) c)) as [st Hnx];
      [done | lia |].
    apply (UncaptureAndSwitch_not_idle cb _ c st); fields; [aget_solve | |].
    + by rewrite aget_aset_ne.
    + destruct (decide (cb (curTid s) c = curTid s)) as [Heq | Hne2].
      * rewrite Heq in Hnx. congruence.
      * pose proof (sole_captured _ _ _ _
          (eq_trans (eq_sym (inv_count _ Hinv)) Hn) Hrun Hne2 Hnx) as Hcap.
        by intros ->.
Qed.

(** C3, as the code has it.  An uncapture never takes [capturedThreads]
    below 1: [UncaptureAndSwitch] succeeds only beside a second captured
    thread.  When the executor is about to block and is the only captured
    thread ([tid == curTid], [capturedThreads == 1]), [SyscallGuard] calls no
    uncapture callback and changes no thread state: it sets
    [executorInSyscall] and leaves [capturedThreads] at 1.  The deferred
    uncapture-and-switch is run by the next thread that enters [TraceGuard]
    in state [UNCAPTURED]: it is captured, the callback must hand the run to
    it, the blocked executor becomes [UNCAPTURED], [executorTid] and
    [executorInSyscall] are cleared, and the thread then takes the executor
    role itself.  If instead the blocked executor re-enters [TraceGuard]
    first, still [RUNNING], no uncapture-and-switch is run at all: the guard
    clears [executorInSyscall] and the thread goes on as the executor. *)
Theorem deferred_uncapture s :
  inv s ->
  (forall cb s', UncaptureAndSwitch cb s = Ok tt s' ->
     2 <= capturedThreads s /\ capturedThreads s' = capturedThreads s - 1) /\
  (forall cb ctxt,
     executorTid s = curTid s -> capturedThreads s = 1 ->
     executorInSyscall s = false ->
     SyscallGuard cb (curTid s) ctxt s
     = Ok (ExecuteAt (resumed ctxt 0 ADDRINT_MINUS_ONE)) (syscall_deferred s ctxt) /\
     capturedThreads (syscall_deferred s ctxt) = 1 /\
     executorInSyscall (syscall_deferred s ctxt) = true /\
     threadStates (syscall_deferred s ctxt) = threadStates s /\
     hookLog (syscall_deferred s ctxt) = hookLog s) /\
  (executorInSyscall s = true -> executorTid s = curTid s ->
   capturedThreads s = 1 ->
   aget (threadStates s) (curTid s) = Some RUNNING ->
   (forall cb tid ctxt c,
      PIN_GetContextReg ctxt executorReg = 0 ->
      aget (threadStates s) tid = Some UNCAPTURED ->
      aget (contexts s) (curTid s) = Some c ->
      let s2 := delayed_uncaptured s tid ctxt c in
      (cb (curTid s) c = tid ->
       TraceGuard cb tid ctxt s = TraceGuard_loop tid s2 /\
       aget (threadStates s2) (curTid s) = Some UNCAPTURED /\
       aget (threadStates s2) tid = Some RUNNING /\
       capturedThreads s2 = 1 /\
       executorTid s2 = NO_TID /\
       executorInSyscall s2 = false /\
       TraceGuard_loop tid s2
       = Ok (ExecuteAt (resumed ctxt 1 tid)) (became_executor s2 tid ctxt) /\
       executorTid (became_executor s2 tid ctxt) = tid) /\
      (cb (curTid s) c <> tid ->
       TraceGuard cb tid ctxt s
       = Fatal (Panic (if decide (MAX_THREADS <= cb (curTid s) c)
                       then 132 else 134)))) /\
   (forall cb ctxt,
      PIN_GetContextReg ctxt executorReg = 0 ->
      TraceGuard cb (curTid s) ctxt s
      = Ok (ExecuteAt (resumed ctxt 1 (curTid s)))
           (trace_resumed s (curTid s) ctxt) /\
      hookLog (trace_resumed s (curTid s) ctxt) = hookLog s /\
      threadStates (trace_resumed s (curTid s) ctxt) = threadStates s /\
      executorTid (trace_resumed s (curTid s) ctxt) = executorTid s /\
      capturedThreads (trace_resumed s (curTid s) ctxt) = 1 /\
      executorInSyscall (trace_resumed s (curTid s) ctxt) = false)).
Proof.
  intros Hinv. split; [|split].
  - intros cb s' (c & _ & Hnext & Hrun & ->)%UncaptureAndSwitch_Ok.
    by destruct (uncaptured_and_switched_inv s c _ Hinv Hnext Hrun)
      as (_ & ? & ?).
  - intros cb ctxt He Hn Hin. split; [by apply SyscallGuard_sole_run|].
    by unfold syscall_deferred.
  - intros Hin He Hn Hrun. split.
    + intros cb tid ctxt c Her Hst Hc s2. subst s2.
      pose proof (wf_threadStates _ (inv_wf _ Hinv)) as Hlen.
      assert (tid <> curTid s) as Hne by (by eapply aget_distinct).
      split.
      * intros Hcb.
        destruct (TraceGuard_delayed_run cb tid ctxt c s) as [H1 H2];
          try done.
        unfold delayed_uncaptured at 2 3 4 5 6. fields.
        repeat split; try done.
        -- rewrite aget_aset_ne by done. apply aget_aset_eq.
           apply aget_aset_is_Some. eauto.
        -- apply aget_aset_eq. do 2 apply aget_aset_is_Some. eauto.
      * intros Hcb. by apply TraceGuard_delayed_panics.
    + intros cb ctxt Her. split; [by apply TraceGuard_running_run|].
      by unfold trace_resumed.
Qed.

Lemma deferred_uncapture_witness :
  SyscallGuard (pick 0) (curTid st_one) (ctx_of 1 0 101) st_one
  = Ok (ExecuteAt (resumed (ctx_of 1 0 101) 0 ADDRINT_MINUS_ONE))
       (syscall_deferred st_one (ctx_of 1 0 101)) /\
  TraceGuard (pick 1) 1 (ctx_of 0 0 200) st_deferred_started
  = TraceGuard_loop 1
      (delayed_uncaptured st_deferred_started 1 (ctx_of 0 0 200)
         (resumed (ctx_of 1 0 101) 0 ADDRINT_MINUS_ONE)) /\
  TraceGuard (pick 0) (curTid st_deferred) (ctx_of 0 0 102) st_deferred
  = Ok (ExecuteAt (resumed (ctx_of 0 0 102) 1 (curTid st_deferred)))
       (trace_resumed st_deferred (curTid st_deferred) (ctx_of 0 0 102)).
Proof.
  split; [|split].
  - refine (proj1 (proj1 (proj2 (deferred_uncapture st_one _))
                     (pick 0) (ctx_of 1 0 101) _ _ _));
      [apply reachable_inv, reachable_st_one | vm_compute; reflexivity ..].
  - assert (inv st_deferred_started) as Hinv.
    { apply reachable_inv. eapply reachable_step; [apply reachable_st_deferred|].
      eapply (step_ThreadStart 1 (ctx_of 7 7 200)). vm_compute. reflexivity. }
    refine (proj1 (proj1 (proj1 (proj2 (proj2
              (deferred_uncapture st_deferred_started Hinv)) _ _ _ _)
              (pick 1) 1 (ctx_of 0 0 200)
              (resumed (ctx_of 1 0 101) 0 ADDRINT_MINUS_ONE) _ _ _) _));
      vm_compute; reflexivity.
  - refine (proj1 (proj2 (proj2 (proj2
              (deferred_uncapture st_deferred _)) _ _ _ _)
              (pick 0) (ctx_of 0 0 102) _));
      [apply reachable_inv, reachable_st_deferred | vm_compute; reflexivity ..].
Defined.

(** C3 as the specification states it does not hold: the next thread that
    enters [TraceGuard] after the uncapture was deferred can be the blocked
    executor itself, back from its system call.  Thread 0, the only captured
    thread, made a system call ([st_deferred]) and now re-enters the guard:
    no uncapture callback is called, the thread stays [RUNNING], and
    [executorTid] is not cleared. *)
Lemma blocked_executor_reenters_first_counterexample :
  sys_reachable sys_deferred /\
  prot sys_deferred = st_deferred /\
  ctl sys_deferred !! 0
  = Some (Live (resumed (ctx_of 1 0 101) 0 ADDRINT_MINUS_ONE)) /\
  RunTraceGuard
    (PIN_GetContextReg (resumed (ctx_of 1 0 101) 0 ADDRINT_MINUS_ONE) executorReg)
  = 1 /\
  executorInSyscall st_deferred = true /\
  TraceGuard (pick 0) 0 (ctx_of 0 0 102) st_deferred
  = Ok (ExecuteAt (resumed (ctx_of 0 0 102) 1 0))
       (trace_resumed st_deferred 0 (ctx_of 0 0 102)) /\
  hookLog (trace_resumed st_deferred 0 (ctx_of 0 0 102))
  = [CallThreadStart 0; CallCapture 0 true] /\
  aget (threadStates (trace_resumed st_deferred 0 (ctx_of 0 0 102))) 0
  = Some RUNNING /\
  executorTid (trace_resumed st_deferred 0 (ctx_of 0 0 102)) = 0 /\
  executorInSyscall (trace_resumed st_deferred 0 (ctx_of 0 0 102)) = false.
Proof.
  split; [exact sys_reachable_deferred|].
  split; [reflexivity|].
  split; [apply lookup_insert_eq|].
  vm_compute. repeat split; reflexivity.
Qed.

(** C10.  The claim, which is what the assertions of lines 162-164 and
    189-190 say, does not hold of the code.  [unblock] takes the lock and
    checks only that the thread is [BLOCKED], so the tool can call it while
    the executor is inside the system call whose uncapture was deferred.
    With two captured threads the tool blocks the idle thread 1, thread 0
    makes a system call as the only captured thread, and the tool unblocks
    thread 1: [executorInSyscall] is set, thread 0 is the executor, the
    current thread and [RUNNING], but [capturedThreads] is 2.  When thread 0
    comes back from its system call, still [RUNNING], [TraceGuard] fails the
    assertion of line 164; when a new thread is captured first, it fails
    the assertion of line 190. *)
Theorem unblock_during_deferred_syscall :
  sys_reachable sys_unblocked_in_syscall /\
  executorInSyscall (prot sys_unblocked_in_syscall) = true /\
  executorTid (prot sys_unblocked_in_syscall) = 0 /\
  curTid (prot sys_unblocked_in_syscall) = 0 /\
  aget (threadStates (prot sys_unblocked_in_syscall)) 0 = Some RUNNING /\
  aget (threadStates (prot sys_unblocked_in_syscall)) 1 = Some IDLE /\
  capturedThreads (prot sys_unblocked_in_syscall) = 2 /\
  ctl sys_unblocked_in_syscall !! 0
  = Some (Live (resumed (ctx_of 1 0 101) 0 ADDRINT_MINUS_ONE)) /\
  RunTraceGuard
    (PIN_GetContextReg (resumed (ctx_of 1 0 101) 0 ADDRINT_MINUS_ONE) executorReg)
  = 1 /\
  TraceGuard (pick 1) 0 (ctx_of 0 0 102) (prot sys_unblocked_in_syscall)
  = Fatal (AssertFailed 164) /\
  sys_reachable sys_unblocked_started /\
  ctl sys_unblocked_started !! 2
  = Some (Live (PIN_SetContextReg (ctx_of 7 7 300) executorReg 0)) /\
  TraceGuard (pick 2) 2 (ctx_of 0 0 300) (prot sys_unblocked_started)
  = Fatal (AssertFailed 190).
Proof.
  split; [exact sys_reachable_unblocked_in_syscall|].
  do 9 (split; [vm_compute; reflexivity|]).
  split; [exact sys_reachable_unblocked_started|].
  split; vm_compute; reflexivity.
Qed.

(** * Further properties of the code *)

(** ** The scenarios, continued *)

Lemma reachable_st_one_started : reachable st_one_started.
Proof.
  eapply reachable_step; [apply reachable_st_one|].
  eapply (step_ThreadStart 1 (ctx_of 7 7 200)). vm_compute. reflexivity.
Qed.

Lemma reachable_st_switched : reachable st_switched.
Proof.
  eapply reachable_step; [apply reachable_st_two|].
  eapply (step_SwitchHandler 0 (ctx_of 1 1 102)). vm_compute. reflexivity.
Qed.

Lemma reachable_st_switched_blocked : reachable st_switched_blocked.
Proof.
  eapply reachable_step; [apply reachable_st_two_armed|].
  eapply (step_SwitchHandler 0 (ctx_of 1 1 102)). vm_compute. reflexivity.
Qed.

Lemma reachable_st_handed : reachable st_handed.
Proof.
  eapply reachable_step; [apply reachable_st_two|].
  eapply (step_SyscallGuard (pick 1) 0 (ctx_of 1 0 101)). vm_compute. reflexivity.
Qed.

Lemma reachable_st_three : reachable st_three.
Proof.
  eapply reachable_step; [eapply reachable_step; [apply reachable_st_two|]|].
  - eapply (step_ThreadStart 2 (ctx_of 7 7 300)). vm_compute. reflexivity.
  - eapply (step_TraceGuard (pick 0) 2 (ctx_of 0 0 300)). vm_compute. reflexivity.
Qed.

Lemma sys_reachable_two_armed : sys_reachable sys_two_armed.
Proof.
  eapply sys_reachable_step; [apply sys_reachable_two|].
  apply (sys_blockAfterSwitch st_two_armed sys_two). vm_compute. reflexivity.
Qed.

Lemma sys_reachable_switched_blocked : sys_reachable sys_switched_blocked.
Proof.
  eapply sys_reachable_step; [apply sys_reachable_two_armed|].
  eapply (sys_SwitchHandler 0 _ (ctx_of 1 1 102)).
  - exact sys_two_executor.
  - reflexivity.
  - vm_compute. discriminate.
  - vm_compute. reflexivity.
Qed.

Lemma sys_reachable_handed : sys_reachable sys_handed.
Proof.
  eapply sys_reachable_step; [apply sys_reachable_two|].
  eapply (sys_SyscallGuard (pick 1) 0 _ (ctx_of 1 0 101)).
  - exact sys_two_executor.
  - reflexivity.
  - vm_compute. discriminate.
  - vm_compute. reflexivity.
Qed.

(** ** Arithmetic and arrays, continued *)

Lemma u32_incr_decr n : n < 2 ^ 32 -> u32_incr (u32_decr n) = n.
Proof.
  intros Hn. unfold u32_incr, u32_decr.
  destruct (decide (n = 0)) as [-> | Hne]; [done|].
  replace (n + (2 ^ 32 - 1)) with ((n - 1) + 1 * 2 ^ 32) by lia.
  rewrite N.Div0.mod_add. rewrite (N.mod_small (n - 1)) by lia.
  replace (n - 1 + 1) with n by lia. by apply N.mod_small.
Qed.

Lemma u32_decr_incr n : n < 2 ^ 32 -> u32_decr (u32_incr n) = n.
Proof.
  intros Hn. unfold u32_incr, u32_decr.
  destruct (decide (n = 2 ^ 32 - 1)) as [-> | Hne]; [done|].
  rewrite (N.mod_small (n + 1)) by lia.
  replace (n + 1 + (2 ^ 32 - 1)) with (n + 1 * 2 ^ 32) by lia.
  rewrite N.Div0.mod_add. by apply N.mod_small.
Qed.

Lemma aset_comm {A} (a : list A) i j x y :
  i <> j -> aset (aset a i x) j y = aset (aset a j y) i x.
Proof. intros Hne. unfold aset. apply list_insert_insert_ne. lia. Qed.

Lemma inv_cur_running s :
  inv s -> 1 <= capturedThreads s ->
  aget (threadStates s) (curTid s) = Some RUNNING.
Proof.
  intros Hinv Hn. destruct (inv_cur _ Hinv) as [(_ & ? & _) | ?]; [lia | done].
Qed.

Lemma inv_contexts_Some s i :
  inv s -> i < MAX_THREADS -> is_Some (aget (contexts s) i).
Proof. intros [[]] Hi. by apply aget_is_Some. Qed.

(** An idle thread sits beside the running one. *)
Lemma inv_idle_two s tid :
  inv s -> aget (threadStates s) tid = Some IDLE -> 2 <= capturedThreads s.
Proof.
  intros Hinv Hst. rewrite (inv_count _ Hinv).
  destruct (inv_cur _ Hinv) as [(_ & _ & Hall) | Hrun].
  - by apply Hall in Hst.
  - assert (curTid s <> tid) as Hne by (by eapply aget_distinct).
    by eapply (countCaptured_two _ (curTid s) tid).
Qed.

Lemma countCaptured_zero l t st :
  countCaptured l = 0 -> aget l t = Some st -> captured st = false.
Proof.
  intros Hn Ht. destruct (captured st) eqn:Hc; [|done].
  pose proof (countCaptured_pos l t st Ht Hc). lia.
Qed.

(** ** The start of a thread *)

(** X1.  [ThreadStart] calls the start callback and succeeds exactly when the
    thread is [UNCAPTURED]: any other state fails the assertion of line 106,
    and a thread id of [MAX_THREADS] or more indexes [threadStates] out of
    its bounds.  On success nothing of the executor state changes, and the
    context that the new thread starts with has [executorReg] cleared and
    the other registers as they were: on it [RunTraceGuard] fires and
    [RunSyscallGuard] does not, so that the first trace of the thread takes
    it to the capture. *)
Theorem ThreadStart_cases tid ctxt s :
  (forall st, aget (threadStates s) tid = Some st ->
     (st = UNCAPTURED ->
      ThreadStart tid ctxt s
      = Ok (PIN_SetContextReg ctxt executorReg 0)
           (set_hookLog (hookLog s ++ [CallThreadStart tid]) s)) /\
     (st <> UNCAPTURED -> ThreadStart tid ctxt s = Fatal (AssertFailed 106))) /\
  (MAX_THREADS <= tid -> ThreadStart tid ctxt s = Undef) /\
  (forall c s', ThreadStart tid ctxt s = Ok c s' ->
     RunTraceGuard (PIN_GetContextReg c executorReg) = 1 /\
     RunSyscallGuard (PIN_GetContextReg c executorReg) = 0 /\
     PIN_GetContextReg c switchReg = PIN_GetContextReg ctxt switchReg /\
     ctx_image c = ctx_image ctxt /\
     aget (threadStates s') tid = Some UNCAPTURED).
Proof.
  split; [|split].
  - intros st Hst. split.
    + intros ->. by apply ThreadStart_Ok.
    + intros Hne. unfold ThreadStart. repeat mstep.
      by apply bind_Fatal, assert_False.
  - intros Hge. unfold ThreadStart. mstep.
    unfold bind, threadStates_at, aget. fields.
    by rewrite decide_False by lia.
  - intros c s' (Hst & -> & ->)%ThreadStart_Ok. fields.
    repeat split; try done.
Qed.

Lemma ThreadStart_cases_witness :
  ThreadStart 0 (ctx_of 7 7 100) init
  = Ok (PIN_SetContextReg (ctx_of 7 7 100) executorReg 0)
       (set_hookLog (hookLog init ++ [CallThreadStart 0]) init) /\
  ThreadStart 0 (ctx_of 7 7 100) st_one = Fatal (AssertFailed 106) /\
  ThreadStart 4096 (ctx_of 7 7 100) init = Undef.
Proof.
  split; [|split].
  - refine (proj1 (proj1 (ThreadStart_cases 0 (ctx_of 7 7 100) init)
                     UNCAPTURED _) _); [vm_compute; reflexivity | reflexivity].
  - refine (proj2 (proj1 (ThreadStart_cases 0 (ctx_of 7 7 100) st_one)
                     RUNNING _) _); [vm_compute; reflexivity | discriminate].
  - refine (proj1 (proj2 (ThreadStart_cases 4096 (ctx_of 7 7 100) init)) _).
    vm_compute. discriminate.
Defined.

(** ** [TraceGuard] of an uncaptured thread *)

(** The state in which the loop of [TraceGuard] starts when no uncapture
    was pending. *)
Lemma TraceGuard_no_delay_run cb tid ctxt s :
  inv s ->
  PIN_GetContextReg ctxt executorReg = 0 ->
  aget (threadStates s) tid = Some UNCAPTURED ->
  executorInSyscall s = false ->
  TraceGuard cb tid ctxt s
  = TraceGuard_loop tid
      (capture_result (set_contexts (aset (contexts s) tid ctxt) s) tid).
Proof.
  intros Hinv Her Hst Hin.
  rewrite TraceGuard_uncaptured_run by done.
  unfold TraceGuard_delayed_uncapture. rewrite bind_assoc. mstep.
  unfold capture_result at 1. fields. rewrite Hin. cbn [when]. by mstep.
Qed.

Lemma TraceGuard_loop_park tid s :
  executorTid s <> NO_TID -> TraceGuard_loop tid s = Ok Parked s.
Proof. intros He. apply TraceGuard_loop_Ok. by left. Qed.

Lemma TraceGuard_loop_executor tid s c :
  executorTid s = NO_TID -> aget (contexts s) (curTid s) = Some c ->
  TraceGuard_loop tid s
  = Ok (ExecuteAt (resumed c 1 (curTid s))) (became_executor s tid c).
Proof. intros He Hc. apply TraceGuard_loop_Ok. right. eauto. Qed.

Lemma TraceGuard_loop_total tid s :
  inv s -> 1 <= capturedThreads s ->
  exists k s', TraceGuard_loop tid s = Ok k s'.
Proof.
  intros Hinv Hn. destruct (decide (executorTid s = NO_TID)) as [He | He].
  - pose proof (inv_cur_running s Hinv Hn) as Hrun.
    destruct (inv_contexts_Some s (curTid s) Hinv) as [c Hc];
      [by eapply aget_Some_lt|].
    eexists _, _. by apply TraceGuard_loop_executor.
  - eexists _, _. by apply TraceGuard_loop_park.
Qed.

Lemma capture_saved_inv s tid ctxt :
  inv s -> aget (threadStates s) tid = Some UNCAPTURED ->
  inv (capture_result (set_contexts (aset (contexts s) tid ctxt) s) tid) /\
  1 <= capturedThreads
         (capture_result (set_contexts (aset (contexts s) tid ctxt) s) tid).
Proof.
  intros Hinv Hst.
  assert (inv (set_contexts (aset (contexts s) tid ctxt) s)) as Hinv0.
  { apply (inv_frame s); fields; rewrite ?length_aset; try done.
    by destruct Hinv as [[]]. }
  destruct (capture_result_inv _ tid Hinv0 Hst) as [? ->]. fields.
  split; [done | lia].
Qed.

(** X2.  An [UNCAPTURED] thread enters [TraceGuard] while no uncapture is
    pending.  It is captured, and then: if there is an executor, it parks
    on its wait lock, idle; if there is none and it is the first captured
    thread, it becomes the executor and resumes its own code, [RUNNING]; if
    there is none but a thread is captured already, it becomes the executor
    and resumes the current logical thread, not its own, which stays
    [IDLE]. *)
Theorem TraceGuard_uncaptured_outcomes cb tid ctxt s :
  let s1 := capture_result (set_contexts (aset (contexts s) tid ctxt) s) tid in
  inv s ->
  PIN_GetContextReg ctxt executorReg = 0 ->
  aget (threadStates s) tid = Some UNCAPTURED ->
  executorInSyscall s = false ->
  (executorTid s <> NO_TID ->
   TraceGuard cb tid ctxt s = Ok Parked s1 /\
   executorTid s1 = executorTid s /\
   (1 <= capturedThreads s -> aget (threadStates s1) tid = Some IDLE)) /\
  (executorTid s = NO_TID -> capturedThreads s = 0 ->
   TraceGuard cb tid ctxt s
   = Ok (ExecuteAt (resumed ctxt 1 tid)) (became_executor s1 tid ctxt) /\
   aget (threadStates (became_executor s1 tid ctxt)) tid = Some RUNNING /\
   curTid (became_executor s1 tid ctxt) = tid /\
   executorTid (became_executor s1 tid ctxt) = tid /\
   capturedThreads (became_executor s1 tid ctxt) = 1) /\
  (executorTid s = NO_TID -> 1 <= capturedThreads s ->
   exists c, aget (contexts s) (curTid s) = Some c /\
     curTid s <> tid /\
     TraceGuard cb tid ctxt s
     = Ok (ExecuteAt (resumed c 1 (curTid s))) (became_executor s1 tid c) /\
     aget (threadStates (became_executor s1 tid c)) tid = Some IDLE /\
     aget (threadStates (became_executor s1 tid c)) (curTid s) = Some RUNNING /\
     curTid (became_executor s1 tid c) = curTid s /\
     executorTid (became_executor s1 tid c) = tid).
Proof.
  intros s1 Hinv Her Hst Hin. subst s1.
  pose proof (aget_Some_lt _ _ _ Hst) as Hlt.
  pose proof (wf_threadStates _ (inv_wf _ Hinv)) as Hlen.
  pose proof (TraceGuard_no_delay_run cb tid ctxt s Hinv Her Hst Hin) as Hgo.
  destruct (inv_contexts_Some s tid Hinv Hlt) as [c0 Hc0].
  split; [|split].
  - intros He. rewrite Hgo. split; [by apply TraceGuard_loop_park|].
    split; [done|]. intros Hn. unfold capture_result. fields.
    rewrite bool_decide_eq_false_2 by lia. apply aget_aset_eq. eauto.
  - intros He Hn. rewrite Hgo.
    rewrite (TraceGuard_loop_executor tid _ ctxt); try done;
      unfold capture_result, became_executor; fields;
      rewrite ?bool_decide_eq_true_2 by done; try done.
    + repeat split; try done.
      * apply aget_aset_eq. eauto.
      * by rewrite Hn.
    + apply aget_aset_eq. eauto.
  - intros He Hn.
    pose proof (inv_cur_running s Hinv Hn) as Hrun.
    assert (curTid s <> tid) as Hne by (by eapply aget_distinct).
    destruct (inv_contexts_Some s (curTid s) Hinv) as [c Hc];
      [by eapply aget_Some_lt|].
    exists c. split; [done|]. split; [done|]. rewrite Hgo.
    rewrite (TraceGuard_loop_executor tid _ c); try done;
      unfold capture_result, became_executor; fields;
      rewrite ?bool_decide_eq_false_2 by lia; try done.
    + repeat split; try done.
      * apply aget_aset_eq. eauto.
      * by rewrite aget_aset_ne.
    + by rewrite aget_aset_ne.
Qed.

Lemma TraceGuard_uncaptured_outcomes_witness :
  TraceGuard (pick 0) 0 (ctx_of 0 0 100) st_started
  = Ok (ExecuteAt (resumed (ctx_of 0 0 100) 1 0))
       (became_executor
          (capture_result
             (set_contexts (aset (contexts st_started) 0 (ctx_of 0 0 100))
                st_started) 0)
          0 (ctx_of 0 0 100)) /\
  TraceGuard (pick 0) 1 (ctx_of 0 0 200) st_one_started
  = Ok Parked
       (capture_result
          (set_contexts (aset (contexts st_one_started) 1 (ctx_of 0 0 200))
             st_one_started) 1).
Proof.
  split.
  - refine (proj1 (proj1 (proj2
      (TraceGuard_uncaptured_outcomes (pick 0) 0 (ctx_of 0 0 100) st_started
         (reachable_inv _ reachable_st_started) _ _ _)) _ _));
      vm_compute; reflexivity.
  - refine (proj1 (proj1
      (TraceGuard_uncaptured_outcomes (pick 0) 1 (ctx_of 0 0 200)
         st_one_started (reachable_inv _ reachable_st_one_started) _ _ _) _));
      [vm_compute; reflexivity .. | vm_compute; discriminate].
Defined.

(** ** The wake-up in the loop of [TraceGuard] *)

Lemma TraceGuard_wakeup_syscall tid s c :
  aget (threadStates s) tid = Some UNCAPTURED ->
  aget (contexts s) tid = Some c ->
  TraceGuard_wakeup tid s
  = Ok (ExecuteAt (resumed c 0 ADDRINT_MINUS_ONE)) (took_syscall s tid c).
Proof.
  intros Hst Hc. unfold TraceGuard_wakeup. repeat mstep. reflexivity.
Qed.

Lemma TraceGuard_wakeup_spurious tid s st :
  aget (threadStates s) tid = Some st -> st <> UNCAPTURED ->
  executorTid s <> NO_TID ->
  TraceGuard_wakeup tid s = Ok Parked s.
Proof.
  intros Hst Hne He. unfold TraceGuard_wakeup. repeat mstep.
  unfold TraceGuard_loop. repeat mstep. reflexivity.
Qed.

Lemma TraceGuard_wakeup_executor tid s st c :
  aget (threadStates s) tid = Some st -> st <> UNCAPTURED ->
  executorTid s = NO_TID ->
  aget (contexts s) (curTid s) = Some c ->
  TraceGuard_wakeup tid s
  = Ok (ExecuteAt (resumed c 1 (curTid s))) (became_executor s tid c).
Proof.
  intros Hst Hne He Hc. unfold TraceGuard_wakeup. repeat mstep.
  apply TraceGuard_become_executor_Ok. eauto.
Qed.

Lemma TraceGuard_wakeup_no_thread tid s st :
  aget (threadStates s) tid = Some st -> st <> UNCAPTURED ->
  executorTid s = NO_TID -> MAX_THREADS <= curTid s ->
  TraceGuard_wakeup tid s = Fatal (AssertFailed 227).
Proof.
  intros Hst Hne He Hge. unfold TraceGuard_wakeup. repeat mstep.
  unfold TraceGuard_become_executor. repeat mstep.
  apply bind_Fatal, assert_False. lia.
Qed.

(** X3.  A thread that wakes up inside the loop of [TraceGuard] looks at its
    own state.  If it is [UNCAPTURED], a system call of its own was shipped
    to it: it leaves the guard for its saved context with [executorReg] 0
    and [switchReg] -1.  Otherwise, if there is an executor, the wake-up was
    spurious: it parks again and nothing has changed.  Otherwise it takes
    the executor role and resumes the current logical thread; should there
    be no current thread, the assertion of line 227 fails. *)
Theorem TraceGuard_wakeup_cases tid s st :
  aget (threadStates s) tid = Some st ->
  (forall c, st = UNCAPTURED -> aget (contexts s) tid = Some c ->
     TraceGuard_wakeup tid s
     = Ok (ExecuteAt (resumed c 0 ADDRINT_MINUS_ONE)) (took_syscall s tid c)) /\
  (st <> UNCAPTURED -> executorTid s <> NO_TID ->
   TraceGuard_wakeup tid s = Ok Parked s) /\
  (forall c, st <> UNCAPTURED -> executorTid s = NO_TID ->
     aget (contexts s) (curTid s) = Some c ->
     TraceGuard_wakeup tid s
     = Ok (ExecuteAt (resumed c 1 (curTid s))) (became_executor s tid c)) /\
  (st <> UNCAPTURED -> executorTid s = NO_TID -> MAX_THREADS <= curTid s ->
   TraceGuard_wakeup tid s = Fatal (AssertFailed 227)).
Proof.
  intros Hst. repeat split.
  - intros c -> Hc. by apply TraceGuard_wakeup_syscall.
  - intros. by eapply TraceGuard_wakeup_spurious.
  - intros c. intros. by eapply TraceGuard_wakeup_executor.
  - intros. by eapply TraceGuard_wakeup_no_thread.
Qed.

Lemma TraceGuard_wakeup_cases_witness :
  TraceGuard_wakeup 1 st_two = Ok Parked st_two.
Proof.
  refine (proj1 (proj2 (TraceGuard_wakeup_cases 1 st_two IDLE _)) _ _);
    [vm_compute; reflexivity | discriminate | vm_compute; discriminate].
Defined.

(** ** [SyscallGuard], forwards *)

Lemma SyscallGuard_not_executor cb tid ctxt s :
  executorTid s <> tid -> SyscallGuard cb tid ctxt s = Fatal (AssertFailed 244).
Proof.
  intros He. unfold SyscallGuard. mstep. apply bind_Fatal, assert_False. done.
Qed.

Lemma SyscallGuard_no_thread cb tid ctxt s :
  executorTid s = tid -> MAX_THREADS <= curTid s ->
  SyscallGuard cb tid ctxt s = Undef.
Proof.
  intros He Hge. unfold SyscallGuard. do 3 mstep.
  unfold bind, PIN_SaveContext. rewrite decide_False by lia. done.
Qed.

Lemma SyscallGuard_too_few cb tid ctxt s :
  executorTid s = tid -> curTid s < MAX_THREADS -> curTid s <> tid ->
  capturedThreads s < 2 ->
  SyscallGuard cb tid ctxt s = Fatal (AssertFailed 250).
Proof.
  intros He Hlt Hne Hn. unfold SyscallGuard. do 4 mstep.
  rewrite decide_True by done. mstep.
  apply bind_Fatal, assert_False. lia.
Qed.

Lemma SyscallGuard_nested cb ctxt s :
  executorTid s = curTid s -> curTid s < MAX_THREADS ->
  capturedThreads s < 2 -> executorInSyscall s = true ->
  SyscallGuard cb (curTid s) ctxt s = Fatal (AssertFailed 275).
Proof.
  intros He Hlt Hn Hin. unfold SyscallGuard. do 4 mstep.
  rewrite decide_False by (by intros ?). repeat mstep.
  apply bind_Fatal, assert_False. by rewrite Hin.
Qed.

Lemma SyscallGuard_ship_run cb tid ctxt s c' :
  let next := cb (curTid s) ctxt in
  wf_State s ->
  executorTid s = tid -> curTid s <> tid -> 2 <= capturedThreads s ->
  aget (threadStates s) (curTid s) = Some RUNNING ->
  aget (threadStates s) next = Some IDLE ->
  aget (contexts s) next = Some c' ->
  SyscallGuard cb tid ctxt s
  = Ok (ExecuteAt (resumed c' 1 next)) (syscall_shipped s ctxt c' next).
Proof.
  intros next Hwf He Hne Hn Hrun Hnext Hc'. subst next.
  pose proof (aget_Some_lt _ _ _ Hrun) as Hlt.
  pose proof (aget_Some_lt _ _ _ Hnext) as Hlt'.
  assert (curTid s <> cb (curTid s) ctxt) as Hne' by (by eapply aget_distinct).
  destruct (aget_is_Some (contexts s) (curTid s)) as [c0 Hc0];
    [by destruct Hwf | done |].
  unfold SyscallGuard. do 4 mstep.
  rewrite decide_True by done. do 2 mstep.
  erewrite (bind_step (UncaptureAndSwitch cb) _ _ tt);
    [|apply (UncaptureAndSwitch_run cb _ ctxt); fields; aget_solve].
  unfold uncaptured_and_switched. fields.
  repeat mstep. reflexivity.
Qed.

Lemma SyscallGuard_hand_over_run cb ctxt s :
  let next := cb (curTid s) ctxt in
  wf_State s ->
  executorTid s = curTid s -> 2 <= capturedThreads s ->
  aget (threadStates s) (curTid s) = Some RUNNING ->
  aget (threadStates s) next = Some IDLE ->
  SyscallGuard cb (curTid s) ctxt s
  = Ok (ExecuteAt (resumed ctxt 0 ADDRINT_MINUS_ONE))
       (syscall_handed_over s ctxt next).
Proof.
  intros next Hwf He Hn Hrun Hnext. subst next.
  pose proof (aget_Some_lt _ _ _ Hrun) as Hlt.
  pose proof (aget_Some_lt _ _ _ Hnext) as Hlt'.
  assert (curTid s <> cb (curTid s) ctxt) as Hne' by (by eapply aget_distinct).
  destruct (aget_is_Some (contexts s) (curTid s)) as [c0 Hc0];
    [by destruct Hwf | done |].
  unfold SyscallGuard. do 4 mstep.
  rewrite decide_False by (by intros ?). do 3 mstep.
  erewrite (bind_step (UncaptureAndSwitch cb) _ _ tt);
    [|apply (UncaptureAndSwitch_run cb _ ctxt); fields; aget_solve].
  unfold uncaptured_and_switched. fields.
  repeat mstep.
  f_equal. unfold syscall_handed_over.
  apply State_eq; fields; rewrite ?aset_aset; reflexivity.
Qed.

(** With a second captured thread the guard runs the uncapture callback;
    an answer that is not an idle thread is fatal. *)
Lemma SyscallGuard_uncapture_panics cb tid ctxt s :
  let next := cb (curTid s) ctxt in
  wf_State s ->
  executorTid s = tid -> curTid s < MAX_THREADS -> 2 <= capturedThreads s ->
  aget (threadStates s) next <> Some IDLE ->
  SyscallGuard cb tid ctxt s
  = Fatal (Panic (if decide (MAX_THREADS <= next) then 132 else 134)).
Proof.
  intros next Hwf He Hlt Hn Hnext. subst next.
  destruct (aget_is_Some (contexts s) (curTid s)) as [c0 Hc0];
    [by destruct Hwf | done |].
  assert (UncaptureAndSwitch cb
            (set_contexts (aset (contexts s) (curTid s) ctxt) s)
          = Fatal (Panic (if decide (MAX_THREADS <= cb (curTid s) ctxt)
                          then 132 else 134))) as Hu.
  { case_decide as Hge.
    - apply (UncaptureAndSwitch_invalid cb _ ctxt); fields; [aget_solve|done].
    - destruct (aget_is_Some (threadStates s) (cb (curTid s) ctxt)) as [st Hst];
        [by destruct Hwf | lia |].
      apply (UncaptureAndSwitch_not_idle cb _ ctxt st); fields;
        [aget_solve | done | congruence]. }
  unfold SyscallGuard. do 4 mstep.
  destruct (decide (curTid s <> tid)) as [Hne | Heq].
  - do 2 mstep. by apply bind_Fatal.
  - do 3 mstep. by apply bind_Fatal.
Qed.

(** X4.  The executor runs another thread's code and meets a system call
    (case 1 of [SyscallGuard]).  The guard saves the context at the system
    call as the context of that thread, the owner; uncaptures the owner and
    switches to the thread that the callback names; frees the owner's wait
    lock; and goes on, as the executor, with the named thread.  The owner
    then takes its wait lock, finds itself [UNCAPTURED], and leaves the
    guard for the very context that the executor saved, with [executorReg]
    0: the system call is made by the thread it belongs to, and the thread
    states, the current thread and the executor are not touched by the
    wake-up. *)
Theorem syscall_shipped_to_owner cb tid ctxt s :
  let owner := curTid s in
  let next := cb (curTid s) ctxt in
  inv s ->
  executorTid s = tid -> curTid s <> tid -> curTid s < MAX_THREADS ->
  2 <= capturedThreads s ->
  aget (threadStates s) next = Some IDLE ->
  exists c' s1 s2 s3,
    aget (contexts s) next = Some c' /\
    SyscallGuard cb tid ctxt s = Ok (ExecuteAt (resumed c' 1 next)) s1 /\
    hookLog s1 = hookLog s ++ [CallUncapture owner ctxt next] /\
    aget (threadStates s1) owner = Some UNCAPTURED /\
    aget (threadStates s1) next = Some RUNNING /\
    capturedThreads s1 = capturedThreads s - 1 /\
    curTid s1 = next /\ executorTid s1 = tid /\
    waitLocks_lock owner s1 = Some s2 /\
    TraceGuard_wakeup owner s2
    = Ok (ExecuteAt (resumed ctxt 0 ADDRINT_MINUS_ONE)) s3 /\
    threadStates s3 = threadStates s1 /\
    curTid s3 = next /\ executorTid s3 = tid /\
    capturedThreads s3 = capturedThreads s1.
Proof.
  intros owner next Hinv He Hne Hlt Hn Hnext. subst owner next.
  pose proof (inv_wf _ Hinv) as Hwf.
  assert (1 <= capturedThreads s) as H1 by lia.
  pose proof (inv_cur_running s Hinv H1) as Hrun.
  pose proof (aget_Some_lt _ _ _ Hnext) as Hlt'.
  assert (curTid s <> cb (curTid s) ctxt) as Hne' by (by eapply aget_distinct).
  destruct (inv_contexts_Some s (cb (curTid s) ctxt) Hinv Hlt') as [c' Hc'].
  destruct (inv_contexts_Some s (curTid s) Hinv Hlt) as [c0 Hc0].
  destruct (aget_is_Some (waitLocks s) (curTid s)) as [w Hw];
    [by destruct Hwf | done |].
  set (s1 := syscall_shipped s ctxt c' (cb (curTid s) ctxt)).
  set (s2 := set_waitLocks (aset (waitLocks s1) (curTid s) true) s1).
  exists c', s1, s2, (took_syscall s2 (curTid s) ctxt).
  split; [done|].
  split; [by apply SyscallGuard_ship_run|].
  assert (aget (threadStates s1) (curTid s) = Some UNCAPTURED) as Hu.
  { unfold s1, syscall_shipped. fields. rewrite aget_aset_ne by done.
    apply aget_aset_eq. eauto. }
  split; [done|]. split; [done|].
  split; [unfold s1, syscall_shipped; fields;
          apply aget_aset_eq, aget_aset_is_Some; eauto|].
  split; [unfold s1, syscall_shipped; fields;
          apply u32_decr_small; [lia | by destruct Hwf]|].
  split; [done|]. split; [done|].
  split.
  { apply waitLocks_lock_Some. split; [|done].
    unfold s1, syscall_shipped. fields. apply aget_aset_eq. eauto. }
  split; [|done].
  apply TraceGuard_wakeup_syscall; [done|].
  unfold s2, s1, syscall_shipped. fields. rewrite aget_aset_ne by done.
  apply aget_aset_eq. eauto.
Qed.

Lemma syscall_shipped_to_owner_witness :
  exists c' s1 s2 s3,
    SyscallGuard (pick 0) 0 (ctx_of 1 1 103) st_switched
    = Ok (ExecuteAt (resumed c' 1 0)) s1 /\
    aget (threadStates s1) 1 = Some UNCAPTURED /\
    waitLocks_lock 1 s1 = Some s2 /\
    TraceGuard_wakeup 1 s2
    = Ok (ExecuteAt (resumed (ctx_of 1 1 103) 0 ADDRINT_MINUS_ONE)) s3.
Proof.
  destruct (syscall_shipped_to_owner (pick 0) 0 (ctx_of 1 1 103) st_switched)
    as (c' & s1 & s2 & s3 & _ & H1 & _ & H2 & _ & _ & _ & _ & H3 & H4 & _);
    [apply reachable_inv, reachable_st_switched
    | vm_compute; reflexivity | vm_compute; discriminate
    | vm_compute; reflexivity | vm_compute; discriminate
    | vm_compute; reflexivity |].
  exists c', s1, s2, s3. repeat split; assumption.
Defined.

(** X5.  The executor meets a system call of its own while another thread
    is captured (case 2 of [SyscallGuard]).  The guard uncaptures the
    executor's thread and switches to the thread that the callback names,
    gives up the executor role, frees the wait lock of the named thread and
    leaves for the system call with [executorReg] 0.  The named thread then
    takes its wait lock, finds the executor role vacant, takes it, and
    resumes its own saved context with [executorReg] 1. *)
Theorem syscall_hands_executor_over cb ctxt s :
  let tid := curTid s in
  let next := cb (curTid s) ctxt in
  inv s ->
  executorTid s = curTid s -> curTid s < MAX_THREADS ->
  2 <= capturedThreads s ->
  aget (threadStates s) next = Some IDLE ->
  exists c' s1 s2 s3,
    aget (contexts s) next = Some c' /\
    SyscallGuard cb tid ctxt s
    = Ok (ExecuteAt (resumed ctxt 0 ADDRINT_MINUS_ONE)) s1 /\
    hookLog s1 = hookLog s ++ [CallUncapture tid ctxt next] /\
    aget (threadStates s1) tid = Some UNCAPTURED /\
    aget (threadStates s1) next = Some RUNNING /\
    capturedThreads s1 = capturedThreads s - 1 /\
    curTid s1 = next /\ executorTid s1 = NO_TID /\
    waitLocks_lock next s1 = Some s2 /\
    TraceGuard_wakeup next s2 = Ok (ExecuteAt (resumed c' 1 next)) s3 /\
    threadStates s3 = threadStates s1 /\
    curTid s3 = next /\ executorTid s3 = next /\
    capturedThreads s3 = capturedThreads s1.
Proof.
  intros tid next Hinv He Hlt Hn Hnext. subst tid next.
  pose proof (inv_wf _ Hinv) as Hwf.
  assert (1 <= capturedThreads s) as H1 by lia.
  pose proof (inv_cur_running s Hinv H1) as Hrun.
  pose proof (aget_Some_lt _ _ _ Hnext) as Hlt'.
  assert (curTid s <> cb (curTid s) ctxt) as Hne' by (by eapply aget_distinct).
  destruct (inv_contexts_Some s (cb (curTid s) ctxt) Hinv Hlt') as [c' Hc'].
  destruct (inv_contexts_Some s (curTid s) Hinv Hlt) as [c0 Hc0].
  destruct (aget_is_Some (waitLocks s) (cb (curTid s) ctxt)) as [w Hw];
    [by destruct Hwf | done |].
  set (s1 := syscall_handed_over s ctxt (cb (curTid s) ctxt)).
  set (s2 := set_waitLocks (aset (waitLocks s1) (cb (curTid s) ctxt) true) s1).
  exists c', s1, s2, (became_executor s2 (cb (curTid s) ctxt) c').
  split; [done|].
  split; [by apply SyscallGuard_hand_over_run|].
  assert (aget (threadStates s1) (cb (curTid s) ctxt) = Some RUNNING) as Hr.
  { unfold s1, syscall_handed_over. fields.
    apply aget_aset_eq, aget_aset_is_Some. eauto. }
  split; [done|].
  split; [unfold s1, syscall_handed_over; fields;
          rewrite aget_aset_ne by done; apply aget_aset_eq; eauto|].
  split; [done|].
  split; [unfold s1, syscall_handed_over; fields;
          apply u32_decr_small; [lia | by destruct Hwf]|].
  split; [done|]. split; [done|].
  split.
  { apply waitLocks_lock_Some. split; [|done].
    unfold s1, syscall_handed_over. fields. apply aget_aset_eq. eauto. }
  split; [|done].
  assert (aget (contexts s2) (curTid s2) = Some c') as Hc2.
  { unfold s2, s1, syscall_handed_over. fields. by rewrite aget_aset_ne. }
  exact (TraceGuard_wakeup_executor (cb (curTid s) ctxt) s2 RUNNING c'
           Hr ltac:(done) eq_refl Hc2).
Qed.

Lemma syscall_hands_executor_over_witness :
  exists c' s1 s2 s3,
    SyscallGuard (pick 1) 0 (ctx_of 1 0 101) st_two
    = Ok (ExecuteAt (resumed (ctx_of 1 0 101) 0 ADDRINT_MINUS_ONE)) s1 /\
    executorTid s1 = NO_TID /\
    waitLocks_lock 1 s1 = Some s2 /\
    TraceGuard_wakeup 1 s2 = Ok (ExecuteAt (resumed c' 1 1)) s3 /\
    executorTid s3 = 1.
Proof.
  destruct (syscall_hands_executor_over (pick 1) (ctx_of 1 0 101) st_two)
    as (c' & s1 & s2 & s3 & _ & H1 & _ & _ & _ & _ & _ & H2 & H3 & H4 & _ & _
        & H5 & _);
    [apply reachable_inv, reachable_st_two
    | vm_compute; reflexivity | vm_compute; reflexivity
    | vm_compute; discriminate | vm_compute; reflexivity |].
  exists c', s1, s2, s3. repeat split; assumption.
Defined.

(** X6.  The ways in which [SyscallGuard] fails.  A caller that is not the
    executor fails the assertion of line 244.  With no current thread the
    guard writes [contexts] out of its bounds.  When the executor runs
    another thread's code and fewer than two threads are captured, the
    assertion of line 250 fails: the system call cannot be shipped.  When
    the executor is alone and an uncapture is already deferred, the
    assertion of line 275 fails.  With two captured threads or more, an
    answer of the uncapture callback that is not an idle thread is a
    panic. *)
Theorem SyscallGuard_failures cb tid ctxt s :
  (executorTid s <> tid ->
   SyscallGuard cb tid ctxt s = Fatal (AssertFailed 244)) /\
  (executorTid s = tid -> MAX_THREADS <= curTid s ->
   SyscallGuard cb tid ctxt s = Undef) /\
  (executorTid s = tid -> curTid s < MAX_THREADS -> curTid s <> tid ->
   capturedThreads s < 2 ->
   SyscallGuard cb tid ctxt s = Fatal (AssertFailed 250)) /\
  (executorTid s = tid -> curTid s < MAX_THREADS -> curTid s = tid ->
   capturedThreads s < 2 -> executorInSyscall s = true ->
   SyscallGuard cb tid ctxt s = Fatal (AssertFailed 275)) /\
  (wf_State s -> executorTid s = tid -> curTid s < MAX_THREADS ->
   2 <= capturedThreads s ->
   aget (threadStates s) (cb (curTid s) ctxt) <> Some IDLE ->
   SyscallGuard cb tid ctxt s
   = Fatal (Panic (if decide (MAX_THREADS <= cb (curTid s) ctxt)
                   then 132 else 134))).
Proof.
  repeat split.
  - apply SyscallGuard_not_executor.
  - apply SyscallGuard_no_thread.
  - apply SyscallGuard_too_few.
  - intros He Hlt Heq Hn Hin. subst tid. rewrite <- Heq.
    apply SyscallGuard_nested; congruence.
  - intros. by apply SyscallGuard_uncapture_panics.
Qed.

Lemma SyscallGuard_failures_witness :
  SyscallGuard (pick 0) 1 (ctx_of 1 0 101) st_two = Fatal (AssertFailed 244) /\
  SyscallGuard (pick 0) 0 (ctx_of 1 1 103) st_switched_blocked
  = Fatal (AssertFailed 250) /\
  SyscallGuard (pick 0) 0 (ctx_of 1 0 101) st_two = Fatal (Panic 134).
Proof.
  split; [|split].
  - refine (proj1 (SyscallGuard_failures (pick 0) 1 (ctx_of 1 0 101) st_two) _).
    vm_compute. discriminate.
  - refine (proj1 (proj2 (proj2
      (SyscallGuard_failures (pick 0) 0 (ctx_of 1 1 103) st_switched_blocked)))
      _ _ _ _);
      [vm_compute; reflexivity | vm_compute; reflexivity
      | vm_compute; discriminate | vm_compute; reflexivity].
  - refine (proj2 (proj2 (proj2 (proj2
      (SyscallGuard_failures (pick 0) 0 (ctx_of 1 0 101) st_two))))
      (inv_wf _ (reachable_inv _ reachable_st_two)) _ _ _ _);
      [vm_compute; reflexivity | vm_compute; reflexivity
      | vm_compute; discriminate | vm_compute; discriminate].
Defined.

(** ** The exits of the guards *)

Lemma TraceGuard_loop_exit tid s c s' :
  TraceGuard_loop tid s = Ok (ExecuteAt c) s' -> executor_exit tid c s'.
Proof.
  intros [(_ & [=] & _) | (_ & c0 & Hc0 & [= ->] & ->)]%TraceGuard_loop_Ok.
  unfold executor_exit, became_executor. fields.
  repeat split; try done. apply aget_aset_eq. eauto.
Qed.

Lemma TraceGuard_exit cb tid ctxt s c s' :
  wf_State s ->
  TraceGuard cb tid ctxt s = Ok (ExecuteAt c) s' -> executor_exit tid c s'.
Proof.
  intros Hwf H.
  apply TraceGuard_Ok in H
    as (_ & [(Hst & He & Hcur & _ & [= ->] & ->) | (_ & _ & s2 & _ & Hl)]).
  - unfold executor_exit, trace_resumed. fields. rewrite Hcur.
    repeat split; try done. apply aget_aset_eq.
    apply aget_is_Some; [by destruct Hwf | by eapply aget_Some_lt].
  - by eapply TraceGuard_loop_exit.
Qed.

Lemma TraceGuard_wakeup_exit tid s c s' :
  TraceGuard_wakeup tid s = Ok (ExecuteAt c) s' ->
  executor_exit tid c s' \/
  (syscall_exit tid c s' /\ aget (threadStates s') tid = Some UNCAPTURED).
Proof.
  intros [(Hst & c0 & Hc0 & [= ->] & ->) | (_ & _ & Hl)]%TraceGuard_wakeup_Ok.
  - right. unfold syscall_exit, took_syscall. fields.
    repeat split; try done. apply aget_aset_eq. eauto.
  - left. by eapply TraceGuard_loop_exit.
Qed.

Lemma SyscallGuard_exit cb tid ctxt s k s' :
  SyscallGuard cb tid ctxt s = Ok k s' ->
  exists c, k = ExecuteAt c /\
    (executor_exit tid c s' \/ syscall_exit tid c s').
Proof.
  intros (He & Hsc & H)%SyscallGuard_Ok. cbv zeta in H.
  destruct H as [(_ & _ & Hnext & Hrun & c' & Hc' & -> & ->) |
                [(Heq & _ & Hnext & Hrun & -> & ->) |
                 (Heq & _ & _ & -> & ->)]]; eexists; (split; [done|]).
  - left. unfold executor_exit, syscall_shipped. fields.
    repeat split; try done. apply aget_aset_eq. apply aget_aset_is_Some. eauto.
  - right. unfold syscall_exit, syscall_handed_over. fields. rewrite <- Heq.
    repeat split; try done. by apply aget_aset_eq.
  - right. unfold syscall_exit, syscall_deferred. fields. rewrite <- Heq.
    repeat split; try done. by apply aget_aset_eq.
Qed.

Lemma SwitchHandler_exit tid ctxt s k s' :
  SwitchHandler tid ctxt s = Ok k s' ->
  exists c, k = ExecuteAt c /\ executor_exit tid c s'.
Proof.
  intros H%SwitchHandler_Ok. cbv zeta in H.
  destruct H as (_ & He & _ & _ & _ & _ & c' & Hc' & -> & ->).
  eexists. split; [done|].
  unfold executor_exit, switched. fields.
  repeat split; try done. apply aget_aset_eq. apply aget_aset_is_Some. eauto.
Qed.

Lemma executor_exit_guards tid c s' :
  executor_exit tid c s' ->
  RunTraceGuard (PIN_GetContextReg c executorReg) = 0 /\
  RunSyscallGuard (PIN_GetContextReg c executorReg) = 1 /\
  NeedsSwitch (PIN_GetContextReg c switchReg) s'
  = b2N (blockAfterSwitchcall s').
Proof.
  intros (-> & -> & _). unfold NeedsSwitch.
  rewrite decide_False by (by intros ?).
  by destruct (blockAfterSwitchcall s').
Qed.

Lemma syscall_exit_guards tid c s' :
  syscall_exit tid c s' ->
  RunTraceGuard (PIN_GetContextReg c executorReg) = 1 /\
  RunSyscallGuard (PIN_GetContextReg c executorReg) = 0.
Proof. by intros (-> & _). Qed.

(** X7.  Whenever a guard or the switch handler hands the processor back,
    the context that it resumes is a saved context of [contexts] and its
    two tool registers are consistent with the executor state.  Either
    [executorReg] is 1 and [switchReg] is the current thread: the context is
    that of the current thread and the caller is the executor; on such a
    context [RunTraceGuard] is off, [RunSyscallGuard] is on, and
    [NeedsSwitch] asks for a switch only if the block-after-switch flag is
    armed.  Or [executorReg] is 0 and [switchReg] is -1: the context is the
    caller's own, on its way to a system call, and [RunTraceGuard] is on and
    [RunSyscallGuard] off.  [TraceGuard] and [SwitchHandler] only leave in
    the first way. *)
Theorem guards_exit tid s :
  wf_State s ->
  (forall cb ctxt c s', TraceGuard cb tid ctxt s = Ok (ExecuteAt c) s' ->
     executor_exit tid c s') /\
  (forall c s', TraceGuard_wakeup tid s = Ok (ExecuteAt c) s' ->
     executor_exit tid c s' \/
     (syscall_exit tid c s' /\ aget (threadStates s') tid = Some UNCAPTURED)) /\
  (forall cb ctxt k s', SyscallGuard cb tid ctxt s = Ok k s' ->
     exists c, k = ExecuteAt c /\
       (executor_exit tid c s' \/ syscall_exit tid c s')) /\
  (forall ctxt k s', SwitchHandler tid ctxt s = Ok k s' ->
     exists c, k = ExecuteAt c /\ executor_exit tid c s') /\
  (forall c s', executor_exit tid c s' ->
     RunTraceGuard (PIN_GetContextReg c executorReg) = 0 /\
     RunSyscallGuard (PIN_GetContextReg c executorReg) = 1 /\
     NeedsSwitch (PIN_GetContextReg c switchReg) s'
     = b2N (blockAfterSwitchcall s')) /\
  (forall c s', syscall_exit tid c s' ->
     RunTraceGuard (PIN_GetContextReg c executorReg) = 1 /\
     RunSyscallGuard (PIN_GetContextReg c executorReg) = 0).
Proof.
  intros Hwf. split; [|split; [|split; [|split; [|split]]]].
  - intros cb ctxt c s'. by apply TraceGuard_exit.
  - intros c s'. apply TraceGuard_wakeup_exit.
  - intros cb ctxt k s'. apply SyscallGuard_exit.
  - intros ctxt k s'. apply SwitchHandler_exit.
  - intros c s'. apply executor_exit_guards.
  - intros c s'. apply syscall_exit_guards.
Qed.

Lemma guards_exit_witness :
  exists c, executor_exit 0 c st_switched.
Proof.
  destruct (proj1 (proj2 (proj2 (proj2
      (guards_exit 0 st_two (inv_wf _ (reachable_inv _ reachable_st_two))))))
      (ctx_of 1 1 102) (ExecuteAt (resumed (ctx_of 0 0 200) 1 1)) st_switched)
    as (c & _ & H); [vm_compute; reflexivity|].
  exists c. exact H.
Defined.

(** ** The suspend / resume interface, continued *)

(** X8.  Arming the block-after-switch flag, switching, and unblocking the
    thread that was switched out, amounts to the plain switch: from a state
    in which the flag is clear and a switch succeeds, [blockAfterSwitch]
    succeeds (a second call would fail the assertion of line 445), the same
    switch then leaves the outgoing thread [BLOCKED], with [capturedThreads]
    one lower and the flag clear again, and [unblock] of that thread gives
    the state of the plain switch. *)
Theorem blockAfterSwitch_switch_unblock tid ctxt s k s' :
  wf_State s ->
  blockAfterSwitchcall s = false ->
  SwitchHandler tid ctxt s = Ok k s' ->
  exists s1 s2,
    blockAfterSwitch s = Ok tt s1 /\
    blockAfterSwitch s1 = Fatal (AssertFailed 445) /\
    SwitchHandler tid ctxt s1 = Ok k s2 /\
    aget (threadStates s2) (curTid s) = Some BLOCKED /\
    capturedThreads s2 = u32_decr (capturedThreads s) /\
    blockAfterSwitchcall s2 = false /\
    unblock (curTid s) s2 = Ok tt s'.
Proof.
  intros Hwf Hb H.
  pose proof H as H0. apply SwitchHandler_Ok in H0. cbv zeta in H0.
  destruct H0 as (Her & He & Hne & Hnext & Hrun & Hsc & c' & Hc' & -> & ->).
  set (s1 := set_blockAfterSwitchcall true s).
  exists s1, (switched s1 ctxt c').
  assert (aget (threadStates (switched s1 ctxt c')) (curTid s) = Some BLOCKED)
    as Hbl.
  { unfold switched, s1. fields. rewrite aget_aset_ne by done.
    apply aget_aset_eq. eauto. }
  split; [by apply blockAfterSwitch_Ok|].
  split; [unfold blockAfterSwitch; mstep; by apply bind_Fatal, assert_False|].
  split; [apply SwitchHandler_Ok; cbv zeta; subst s1; fields;
          repeat split; try done; eauto|].
  split; [done|]. split; [done|]. split; [done|].
  apply unblock_Ok. split; [done|].
  unfold unblocked, switched, s1. apply State_eq; fields; try done.
  - rewrite Hb. rewrite (aset_comm _ _ (curTid s) RUNNING IDLE) by done.
    by rewrite aset_aset.
  - rewrite Hb. rewrite u32_incr_decr; [done | by destruct Hwf].
Qed.

Lemma blockAfterSwitch_switch_unblock_witness :
  exists s1 s2,
    blockAfterSwitch st_two = Ok tt s1 /\
    SwitchHandler 0 (ctx_of 1 1 102) s1
    = Ok (ExecuteAt (resumed (ctx_of 0 0 200) 1 1)) s2 /\
    aget (threadStates s2) 0 = Some BLOCKED /\
    unblock 0 s2 = Ok tt st_switched.
Proof.
  destruct (blockAfterSwitch_switch_unblock 0 (ctx_of 1 1 102) st_two
              (ExecuteAt (resumed (ctx_of 0 0 200) 1 1)) st_switched)
    as (s1 & s2 & H1 & _ & H2 & H3 & _ & _ & H4);
    [apply inv_wf, reachable_inv, reachable_st_two
    | vm_compute; reflexivity | vm_compute; reflexivity |].
  exists s1, s2. repeat split; assumption.
Defined.

(** X9.  The ways in which [blockIdleThread] and [unblock] fail: a thread id
    of [MAX_THREADS] or more fails their first assertion; [blockIdleThread]
    of a thread that is not [IDLE] fails the assertion of line 452, and of an
    idle thread when at most one thread is captured that of line 453;
    [unblock] of a thread that is not [BLOCKED] fails the assertion of line
    462. *)
Theorem blockIdleThread_unblock_failures tid s :
  (MAX_THREADS <= tid ->
   blockIdleThread tid s = Fatal (AssertFailed 451) /\
   unblock tid s = Fatal (AssertFailed 461)) /\
  (forall st, aget (threadStates s) tid = Some st ->
     (st <> IDLE -> blockIdleThread tid s = Fatal (AssertFailed 452)) /\
     (st = IDLE -> capturedThreads s <= 1 ->
      blockIdleThread tid s = Fatal (AssertFailed 453)) /\
     (st <> BLOCKED -> unblock tid s = Fatal (AssertFailed 462))).
Proof.
  split.
  - intros Hge. split.
    + unfold blockIdleThread. apply bind_Fatal, assert_False. lia.
    + unfold unblock. apply bind_Fatal, assert_False. lia.
  - intros st Hst. pose proof (aget_Some_lt _ _ _ Hst) as Hlt.
    repeat split.
    + intros Hne. unfold blockIdleThread. repeat mstep.
      by apply bind_Fatal, assert_False.
    + intros -> Hn. unfold blockIdleThread. repeat mstep.
      apply bind_Fatal, assert_False. lia.
    + intros Hne. unfold unblock. repeat mstep.
      by apply bind_Fatal, assert_False.
Qed.

Lemma blockIdleThread_unblock_failures_witness :
  blockIdleThread 0 st_two = Fatal (AssertFailed 452) /\
  unblock 1 st_two = Fatal (AssertFailed 462) /\
  blockIdleThread 4096 st_two = Fatal (AssertFailed 451).
Proof.
  split; [|split].
  - refine (proj1 (proj2 (blockIdleThread_unblock_failures 0 st_two)
                     RUNNING _) _); [vm_compute; reflexivity | discriminate].
  - refine (proj2 (proj2 (proj2 (blockIdleThread_unblock_failures 1 st_two)
                     IDLE _)) _); [vm_compute; reflexivity | discriminate].
  - refine (proj1 (proj1 (blockIdleThread_unblock_failures 4096 st_two) _)).
    vm_compute. discriminate.
Defined.

(** X10.  In a state that the operations can reach, [blockIdleThread]
    succeeds on every [IDLE] thread: the assertion [capturedThreads > 1] of
    line 453 cannot fail there, since the running thread is captured too;
    the running thread stays, so that a captured thread is left.  [unblock]
    succeeds on every [BLOCKED] thread, and blocking it again gives back the
    very state.  The current thread cannot be blocked by
    [blockIdleThread]. *)
Theorem block_unblock_reachable s tid :
  reachable s ->
  (aget (threadStates s) tid = Some IDLE ->
   blockIdleThread tid s = Ok tt (blocked_idle s tid) /\
   1 <= capturedThreads (blocked_idle s tid) /\
   aget (threadStates (blocked_idle s tid)) (curTid s) = Some RUNNING) /\
  (aget (threadStates s) tid = Some BLOCKED ->
   exists s1,
     unblock tid s = Ok tt s1 /\
     aget (threadStates s1) tid = Some IDLE /\
     capturedThreads s1 = capturedThreads s + 1 /\
     blockIdleThread tid s1 = Ok tt s) /\
  (tid = curTid s ->
   blockIdleThread tid s <> Ok tt (blocked_idle s tid)).
Proof.
  intros Hinv%reachable_inv.
  pose proof (inv_wf _ Hinv) as Hwf.
  pose proof (countCaptured_bound s Hwf) as Hbound.
  pose proof (inv_count _ Hinv) as Hcnt.
  split; [|split].
  - intros Hst. pose proof (inv_idle_two s tid Hinv Hst) as H2.
    split; [apply blockIdleThread_Ok; repeat split; [done | lia]|].
    unfold blocked_idle. fields.
    rewrite u32_decr_small; [| lia | by destruct Hwf].
    split; [lia|].
    assert (1 <= capturedThreads s) as H1 by lia.
    pose proof (inv_cur_running s Hinv H1) as Hrun.
    rewrite aget_aset_ne; [done | congruence].
  - intros Hst. exists (unblocked s tid).
    assert (1 <= capturedThreads s) as H1.
    { destruct (inv_cur _ Hinv) as [(_ & _ & Hall) | Hrun].
      - by apply Hall in Hst.
      - by apply (inv_captured_pos s Hinv); eauto. }
    assert (u32_incr (capturedThreads s) = capturedThreads s + 1) as Hinc.
    { apply u32_incr_small. unfold MAX_THREADS in Hbound. lia. }
    split; [by apply unblock_Ok|].
    unfold unblocked. fields.
    split; [apply aget_aset_eq; eauto|]. split; [done|].
    apply blockIdleThread_Ok. fields.
    split; [apply aget_aset_eq; eauto|]. split; [lia|].
    unfold blocked_idle. apply State_eq; fields; try done.
    + rewrite aset_aset. symmetry. by apply aset_same.
    + rewrite u32_decr_incr; [done | by destruct Hwf].
  - intros -> H. apply blockIdleThread_Ok in H as (Hidle & Hn & _).
    assert (1 <= capturedThreads s) as H1 by lia.
    pose proof (inv_cur_running s Hinv H1) as Hrun. congruence.
Qed.

Lemma block_unblock_reachable_witness :
  blockIdleThread 1 st_two = Ok tt (blocked_idle st_two 1) /\
  1 <= capturedThreads (blocked_idle st_two 1).
Proof.
  destruct (proj1 (block_unblock_reachable st_two 1 reachable_st_two))
    as (H1 & H2 & _); [vm_compute; reflexivity|].
  split; assumption.
Defined.

(** ** The moves keep the invariant *)

Lemma micro_inv s s' : inv s -> micro s s' -> inv s'.
Proof.
  intros Hinv Hm. destruct Hm.
  - by apply capture_result_inv.
  - by apply uncaptured_and_switched_inv.
  - by apply switched_inv.
  - by apply blocked_idle_inv.
  - by apply unblocked_inv.
  - apply (inv_frame s); unfold became_executor; fields;
      rewrite ?length_aset; try done. by apply MAX_THREADS_u32.
  - apply (inv_frame s); try done.
    match goal with H : _ \/ _ |- _ => destruct H as [-> | ->] end;
      [by destruct Hinv as [[]] | done].
Qed.

(** A move never takes the last captured thread away. *)
Lemma micro_captured_pos s s' :
  inv s -> micro s s' -> 1 <= capturedThreads s -> 1 <= capturedThreads s'.
Proof.
  intros Hinv Hm Hn.
  pose proof (countCaptured_bound s (inv_wf _ Hinv)) as Hb.
  pose proof (inv_count _ Hinv) as Hc.
  destruct Hm as [s tid Hst | s c next Hrun Hnext | s ctxt c' Hrun Hnext
    | s tid Hst Hgt | s tid Hst | s tid c He Hcur Htid | s s' Hts Hcur Hcap _ _ _ _].
  - destruct (capture_result_inv s tid Hinv Hst) as [_ ->]. lia.
  - destruct (uncaptured_and_switched_inv s c next Hinv Hnext Hrun)
      as (_ & ? & ->). lia.
  - assert (curTid s <> u32 (PIN_GetContextReg ctxt switchReg)) as Hne
      by (by eapply aget_distinct).
    pose proof (countCaptured_two _ _ _ _ _ Hne Hrun Hnext eq_refl eq_refl).
    unfold switched. fields. destruct (blockAfterSwitchcall s); [|done].
    rewrite u32_decr_small; [lia | lia | by destruct Hinv as [[]]].
  - unfold blocked_idle. fields.
    rewrite u32_decr_small; [lia | lia | by destruct Hinv as [[]]].
  - unfold unblocked. fields.
    rewrite u32_incr_small; [lia | unfold MAX_THREADS in Hb; lia].
  - done.
  - by rewrite Hcap.
Qed.

(** The callback log. *)
Lemma logged_captured_snoc log h t :
  logged_captured (log ++ [h]) t = log_event t (logged_captured log t) h.
Proof. unfold logged_captured. by rewrite fold_left_app. Qed.

Lemma logged_captured_lifecycle log h t :
  lifecycle h = true -> logged_captured (log ++ [h]) t = logged_captured log t.
Proof. intros Hl. rewrite logged_captured_snoc. by destruct h. Qed.

Lemma ok_event_snoc (log : list HookCall) h' :
  (forall l1 h l2, log = l1 ++ h :: l2 -> ok_event l1 h) ->
  ok_event log h' ->
  forall l1 h l2, log ++ [h'] = l1 ++ h :: l2 -> ok_event l1 h.
Proof.
  intros Hlog Hh' l1 h l2 Heq.
  destruct l2 as [|x l2 _] using rev_ind.
  - apply app_inj_tail in Heq as [-> ->]. done.
  - rewrite app_comm_cons, app_assoc in Heq.
    apply app_inj_tail in Heq as [-> ->]. by eapply Hlog.
Qed.

Lemma ok_event_lifecycle log h : lifecycle h = true -> ok_event log h.
Proof. by destruct h. Qed.

Lemma micro_run_inv s s' : run_inv s -> micro s s' -> run_inv s'.
Proof.
  intros [Hinv Huniq Hexe Hlog Halt] Hm.
  assert (inv s') as Hinv' by (by eapply micro_inv).
  pose proof (wf_threadStates _ (inv_wf _ Hinv)) as Hlen.
  pose proof (inv_count _ Hinv) as Hcnt.
  assert (executorTid s' <> NO_TID -> 1 <= capturedThreads s') as Hexe'.
  { destruct Hm as [s tid Hst | s c next Hrun Hnext | s ctxt c' Hrun Hnext
      | s tid Hst Hgt | s tid Hst | s tid c He Hcur Htid
      | s s' Hts Hcur Hcap _ _ Hex _].
    - destruct (capture_result_inv s tid Hinv Hst) as [_ ->]. lia.
    - intros He. apply (micro_captured_pos s); [done | by apply micro_uncapture |].
      by apply Hexe.
    - intros He. apply (micro_captured_pos s); [done | by apply micro_switch |].
      by apply Hexe.
    - intros He. apply (micro_captured_pos s); [done | by apply micro_block |].
      by apply Hexe.
    - intros He. apply (micro_captured_pos s); [done | by apply micro_unblock |].
      by apply Hexe.
    - intros _. unfold became_executor. fields.
      apply (inv_captured_pos s Hinv). by apply aget_is_Some.
    - rewrite Hcap. destruct Hex as [-> | ->]; [done | by intros ?]. }
  split; [done | | done | |].
  - (* the running thread is unique *)
    destruct Hm as [s tid Hst | s c next Hrun Hnext | s ctxt c' Hrun Hnext
      | s tid Hst Hgt | s tid Hst | s tid c He Hcur Htid
      | s s' Hts Hcur Hcap _ _ _ _].
    + pose proof (aget_Some_lt _ _ _ Hst) as Hlt.
      unfold capture_result. fields. intros t Ht.
      rewrite aget_aset_full in Ht by done.
      case_bool_decide as Hn; case_decide; simplify_eq; try done.
      * rewrite Hcnt in Hn.
        by pose proof (countCaptured_zero _ _ _ Hn Ht).
      * by apply Huniq.
    + pose proof (aget_Some_lt _ _ _ Hrun) as Hlt.
      pose proof (aget_Some_lt _ _ _ Hnext) as Hlt'.
      unfold uncaptured_and_switched. fields. intros t Ht.
      rewrite !aget_aset_full in Ht by (by rewrite ?length_aset).
      repeat case_decide; simplify_eq; try done.
      apply Huniq in Ht. done.
    + pose proof (aget_Some_lt _ _ _ Hrun) as Hlt.
      pose proof (aget_Some_lt _ _ _ Hnext) as Hlt'.
      unfold switched. fields. intros t Ht.
      rewrite !aget_aset_full in Ht by (by rewrite ?length_aset).
      repeat case_decide; simplify_eq; try done.
      * by destruct (blockAfterSwitchcall s).
      * apply Huniq in Ht. done.
    + pose proof (aget_Some_lt _ _ _ Hst) as Hlt.
      unfold blocked_idle. fields. intros t Ht.
      rewrite aget_aset_full in Ht by done.
      case_decide; simplify_eq. by apply Huniq.
    + pose proof (aget_Some_lt _ _ _ Hst) as Hlt.
      unfold unblocked. fields. intros t Ht.
      rewrite aget_aset_full in Ht by done.
      case_decide; simplify_eq. by apply Huniq.
    + unfold became_executor. fields. done.
    + rewrite Hts, Hcur. done.
  - (* the log tells which threads are captured *)
    destruct Hm as [s tid Hst | s c next Hrun Hnext | s ctxt c' Hrun Hnext
      | s tid Hst Hgt | s tid Hst | s tid c He Hcur Htid
      | s s' Hts Hcur Hcap _ _ _ Hl].
    + pose proof (aget_Some_lt _ _ _ Hst) as Hlt.
      unfold capture_result. fields. intros t st Ht.
      rewrite logged_captured_snoc. cbn [log_event].
      rewrite aget_aset_full in Ht by done.
      case_decide; simplify_eq.
      * split; [|done]. intros _. by case_bool_decide.
      * by apply Hlog.
    + pose proof (aget_Some_lt _ _ _ Hrun) as Hlt.
      pose proof (aget_Some_lt _ _ _ Hnext) as Hlt'.
      unfold uncaptured_and_switched. fields. intros t st Ht.
      rewrite logged_captured_snoc. cbn [log_event].
      rewrite !aget_aset_full in Ht by (by rewrite ?length_aset).
      repeat case_decide; simplify_eq; try done.
      * split; [intros _; done | intros _]. by apply (Hlog _ _ Hnext).
      * by apply Hlog.
    + pose proof (aget_Some_lt _ _ _ Hrun) as Hlt.
      pose proof (aget_Some_lt _ _ _ Hnext) as Hlt'.
      unfold switched. fields. intros t st Ht.
      rewrite !aget_aset_full in Ht by (by rewrite ?length_aset).
      repeat case_decide; simplify_eq.
      * split; [intros _; done | intros _]. by apply (Hlog _ _ Hnext).
      * split; [intros _; by destruct (blockAfterSwitchcall s) | intros _].
        by apply (Hlog _ _ Hrun).
      * by apply Hlog.
    + pose proof (aget_Some_lt _ _ _ Hst) as Hlt.
      unfold blocked_idle. fields. intros t st Ht.
      rewrite aget_aset_full in Ht by done.
      case_decide; simplify_eq; [|by apply Hlog].
      split; [intros _; done | intros _]. by apply (Hlog _ _ Hst).
    + pose proof (aget_Some_lt _ _ _ Hst) as Hlt.
      unfold unblocked. fields. intros t st Ht.
      rewrite aget_aset_full in Ht by done.
      case_decide; simplify_eq; [|by apply Hlog].
      split; [intros _; done | intros _]. by apply (Hlog _ _ Hst).
    + unfold became_executor. fields. done.
    + rewrite Hts. intros t st Ht.
      destruct Hl as [-> | (h & Hh & ->)]; [by apply Hlog|].
      rewrite logged_captured_lifecycle by done. by apply Hlog.
  - (* captures and uncaptures alternate *)
    destruct Hm as [s tid Hst | s c next Hrun Hnext | s ctxt c' Hrun Hnext
      | s tid Hst Hgt | s tid Hst | s tid c He Hcur Htid
      | s s' Hts Hcur Hcap _ _ _ Hl].
    + unfold capture_result. fields. apply ok_event_snoc; [done|].
      cbn [ok_event]. destruct (logged_captured (hookLog s) tid) eqn:E; [|done].
      by apply (Hlog _ _ Hst) in E.
    + unfold uncaptured_and_switched. fields. apply ok_event_snoc; [done|].
      cbn [ok_event]. by apply (Hlog _ _ Hrun).
    + done.
    + done.
    + done.
    + done.
    + destruct Hl as [-> | (h & Hh & ->)]; [done|].
      apply ok_event_snoc; [done | by apply ok_event_lifecycle].
Qed.

Lemma micros_run_inv s s' : run_inv s -> rtc micro s s' -> run_inv s'.
Proof. intros Hinv Hm. induction Hm; eauto using micro_run_inv. Qed.

Lemma run_inv_init : run_inv init.
Proof.
  split.
  - apply inv_init.
  - intros t [? _]%aget_lookup%lookup_replicate. done.
  - done.
  - intros t st [-> _]%aget_lookup%lookup_replicate. done.
  - intros l1 h l2 Heq. by destruct l1.
Qed.

(** Every operation is a sequence of moves. *)
Ltac frame_micro :=
  apply micro_frame;
  unfold trace_resumed, took_syscall, syscall_deferred, syscall_shipped,
    syscall_handed_over, delayed_uncapture_result, uncaptured_and_switched;
  fields; rewrite ?length_aset; auto.

Lemma TraceGuard_loop_micros tid s k s' :
  tid < MAX_THREADS -> TraceGuard_loop tid s = Ok k s' -> rtc micro s s'.
Proof.
  intros Hlt [(_ & _ & ->) | (He & c & Hc & _ & ->)]%TraceGuard_loop_Ok;
    [done|].
  apply rtc_once, micro_executor; [done | by eapply aget_Some_lt | done].
Qed.

Lemma TraceGuard_delayed_uncapture_micros cb s u s' :
  TraceGuard_delayed_uncapture cb s = Ok u s' -> rtc micro s s'.
Proof.
  intros [[_ ->] | (_ & _ & _ & c & Hc & Hnext & Hrun & ->)]
    %TraceGuard_delayed_uncapture_Ok; [done|].
  eapply rtc_l; [by apply (micro_uncapture s c)|].
  apply rtc_once. frame_micro.
Qed.

Lemma step_micros s s' : step s s' -> rtc micro s s'.
Proof.
  intros Hstep.
  destruct Hstep as
    [tid ctxt c s s' H | tid s s' H | cb tid ctxt k s s' H | tid s s' H
    | tid k s s' H | cb tid ctxt k s s' H | cb s s' H | tid ctxt k s s' H
    | s s' H | tid s s' H | tid s s' H].
  - apply ThreadStart_Ok in H as (_ & _ & ->).
    apply rtc_once. frame_micro. right. by exists (CallThreadStart tid).
  - apply ThreadFini_Ok in H as (_ & ->).
    apply rtc_once. frame_micro. right. by exists (CallThreadEnd tid).
  - apply TraceGuard_Ok in H
      as (_ & [(_ & _ & _ & _ & _ & ->) | (Hst & _ & s2 & Hd & Hl)]).
    + apply rtc_once. frame_micro.
    + pose proof (aget_Some_lt _ _ _ Hst) as Hlt.
      apply (rtc_l _ _ (set_contexts (aset (contexts s) tid ctxt) s));
        [frame_micro|].
      eapply rtc_l; [by apply (micro_capture _ tid)|].
      etrans; [by eapply TraceGuard_delayed_uncapture_micros|].
      by eapply TraceGuard_loop_micros.
  - apply waitLocks_lock_Some in H as (_ & ->).
    apply rtc_once. frame_micro.
  - apply TraceGuard_wakeup_Ok in H
      as [(_ & c & _ & _ & ->) | ([x Hx] & _ & Hl)].
    + apply rtc_once. frame_micro.
    + eapply TraceGuard_loop_micros; [by eapply aget_Some_lt | done].
  - apply SyscallGuard_Ok in H as (_ & [c0 Hc0] & H). cbv zeta in H.
    pose proof (aget_Some_lt _ _ _ Hc0) as Hlt.
    destruct H as [(_ & _ & Hnext & Hrun & c' & _ & _ & ->) |
                  [(_ & _ & Hnext & Hrun & _ & ->) | (_ & _ & _ & _ & ->)]].
    + apply (rtc_l _ _ (set_contexts (aset (contexts s) (curTid s) ctxt) s));
        [frame_micro|].
      eapply rtc_l; [by apply (micro_uncapture _ ctxt (cb (curTid s) ctxt))|].
      apply rtc_once. frame_micro.
    + apply (rtc_l _ _ (set_contexts (aset (contexts s) (curTid s) ctxt) s));
        [frame_micro|].
      eapply rtc_l; [by apply (micro_uncapture _ ctxt (cb (curTid s) ctxt))|].
      apply rtc_once. frame_micro.
    + apply rtc_once. frame_micro.
  - apply UncaptureAndSwitch_Ok in H as (c & _ & Hnext & Hrun & ->).
    by apply rtc_once, micro_uncapture.
  - apply SwitchHandler_Ok in H. cbv zeta in H.
    destruct H as (_ & _ & _ & Hnext & Hrun & _ & c' & _ & _ & ->).
    by apply rtc_once, micro_switch.
  - apply blockAfterSwitch_Ok in H as (_ & ->).
    apply rtc_once. frame_micro.
  - apply blockIdleThread_Ok in H as (? & ? & ->).
    by apply rtc_once, micro_block.
  - apply unblock_Ok in H as (? & ->). by apply rtc_once, micro_unblock.
Qed.

Lemma step_run_inv s s' : run_inv s -> step s s' -> run_inv s'.
Proof. intros Hinv Hstep. eapply micros_run_inv; [done | by apply step_micros]. Qed.

Lemma reachable_run_inv s : reachable s -> run_inv s.
Proof.
  induction 1 as [|s s' _ IH Hstep];
    [apply run_inv_init | by eapply step_run_inv].
Qed.

(** X11.  In every state that the operations can reach, either no thread
    has been captured yet (there is no current thread, [capturedThreads] is
    0 and every thread is [UNCAPTURED]), or exactly one thread is [RUNNING]:
    it is the current thread, and it is counted in [capturedThreads]. *)
Theorem one_running_thread s :
  reachable s ->
  (curTid s = NO_TID /\ capturedThreads s = 0 /\
   forall t st, aget (threadStates s) t = Some st -> st = UNCAPTURED) \/
  (aget (threadStates s) (curTid s) = Some RUNNING /\
   1 <= capturedThreads s /\
   forall t, aget (threadStates s) t = Some RUNNING -> t = curTid s).
Proof.
  intros [Hinv Huniq _ _ _]%reachable_run_inv.
  destruct (inv_cur _ Hinv) as [? | Hrun]; [by left | right].
  split; [done|]. split; [|done].
  apply (inv_captured_pos s Hinv). eauto.
Qed.

Lemma one_running_thread_witness :
  aget (threadStates st_two) (curTid st_two) = Some RUNNING /\
  forall t, aget (threadStates st_two) t = Some RUNNING -> t = curTid st_two.
Proof.
  destruct (one_running_thread st_two reachable_st_two)
    as [(_ & H & _) | (H1 & _ & H2)].
  - vm_compute in H. discriminate H.
  - split; assumption.
Defined.

Lemma steps_captured_pos s s' :
  inv s -> 1 <= capturedThreads s -> rtc step s s' ->
  inv s' /\ 1 <= capturedThreads s'.
Proof.
  intros Hinv Hn Hs. induction Hs as [|s s1 s2 Hstep _ IH]; [done|].
  assert (inv s1 /\ 1 <= capturedThreads s1) as [? ?]; [|by apply IH].
  apply step_micros in Hstep. clear IH.
  induction Hstep as [|x y z Hm _ IH]; [done|].
  apply IH; [by eapply micro_inv | by eapply micro_captured_pos].
Qed.

(** X12.  Once a thread has been captured, [capturedThreads] never comes
    back to 0 and there is always a running current thread, whatever
    operations follow: an uncapture needs a second captured thread,
    [blockIdleThread] too, a switch that blocks leaves the thread switched
    to, and [ThreadFini] of the last running thread changes neither its
    state nor the counter. *)
Theorem captured_never_back_to_zero s s' :
  reachable s -> 1 <= capturedThreads s -> rtc step s s' ->
  1 <= capturedThreads s' /\
  aget (threadStates s') (curTid s') = Some RUNNING.
Proof.
  intros Hinv%reachable_inv Hn Hs.
  destruct (steps_captured_pos s s' Hinv Hn Hs) as [Hinv' Hn'].
  split; [done | by apply inv_cur_running].
Qed.

Lemma captured_never_back_to_zero_witness :
  1 <= capturedThreads st_finished /\
  aget (threadStates st_finished) (curTid st_finished) = Some RUNNING.
Proof.
  apply (captured_never_back_to_zero st_one st_finished).
  - exact reachable_st_one.
  - vm_compute. discriminate.
  - apply rtc_once, (step_ThreadFini 0). vm_compute. reflexivity.
Defined.

(** X13.  The capture and uncapture callbacks tell the tool which threads
    are captured.  In every state that the operations can reach, the calls
    about one thread alternate, a capture first: a capture callback is made
    only for a thread whose last such callback, if any, was an uncapture,
    and an uncapture callback only for a thread whose last one was a
    capture.  And a thread is other than [UNCAPTURED] exactly when the last
    callback about it was a capture. *)
Theorem callbacks_alternate s :
  reachable s ->
  (forall l1 h l2, hookLog s = l1 ++ h :: l2 -> ok_event l1 h) /\
  (forall t st, aget (threadStates s) t = Some st ->
     (logged_captured (hookLog s) t = true <-> st <> UNCAPTURED)).
Proof. intros [_ _ _ Hlog Halt]%reachable_run_inv. done. Qed.

Lemma callbacks_alternate_witness :
  (logged_captured (hookLog st_handed) 0 = true <-> UNCAPTURED <> UNCAPTURED) /\
  (logged_captured (hookLog st_handed) 1 = true <-> RUNNING <> UNCAPTURED).
Proof.
  split.
  - apply (proj2 (callbacks_alternate st_handed reachable_st_handed) 0).
    vm_compute. reflexivity.
  - apply (proj2 (callbacks_alternate st_handed reachable_st_handed) 1).
    vm_compute. reflexivity.
Defined.

(** ** The changes of a thread's state *)

Lemma may_become_refl a : may_become a a = true.
Proof. by destruct a. Qed.

Ltac ts_done :=
  first [ done | apply may_become_refl | congruence
        | by match goal with b : bool |- _ => destruct b end ].

Ltac ts_fin :=
  repeat case_bool_decide; (split; [ts_done | split; congruence]).

(** X14.  What one operation does to the state of one thread.  The changes
    are those of [may_become]: an [UNCAPTURED] thread is never blocked, an
    [IDLE] thread is never uncaptured, and a [BLOCKED] thread neither runs
    nor is uncaptured.  A thread becomes [BLOCKED] only by [blockIdleThread]
    on it, or as the current thread of a switch with the block-after-switch
    flag armed; it leaves [BLOCKED] only by [unblock] on it, for [IDLE]. *)
Theorem thread_state_transitions s s' t a b :
  inv s -> step s s' ->
  aget (threadStates s) t = Some a -> aget (threadStates s') t = Some b ->
  may_become a b = true /\
  (a <> BLOCKED -> b = BLOCKED ->
   blockIdleThread t s = Ok tt s' \/
   (blockAfterSwitchcall s = true /\ t = curTid s /\
    exists tid ctxt k, SwitchHandler tid ctxt s = Ok k s')) /\
  (a = BLOCKED -> b <> BLOCKED -> b = IDLE /\ unblock t s = Ok tt s').
Proof.
  intros Hinv Hstep Ha Hb.
  pose proof (wf_threadStates _ (inv_wf _ Hinv)) as Hlen.
  pose proof (aget_Some_lt _ _ _ Ha) as Hlt.
  destruct Hstep as
    [tid ctxt c s s' H | tid s s' H | cb tid ctxt k s s' H | tid s s' H
    | tid k s s' H | cb tid ctxt k s s' H | cb s s' H | tid ctxt k s s' H
    | s s' H | tid s s' H | tid s s' H].
  - apply ThreadStart_Ok in H as (_ & _ & ->). fields.
    simplify_eq. split; [ts_done | split; congruence].
  - apply ThreadFini_Ok in H as (_ & ->). fields.
    simplify_eq. split; [ts_done | split; congruence].
  - apply TraceGuard_Ok in H
      as (_ & [(_ & _ & _ & _ & _ & ->) | (Hst & _ & s2 & Hd & Hl)]).
    + unfold trace_resumed in *. fields.
      simplify_eq. split; [ts_done | split; congruence].
    + apply TraceGuard_delayed_uncapture_Ok in Hd.
      apply TraceGuard_loop_Ok in Hl.
      assert (threadStates s' = threadStates s2) as Hts.
      { destruct Hl as [(_ & _ & ->) | (_ & c & _ & _ & ->)]; done. }
      rewrite Hts in Hb. clear Hl Hts.
      destruct Hd as [[_ ->] | (_ & _ & Hn & c & _ & Hnext & Hrun & ->)];
        unfold delayed_uncapture_result, uncaptured_and_switched,
          capture_result in *; fields.
      * ts_cases; ts_fin.
      * assert (capturedThreads s <> 0) as Hn0.
        { intros E. rewrite E in Hn. done. }
        rewrite bool_decide_eq_false_2 in * by done.
        ts_cases; ts_fin.
  - apply waitLocks_lock_Some in H as (_ & ->). fields.
    simplify_eq. split; [ts_done | split; congruence].
  - apply TraceGuard_wakeup_Ok in H
      as [(_ & c & _ & _ & ->) | (_ & _ & Hl)].
    + unfold took_syscall in *. fields.
      simplify_eq. split; [ts_done | split; congruence].
    + apply TraceGuard_loop_Ok in Hl.
      destruct Hl as [(_ & _ & ->) | (_ & c & _ & _ & ->)];
        unfold became_executor in *; fields;
        simplify_eq; ts_fin.
  - apply SyscallGuard_Ok in H as (_ & _ & H). cbv zeta in H.
    destruct H as [(_ & _ & Hnext & Hrun & c' & _ & _ & ->) |
                  [(_ & _ & Hnext & Hrun & _ & ->) | (_ & _ & _ & _ & ->)]];
      unfold syscall_shipped, syscall_handed_over, syscall_deferred in *;
      fields; ts_cases; ts_fin.
  - apply UncaptureAndSwitch_Ok in H as (c & _ & Hnext & Hrun & ->).
    unfold uncaptured_and_switched in *. fields.
    ts_cases; ts_fin.
  - pose proof H as H0.
    apply SwitchHandler_Ok in H. cbv zeta in H.
    destruct H as (_ & _ & _ & Hnext & Hrun & _ & c' & _ & _ & ->).
    unfold switched in Hb. fields.
    ts_cases; (split; [ts_done | split; [|congruence]]); intros Hnb Hbl;
      try congruence.
    right. destruct (blockAfterSwitchcall s) eqn:E; [|done].
    split; [done|]. split; [done|]. by exists tid, ctxt, k.
  - apply blockAfterSwitch_Ok in H as (_ & ->). fields.
    simplify_eq. split; [ts_done | split; congruence].
  - pose proof H as H0.
    apply blockIdleThread_Ok in H as (? & ? & ->).
    unfold blocked_idle in Hb. fields.
    ts_cases; (split; [ts_done | split; [|congruence]]); intros Hnb Hbl;
      try congruence.
    by left.
  - pose proof H as H0.
    apply unblock_Ok in H as (? & ->).
    unfold unblocked in Hb. fields.
    ts_cases; (split; [ts_done | split; [congruence|]]); intros Hbl Hnb;
      try congruence.
    done.
Qed.

Lemma thread_state_transitions_witness :
  may_become RUNNING BLOCKED = true /\
  (blockIdleThread 0 st_two_armed = Ok tt st_switched_blocked \/
   blockAfterSwitchcall st_two_armed = true /\ 0 = curTid st_two_armed /\
   exists tid ctxt k,
     SwitchHandler tid ctxt st_two_armed = Ok k st_switched_blocked).
Proof.
  destruct (thread_state_transitions st_two_armed st_switched_blocked 0
              RUNNING BLOCKED) as (H1 & H2 & _);
    [apply reachable_inv, reachable_st_two_armed
    | eapply (step_SwitchHandler 0 (ctx_of 1 1 102)); vm_compute; reflexivity
    | vm_compute; reflexivity | vm_compute; reflexivity |].
  split; [exact H1 | apply H2; [discriminate | reflexivity]].
Defined.

(** ** The wait locks and the saved contexts *)

(** X15.  Only [SyscallGuard] wakes a thread up.  An operation leaves the
    wait locks alone, or it is a thread taking its own wait lock, or it is
    [SyscallGuard] with two captured threads or more, which frees exactly
    one wait lock: that of the thread whose system call it ships, now
    [UNCAPTURED], or that of the thread it hands the run to, now [RUNNING]
    with the executor role vacant.  A switch wakes nobody up: the executor
    itself goes on with the next thread. *)
Theorem wakeups_from_SyscallGuard s s' :
  step s s' ->
  waitLocks s' = waitLocks s \/
  (exists tid, waitLocks_lock tid s = Some s') \/
  (exists cb tid ctxt k t,
     SyscallGuard cb tid ctxt s = Ok k s' /\
     2 <= capturedThreads s /\
     waitLocks s' = aset (waitLocks s) t false /\
     ((t = curTid s /\ t <> tid /\
       aget (threadStates s') t = Some UNCAPTURED) \/
      (t = curTid s' /\ curTid s = tid /\ executorTid s' = NO_TID /\
       aget (threadStates s') t = Some RUNNING))).
Proof.
  intros Hstep.
  destruct Hstep as
    [tid ctxt c s s' H | tid s s' H | cb tid ctxt k s s' H | tid s s' H
    | tid k s s' H | cb tid ctxt k s s' H | cb s s' H | tid ctxt k s s' H
    | s s' H | tid s s' H | tid s s' H].
  - apply ThreadStart_Ok in H as (_ & _ & ->). by left.
  - apply ThreadFini_Ok in H as (_ & ->). by left.
  - left. apply TraceGuard_Ok in H
      as (_ & [(_ & _ & _ & _ & _ & ->) | (Hst & _ & s2 & Hd & Hl)]); [done|].
    apply TraceGuard_delayed_uncapture_Ok in Hd.
    apply TraceGuard_loop_Ok in Hl.
    destruct Hd as [[_ ->] | (_ & _ & _ & c & _ & _ & _ & ->)];
      destruct Hl as [(_ & _ & ->) | (_ & c' & _ & _ & ->)]; done.
  - right; left. eauto.
  - left. apply TraceGuard_wakeup_Ok in H
      as [(_ & c & _ & _ & ->) | (_ & _ & Hl)]; [done|].
    apply TraceGuard_loop_Ok in Hl.
    destruct Hl as [(_ & _ & ->) | (_ & c' & _ & _ & ->)]; done.
  - pose proof H as H0.
    apply SyscallGuard_Ok in H as (_ & _ & H). cbv zeta in H.
    destruct H as [(Hne & Hn & Hnext & Hrun & c' & Hc' & _ & ->) |
                  [(Heq & Hn & Hnext & Hrun & _ & ->) | (_ & _ & _ & _ & ->)]].
    + right; right. exists cb, tid, ctxt, k, (curTid s).
      split; [done|]. split; [done|]. split; [done|]. left.
      split; [done|]. split; [done|].
      assert (curTid s <> cb (curTid s) ctxt) by (by eapply aget_distinct).
      unfold syscall_shipped. fields. rewrite aget_aset_ne by done.
      apply aget_aset_eq. eauto.
    + right; right. exists cb, tid, ctxt, k, (cb (curTid s) ctxt).
      split; [done|]. split; [done|]. split; [done|]. right.
      unfold syscall_handed_over. fields.
      repeat split; try done.
      apply aget_aset_eq, aget_aset_is_Some. eauto.
    + by left.
  - apply UncaptureAndSwitch_Ok in H as (c & _ & _ & _ & ->). by left.
  - apply SwitchHandler_Ok in H. cbv zeta in H.
    destruct H as (_ & _ & _ & _ & _ & _ & c' & _ & _ & ->). by left.
  - apply blockAfterSwitch_Ok in H as (_ & ->). by left.
  - apply blockIdleThread_Ok in H as (_ & _ & ->). by left.
  - apply unblock_Ok in H as (_ & ->). by left.
Qed.

Lemma wakeups_from_SyscallGuard_witness :
  waitLocks st_switched = waitLocks st_two /\
  waitLocks st_handed = aset (waitLocks st_two) 1 false.
Proof.
  split.
  - destruct (wakeups_from_SyscallGuard st_two st_switched)
      as [H | [(tid & H) | (cb & tid & ctxt & k & t & _ & _ & H & _)]];
      [eapply (step_SwitchHandler 0 (ctx_of 1 1 102)); vm_compute; reflexivity
      | exact H | vm_compute; reflexivity | vm_compute; reflexivity].
  - destruct (wakeups_from_SyscallGuard st_two st_handed)
      as [H | [(tid & H) | (cb & tid & ctxt & k & t & _ & _ & H & _)]];
      [eapply (step_SyscallGuard (pick 1) 0 (ctx_of 1 0 101));
         vm_compute; reflexivity
      | vm_compute; reflexivity | vm_compute; reflexivity
      | vm_compute; reflexivity].
Defined.

Lemma suspended_ne l i t x a :
  aget l i = Some x -> suspended x = false ->
  aget l t = Some a -> suspended a = true -> i <> t.
Proof. intros Hi Hx Ht Ha ->. congruence. Qed.

Lemma TraceGuard_loop_contexts tid s k s' t a :
  inv s -> TraceGuard_loop tid s = Ok k s' ->
  aget (threadStates s) t = Some a -> suspended a = true ->
  aget (contexts s') t = aget (contexts s) t.
Proof.
  intros Hinv Hl Ha Hsa.
  apply TraceGuard_loop_Ok in Hl as [(_ & _ & ->) | (_ & c & Hc & _ & ->)];
    [done|].
  unfold became_executor. fields.
  assert (is_Some (aget (threadStates s) (curTid s))) as Hs.
  { apply aget_is_Some; [by destruct Hinv as [[]] | by eapply aget_Some_lt]. }
  destruct (inv_captured_pos s Hinv Hs) as [Hrun _].
  assert (curTid s <> t) by (by eapply (suspended_ne _ _ _ RUNNING a)).
  by rewrite aget_aset_ne.
Qed.

(** X16.  The saved context of a thread that is [IDLE] or [BLOCKED] before
    and after an operation is not changed by it: what [getContext] hands
    out stays as it is for as long as the thread is suspended. *)
Theorem suspended_context_stable s s' t a b :
  inv s -> step s s' ->
  aget (threadStates s) t = Some a -> suspended a = true ->
  aget (threadStates s') t = Some b -> suspended b = true ->
  aget (contexts s') t = aget (contexts s) t.
Proof.
  intros Hinv Hstep Ha Hsa Hb Hsb.
  pose proof (wf_threadStates _ (inv_wf _ Hinv)) as Hlen.
  pose proof (wf_contexts _ (inv_wf _ Hinv)) as Hlenc.
  pose proof (aget_Some_lt _ _ _ Ha) as Hlt.
  destruct Hstep as
    [tid ctxt c s s' H | tid s s' H | cb tid ctxt k s s' H | tid s s' H
    | tid k s s' H | cb tid ctxt k s s' H | cb s s' H | tid ctxt k s s' H
    | s s' H | tid s s' H | tid s s' H].
  - apply ThreadStart_Ok in H as (_ & _ & ->). done.
  - apply ThreadFini_Ok in H as (_ & ->). done.
  - apply TraceGuard_Ok in H
      as (_ & [(Hst & _ & _ & _ & _ & ->) | (Hst & _ & s2 & Hd & Hl)]).
    + unfold trace_resumed. fields.
      assert (tid <> t) by (by eapply (suspended_ne _ _ _ RUNNING a)).
      by rewrite aget_aset_ne.
    + assert (tid <> t) as Hne by (by eapply (suspended_ne _ _ _ UNCAPTURED a)).
      set (s0 := set_contexts (aset (contexts s) tid ctxt) s) in *.
      assert (inv s0) as Hinv0.
      { apply (inv_frame s); subst s0; fields; rewrite ?length_aset; try done.
        by destruct Hinv as [[]]. }
      destruct (capture_result_inv s0 tid Hinv0 Hst) as [Hinv1 _].
      assert (inv s2) as Hinv2
        by (by eapply TraceGuard_delayed_uncapture_inv).
      assert (threadStates s' = threadStates s2) as Hts.
      { apply TraceGuard_loop_Ok in Hl
          as [(_ & _ & ->) | (_ & c & _ & _ & ->)]; done. }
      rewrite Hts in Hb.
      rewrite (TraceGuard_loop_contexts tid s2 k s' t b Hinv2 Hl Hb Hsb).
      apply TraceGuard_delayed_uncapture_Ok in Hd.
      destruct Hd as [[_ ->] | (_ & _ & _ & c & _ & _ & _ & ->)];
        unfold delayed_uncapture_result, uncaptured_and_switched,
          capture_result, s0; fields; by rewrite aget_aset_ne.
  - apply waitLocks_lock_Some in H as (_ & ->). done.
  - apply TraceGuard_wakeup_Ok in H
      as [(Hst & c & _ & _ & ->) | (_ & _ & Hl)].
    + unfold took_syscall. fields.
      assert (tid <> t) by (by eapply (suspended_ne _ _ _ UNCAPTURED a)).
      by rewrite aget_aset_ne.
    + by eapply TraceGuard_loop_contexts.
  - apply SyscallGuard_Ok in H as (_ & _ & H). cbv zeta in H.
    destruct (inv_cur _ Hinv) as [(_ & _ & Hall) | Hrun];
      [apply Hall in Ha; by subst a|].
    assert (curTid s <> t) as Hne
      by (by eapply (suspended_ne _ _ _ RUNNING a)).
    destruct H as [(_ & _ & Hnext & _ & c' & _ & _ & ->) |
                  [(_ & _ & Hnext & _ & _ & ->) | (_ & _ & _ & _ & ->)]];
      unfold syscall_shipped, syscall_handed_over, syscall_deferred in *;
      fields.
    + pose proof (aget_Some_lt _ _ _ Hnext) as Hlt'.
      rewrite aget_aset_full in Hb
        by (rewrite ?length_aset; first [assumption | ts_bound]).
      case_decide; [by simplify_eq|].
      by rewrite !aget_aset_ne.
    + by rewrite aget_aset_ne.
    + by rewrite aget_aset_ne.
  - apply UncaptureAndSwitch_Ok in H as (c & _ & _ & _ & ->). done.
  - apply SwitchHandler_Ok in H. cbv zeta in H.
    destruct H as (_ & _ & _ & Hnext & Hrun & _ & c' & _ & _ & ->).
    pose proof (aget_Some_lt _ _ _ Hnext) as Hlt'.
    assert (curTid s <> t) as Hne
      by (by eapply (suspended_ne _ _ _ RUNNING a)).
    unfold switched in *. fields.
    rewrite aget_aset_full in Hb
      by (rewrite ?length_aset; first [assumption | ts_bound]).
    case_decide; [by simplify_eq|].
    by rewrite !aget_aset_ne.
  - apply blockAfterSwitch_Ok in H as (_ & ->). done.
  - apply blockIdleThread_Ok in H as (_ & _ & ->). done.
  - apply unblock_Ok in H as (_ & ->). done.
Qed.

Lemma suspended_context_stable_witness :
  aget (contexts st_three_switched) 2 = aget (contexts st_three) 2 /\
  aget (contexts st_three_switched) 0 <> aget (contexts st_three) 0.
Proof.
  split.
  - apply (suspended_context_stable st_three st_three_switched 2 IDLE IDLE).
    + apply reachable_inv, reachable_st_three.
    + eapply (step_SwitchHandler 0 (ctx_of 1 1 102)). vm_compute. reflexivity.
    + vm_compute. reflexivity.
    + reflexivity.
    + vm_compute. reflexivity.
    + reflexivity.
  - vm_compute. discriminate.
Defined.

(** ** The threads around the executor state, continued *)

Lemma sys_reachable_run_inv y : sys_reachable y -> run_inv (prot y).
Proof. intros Hy. by apply reachable_run_inv, sys_reachable_reachable. Qed.

(** The live [executorReg] of a thread is 0 or 1. *)
Lemma after_live_reg tid k c s' :
  after k = Live c ->
  (forall c0, k = ExecuteAt c0 ->
     executor_exit tid c0 s' \/ syscall_exit tid c0 s') ->
  PIN_GetContextReg c executorReg = 0 \/ PIN_GetContextReg c executorReg = 1.
Proof.
  destruct k as [c0|]; [|done]. intros [= <-] H.
  destruct (H c0 eq_refl) as [(? & _) | (? & _)]; auto.
Qed.

Lemma sys_live_reg y t c :
  sys_reachable y -> ctl y !! t = Some (Live c) ->
  PIN_GetContextReg c executorReg = 0 \/ PIN_GetContextReg c executorReg = 1.
Proof.
  intros Hy. revert t c.
  induction Hy as [|y y' Hy IH Hstep]; intros t c' Hl.
  { unfold sys_init in Hl. cbn [ctl] in Hl. by rewrite lookup_empty in Hl. }
  pose proof (inv_wf _ (si_prot _ (sys_reachable_inv _ Hy))) as Hwf.
  destruct Hstep as
    [tid ctxt c s' y Hlt Hnone H | tid c s' y Hl0 H
    | cb tid c ctxt k s' y Hl0 Hrun Hg H | tid s' y Hl0 H | tid k s' y Hl0 H
    | cb tid c ctxt k s' y Hl0 Hrun Hg H | tid c ctxt k s' y Hl0 Hrun Hg H
    | s' y H | t0 s' y H | t0 s' y H];
    cbn [ctl] in Hl; try (by eapply IH).
  - apply ThreadStart_Ok in H as (_ & -> & _).
    destruct (decide (tid = t)) as [<- | Hne].
    + rewrite lookup_insert_eq in Hl. simplify_eq. by left.
    + rewrite lookup_insert_ne in Hl by done. by eapply IH.
  - apply lookup_delete_Some in Hl as [_ Hl]. by eapply IH.
  - destruct (decide (tid = t)) as [<- | Hne];
      [|rewrite lookup_insert_ne in Hl by done; by eapply IH].
    rewrite lookup_insert_eq in Hl. simplify_eq.
    eapply (after_live_reg tid k c' s'); [done|].
    intros c0 ->. left. by eapply TraceGuard_exit.
  - destruct (decide (tid = t)) as [<- | Hne];
      [|rewrite lookup_insert_ne in Hl by done; by eapply IH].
    rewrite lookup_insert_eq in Hl. simplify_eq.
  - destruct (decide (tid = t)) as [<- | Hne];
      [|rewrite lookup_insert_ne in Hl by done; by eapply IH].
    rewrite lookup_insert_eq in Hl. simplify_eq.
    eapply (after_live_reg tid k c' s'); [done|].
    intros c0 ->. apply TraceGuard_wakeup_exit in H. tauto.
  - destruct (decide (tid = t)) as [<- | Hne];
      [|rewrite lookup_insert_ne in Hl by done; by eapply IH].
    rewrite lookup_insert_eq in Hl. simplify_eq.
    eapply (after_live_reg tid k c' s'); [done|].
    intros c0 ->. apply SyscallGuard_exit in H as (c1 & [= <-] & H). done.
  - destruct (decide (tid = t)) as [<- | Hne];
      [|rewrite lookup_insert_ne in Hl by done; by eapply IH].
    rewrite lookup_insert_eq in Hl. simplify_eq.
    eapply (after_live_reg tid k c' s'); [done|].
    intros c0 ->. apply SwitchHandler_exit in H as (c1 & [= <-] & H). by left.
Qed.

(** What is known of the executor state when a thread runs as the
    executor. *)
Lemma sys_executor_running y t c :
  sys_reachable y -> ctl y !! t = Some (Live c) ->
  PIN_GetContextReg c executorReg <> 0 ->
  PIN_GetContextReg c executorReg = 1 /\
  executorTid (prot y) = t /\
  executorInSyscall (prot y) = false /\
  aget (threadStates (prot y)) (curTid (prot y)) = Some RUNNING /\
  1 <= capturedThreads (prot y).
Proof.
  intros Hy Hl Her.
  pose proof (sys_reachable_inv _ Hy) as [Hinv Htids _ Hexe _].
  pose proof (sys_reachable_run_inv _ Hy) as [_ _ Hpos _ _].
  destruct (Hexe _ _ Hl Her) as [He Hin].
  assert (t < MAX_THREADS) as Hlt by (apply Htids; eauto).
  assert (1 <= capturedThreads (prot y)) as Hn.
  { apply Hpos. rewrite He. by apply MAX_THREADS_NO_TID. }
  destruct (sys_live_reg _ _ _ Hy Hl) as [? | ?]; [done|].
  repeat split; try done. by apply inv_cur_running.
Qed.

(** X17.  At any time at most one thread runs as the executor.  In every
    state that the threads can reach, two threads whose live [executorReg]
    is set are the same thread: it is [executorTid], its [executorReg] is
    1, no uncapture is deferred, and the current thread is [RUNNING]. *)
Theorem one_executor y t1 c1 t2 c2 :
  sys_reachable y ->
  ctl y !! t1 = Some (Live c1) -> PIN_GetContextReg c1 executorReg <> 0 ->
  ctl y !! t2 = Some (Live c2) -> PIN_GetContextReg c2 executorReg <> 0 ->
  t1 = t2 /\ c1 = c2 /\
  executorTid (prot y) = t1 /\
  PIN_GetContextReg c1 executorReg = 1 /\
  executorInSyscall (prot y) = false /\
  aget (threadStates (prot y)) (curTid (prot y)) = Some RUNNING.
Proof.
  intros Hy Hl1 Her1 Hl2 Her2.
  destruct (sys_executor_running _ _ _ Hy Hl1 Her1) as (? & He1 & ? & ? & _).
  destruct (sys_executor_running _ _ _ Hy Hl2 Her2) as (_ & He2 & _).
  assert (t1 = t2) as <- by congruence.
  repeat split; try done. congruence.
Qed.

Lemma one_executor_witness :
  executorTid (prot sys_two) = 0 /\
  executorInSyscall (prot sys_two) = false /\
  aget (threadStates (prot sys_two)) (curTid (prot sys_two)) = Some RUNNING.
Proof.
  destruct (one_executor sys_two 0 (resumed (ctx_of 0 0 100) 1 0)
              0 (resumed (ctx_of 0 0 100) 1 0) sys_reachable_two)
    as (_ & _ & H1 & _ & H2 & H3);
    [exact sys_two_executor | vm_compute; discriminate
    | exact sys_two_executor | vm_compute; discriminate |].
  repeat split; assumption.
Defined.

(** The executor comes back from its deferred system call, or a thread is
    captured during it, when [capturedThreads] is no longer 1. *)
Lemma TraceGuard_running_fails cb ctxt s :
  PIN_GetContextReg ctxt executorReg = 0 ->
  aget (threadStates s) (curTid s) = Some RUNNING ->
  executorTid s = curTid s ->
  capturedThreads s <> 1 ->
  TraceGuard cb (curTid s) ctxt s = Fatal (AssertFailed 164).
Proof.
  intros Her Hrun He Hn.
  pose proof (aget_Some_lt _ _ _ Hrun) as Hlt.
  unfold TraceGuard. do 3 mstep. rewrite decide_True by done.
  do 5 mstep. by apply bind_Fatal, assert_False.
Qed.

Lemma TraceGuard_delayed_fails cb tid ctxt s :
  inv s ->
  executorInSyscall s = true ->
  executorTid s = curTid s ->
  2 <= capturedThreads s ->
  PIN_GetContextReg ctxt executorReg = 0 ->
  aget (threadStates s) tid = Some UNCAPTURED ->
  TraceGuard cb tid ctxt s = Fatal (AssertFailed 190).
Proof.
  intros Hinv Hin He Hn Her Hst.
  pose proof (wf_capturedThreads _ (inv_wf _ Hinv)) as Hmax.
  rewrite TraceGuard_uncaptured_run by done.
  unfold capture_result. fields.
  rewrite bool_decide_eq_false_2 by lia.
  unfold TraceGuard_delayed_uncapture. rewrite bind_assoc. mstep.
  rewrite Hin. cbn [when]. rewrite bind_assoc.
  repeat mstep. apply bind_Fatal, assert_False.
  intros H%u32_incr_two; [lia | done].
Qed.

(** X18.  In every state that the threads can reach, a thread that goes
    through [TraceGuard], that is with [RunTraceGuard] of its live
    [executorReg] set, is led out of the guard or parked, with these
    exceptions, all of them during a deferred uncapture
    ([executorInSyscall] is set).  With one captured thread, an uncapture
    callback that does not name the thread just captured is a panic.  With
    two captured threads or more, which is what [unblock] leaves when it is
    called while the executor is inside its system call, the executor that
    comes back fails the assertion of line 164 and a thread that is captured
    fails the assertion of line 190.  The other assertions of the guard
    (lines 152, 162, 163, 173, 183, 189, 227) never fail and no array is
    indexed out of bounds. *)
Theorem TraceGuard_in_system y cb tid c ctxt :
  sys_reachable y ->
  ctl y !! tid = Some (Live c) ->
  runs_to c ctxt ->
  RunTraceGuard (PIN_GetContextReg ctxt executorReg) <> 0 ->
  (exists k s', TraceGuard cb tid ctxt (prot y) = Ok k s') \/
  (executorInSyscall (prot y) = true /\
   capturedThreads (prot y) = 1 /\
   aget (threadStates (prot y)) tid = Some UNCAPTURED /\
   exists c0, aget (contexts (prot y)) (curTid (prot y)) = Some c0 /\
     cb (curTid (prot y)) c0 <> tid /\
     TraceGuard cb tid ctxt (prot y)
     = Fatal (Panic (if decide (MAX_THREADS <= cb (curTid (prot y)) c0)
                     then 132 else 134))) \/
  (executorInSyscall (prot y) = true /\
   2 <= capturedThreads (prot y) /\
   ((aget (threadStates (prot y)) tid = Some RUNNING /\
     TraceGuard cb tid ctxt (prot y) = Fatal (AssertFailed 164)) \/
    (aget (threadStates (prot y)) tid = Some UNCAPTURED /\
     TraceGuard cb tid ctxt (prot y) = Fatal (AssertFailed 190)))).
Proof.
  intros Hy Hl Hrt Hg.
  pose proof (sys_reachable_inv _ Hy) as [Hinv Htids Hsys _ Hout].
  assert (PIN_GetContextReg ctxt executorReg = 0) as Her.
  { unfold RunTraceGuard in Hg. by case_decide. }
  assert (PIN_GetContextReg c executorReg = 0) as Her'.
  { unfold runs_to in Hrt. congruence. }
  assert (tid < MAX_THREADS) as Hlt by (apply Htids; eauto).
  destruct (aget_is_Some (threadStates (prot y)) tid) as [st Hst];
    [by destruct Hinv as [[]] | done |].
  assert (executorInSyscall (prot y) = true ->
          capturedThreads (prot y) = 1 \/ 2 <= capturedThreads (prot y))
    as Hcases.
  { intros Hin. destruct (Hsys Hin) as (_ & Hrun).
    destruct (inv_captured_pos _ Hinv) as [_ Hpos]; [by eexists|]. lia. }
  destruct (Hout _ _ _ Hl Her' Hst) as [-> | (-> & Hin & He)].
  - destruct (executorInSyscall (prot y)) eqn:Hin.
    + destruct (Hsys eq_refl) as (He & Hrun).
      destruct (Hcases eq_refl) as [Hn | Hn].
      * destruct (inv_contexts_Some (prot y) (curTid (prot y)) Hinv)
          as [c0 Hc0]; [by eapply aget_Some_lt|].
        destruct (decide (cb (curTid (prot y)) c0 = tid)) as [Hcb | Hcb].
        -- left.
           destruct (TraceGuard_delayed_run cb tid ctxt c0 (prot y))
             as [-> ->]; try done. eauto.
        -- right. left. do 3 (split; [done|]). exists c0.
           split; [done|]. split; [done|]. by apply TraceGuard_delayed_panics.
      * right. right. do 2 (split; [done|]). right. split; [done|].
        by apply TraceGuard_delayed_fails.
    + left. rewrite TraceGuard_no_delay_run by done.
      destruct (capture_saved_inv (prot y) tid ctxt Hinv Hst) as [Hinv1 Hn1].
      by apply TraceGuard_loop_total.
  - destruct (Hsys Hin) as (He' & Hrun).
    assert (tid = curTid (prot y)) as -> by congruence.
    destruct (Hcases Hin) as [Hn | Hn].
    + left. rewrite TraceGuard_running_run by done. eauto.
    + right. right. do 2 (split; [done|]). left. split; [done|].
      apply TraceGuard_running_fails; try done. lia.
Qed.

Lemma TraceGuard_in_system_witness :
  (exists k s',
     TraceGuard (pick 0) 0 (ctx_of 0 0 100) (prot sys_started) = Ok k s') /\
  capturedThreads (prot sys_unblocked_in_syscall) = 2 /\
  TraceGuard (pick 1) 0 (ctx_of 0 0 102) (prot sys_unblocked_in_syscall)
  = Fatal (AssertFailed 164).
Proof.
  split; [|split; [vm_compute; reflexivity|]].
  - destruct (TraceGuard_in_system sys_started (pick 0) 0
                (PIN_SetContextReg (ctx_of 7 7 100) executorReg 0)
                (ctx_of 0 0 100) sys_reachable_started)
      as [H | [(H & _) | (H & _)]];
      [vm_compute; reflexivity | reflexivity | vm_compute; discriminate
      | exact H | vm_compute in H; discriminate H
      | vm_compute in H; discriminate H].
  - destruct (TraceGuard_in_system sys_unblocked_in_syscall (pick 1) 0
                (resumed (ctx_of 1 0 101) 0 ADDRINT_MINUS_ONE)
                (ctx_of 0 0 102) sys_reachable_unblocked_in_syscall)
      as [(k & s' & H) | [(_ & H & _) | (_ & _ & [(_ & H) | (H & _)])]];
      [vm_compute; reflexivity | reflexivity | vm_compute; discriminate
      | vm_compute in H; discriminate H
      | vm_compute in H; discriminate H
      | exact H
      | vm_compute in H; discriminate H].
Defined.

(** X19.  In every state that the threads can reach, a thread that comes
    to [SyscallGuard], that is with [RunSyscallGuard] of its live
    [executorReg] set, is the executor, and the guard succeeds, with two
    exceptions.  With two captured threads or more, the uncapture callback
    may name a thread that is not idle: a panic.  And when the executor runs
    another thread's code while that thread is the only captured one (the
    executor's own thread is not idle: it was blocked), the assertion of line
    250 fails: the last captured thread cannot make a system call on
    another thread's executor.  The assertions of lines 244 and 275 never
    fail. *)
Theorem SyscallGuard_in_system y cb tid c ctxt :
  let s := prot y in
  let next := cb (curTid s) ctxt in
  sys_reachable y ->
  ctl y !! tid = Some (Live c) ->
  runs_to c ctxt ->
  RunSyscallGuard (PIN_GetContextReg ctxt executorReg) <> 0 ->
  (exists k s', SyscallGuard cb tid ctxt s = Ok k s') \/
  (2 <= capturedThreads s /\ aget (threadStates s) next <> Some IDLE /\
   SyscallGuard cb tid ctxt s
   = Fatal (Panic (if decide (MAX_THREADS <= next) then 132 else 134))) \/
  (curTid s <> tid /\ capturedThreads s = 1 /\
   aget (threadStates s) tid <> Some IDLE /\
   SyscallGuard cb tid ctxt s = Fatal (AssertFailed 250)).
Proof.
  intros s next Hy Hl Hrt Hg. subst s next.
  pose proof (sys_reachable_inv _ Hy) as [Hinv Htids Hsys _ Hout].
  assert (PIN_GetContextReg c executorReg <> 0) as Her.
  { unfold runs_to, RunSyscallGuard in *. congruence. }
  destruct (sys_executor_running _ _ _ Hy Hl Her) as (_ & He & Hin & Hrun & Hn).
  pose proof (inv_wf _ Hinv) as Hwf.
  pose proof (aget_Some_lt _ _ _ Hrun) as Hlt.
  destruct (decide (2 <= capturedThreads (prot y))) as [H2 | H2].
  - destruct (decide (aget (threadStates (prot y))
                        (cb (curTid (prot y)) ctxt) = Some IDLE))
      as [Hnext | Hnext].
    + left. destruct (decide (curTid (prot y) = tid)) as [Heq | Hne].
      * rewrite <- Heq. rewrite SyscallGuard_hand_over_run by congruence.
        eauto.
      * destruct (inv_contexts_Some (prot y) (cb (curTid (prot y)) ctxt) Hinv)
          as [c' Hc']; [by eapply aget_Some_lt|].
        rewrite (SyscallGuard_ship_run cb tid ctxt (prot y) c') by done. eauto.
    + right; left. split; [done|]. split; [done|].
      by apply SyscallGuard_uncapture_panics.
  - assert (capturedThreads (prot y) = 1) as H1 by lia.
    destruct (decide (curTid (prot y) = tid)) as [Heq | Hne].
    + left. rewrite <- Heq. rewrite SyscallGuard_sole_run by congruence.
      eauto.
    + right; right. split; [done|]. split; [done|]. split.
      * intros Hidle.
        pose proof (countCaptured_two _ _ _ _ _ Hne Hrun Hidle eq_refl eq_refl).
        rewrite (inv_count _ Hinv) in H2. done.
      * apply SyscallGuard_too_few; try done. lia.
Qed.

Lemma SyscallGuard_in_system_witness :
  sys_reachable sys_switched_blocked /\
  SyscallGuard (pick 0) 0 (ctx_of 1 1 103) (prot sys_switched_blocked)
  = Fatal (AssertFailed 250).
Proof.
  split; [exact sys_reachable_switched_blocked|].
  destruct (SyscallGuard_in_system sys_switched_blocked (pick 0) 0
              (resumed (ctx_of 0 0 200) 1 1) (ctx_of 1 1 103)
              sys_reachable_switched_blocked)
    as [(k & s' & H) | [(H & _) | (_ & _ & _ & H)]];
    [vm_compute; reflexivity | reflexivity | vm_compute; discriminate
    | vm_compute in H; discriminate H
    | vm_compute in H; exfalso; apply H; reflexivity
    | exact H].
Defined.

(** X20.  In every state that the threads can reach, when the executor
    comes to [SwitchHandler], that is with [NeedsSwitch] of its live
    [switchReg] set, the handler succeeds, with three exceptions: the request
    names the current thread while the block-after-switch flag is armed (the
    panic of line 298); it names a thread that is not idle (the panic of line
    305); or [switchReg] holds a value of 2^32 or more whose low 32 bits are
    the current thread, which [NeedsSwitch], comparing 64 bits, lets
    through and the assertion of line 302, comparing the 32 bits kept of it,
    rejects.  The assertions of lines 301, 303 and 314 never fail, nor does
    the panic of line 295 occur. *)
Theorem SwitchHandler_in_system y tid c ctxt :
  let s := prot y in
  let next := u32 (PIN_GetContextReg ctxt switchReg) in
  sys_reachable y ->
  ctl y !! tid = Some (Live c) ->
  runs_to c ctxt ->
  PIN_GetContextReg ctxt executorReg <> 0 ->
  NeedsSwitch (PIN_GetContextReg ctxt switchReg) s <> 0 ->
  (exists k s', SwitchHandler tid ctxt s = Ok k s') \/
  (blockAfterSwitchcall s = true /\ next = curTid s /\
   SwitchHandler tid ctxt s = Fatal (Panic 298)) \/
  (next <> curTid s /\ aget (threadStates s) next <> Some IDLE /\
   SwitchHandler tid ctxt s = Fatal (Panic 305)) \/
  (2 ^ 32 <= PIN_GetContextReg ctxt switchReg /\
   blockAfterSwitchcall s = false /\ next = curTid s /\
   SwitchHandler tid ctxt s = Fatal (AssertFailed 302)).
Proof.
  intros s next Hy Hl Hrt Her Hg. subst s next.
  pose proof (sys_reachable_inv _ Hy) as [Hinv Htids Hsys _ Hout].
  assert (PIN_GetContextReg c executorReg <> 0) as Her'.
  { unfold runs_to in *. congruence. }
  destruct (sys_executor_running _ _ _ Hy Hl Her')
    as (Her1 & He & Hin & Hrun & Hn).
  assert (PIN_GetContextReg ctxt executorReg = 1) as Her2.
  { unfold runs_to in *. congruence. }
  pose proof (inv_wf _ Hinv) as Hwf.
  pose proof (aget_Some_lt _ _ _ Hrun) as Hlt.
  set (next := u32 (PIN_GetContextReg ctxt switchReg)).
  destruct (decide (next = curTid (prot y))) as [Heq | Hne].
  - destruct (blockAfterSwitchcall (prot y)) eqn:Hb.
    + right; left. split; [done|]. split; [done|].
      unfold SwitchHandler. repeat mstep. reflexivity.
    + right; right; right.
      assert (PIN_GetContextReg ctxt switchReg <> curTid (prot y)) as Hsw.
      { unfold NeedsSwitch in Hg. rewrite Hb in Hg.
        case_decide; [done|]. by cbn in Hg. }
      split.
      * apply N.le_ngt. intros Hsmall. apply Hsw.
        rewrite <- Heq. subst next. by rewrite u32_small.
      * split; [done|]. split; [done|].
        unfold SwitchHandler. do 4 mstep.
        rewrite decide_False by (intros [? _]; congruence).
        repeat mstep. apply bind_Fatal, assert_False. by intros ?.
  - destruct (decide (aget (threadStates (prot y)) next = Some IDLE))
      as [Hnext | Hnext].
    + left.
      destruct (inv_contexts_Some (prot y) next Hinv) as [c' Hc'];
        [by eapply aget_Some_lt|].
      eexists _, _. apply SwitchHandler_Ok. cbv zeta. fold next.
      repeat split; try done.
      * by apply inv_contexts_Some.
      * eauto.
    + right; right; left. split; [done|]. split; [done|].
      unfold SwitchHandler. fold next.
      destruct (decide (MAX_THREADS <= next)) as [Hge | Hlt'].
      * repeat mstep. reflexivity.
      * destruct (aget_is_Some (threadStates (prot y)) next) as [st Hst];
          [by destruct Hwf | lia |].
        assert (st <> IDLE) by congruence.
        repeat mstep. reflexivity.
Qed.

Lemma SwitchHandler_in_system_witness :
  exists k s', SwitchHandler 0 (ctx_of 1 1 102) (prot sys_two) = Ok k s'.
Proof.
  destruct (SwitchHandler_in_system sys_two 0 (resumed (ctx_of 0 0 100) 1 0)
              (ctx_of 1 1 102) sys_reachable_two)
    as [H | [(H & _) | [(_ & H & _) | (H & _)]]];
    [exact sys_two_executor | reflexivity | vm_compute; discriminate
    | vm_compute; discriminate
    | exact H
    | vm_compute in H; discriminate H
    | exfalso; apply H; vm_compute; reflexivity
    | vm_compute in H; exfalso; apply H; reflexivity].
Defined.

(** ** No wake-up is lost *)

Lemma wake_inv_init : wake_inv sys_init.
Proof.
  split; unfold sys_init; cbn [prot ctl].
  - done.
  - intros t st Hl. by rewrite lookup_empty in Hl.
Qed.

(** A step that changes no wait lock, no thread state and no executor, and
    parks no thread. *)
Lemma wake_inv_frame y s' ctl' :
  wake_inv y ->
  threadStates s' = threadStates (prot y) ->
  waitLocks s' = waitLocks (prot y) ->
  executorTid s' = executorTid (prot y) ->
  executorInSyscall s' = executorInSyscall (prot y) ->
  (forall t k, ctl' !! t = Some k -> parked k = true -> ctl y !! t = Some k) ->
  wake_inv (mkSystem s' ctl').
Proof.
  intros [Hs Hw] Hts Hwl He Hin Hctl.
  split; cbn [prot ctl]; rewrite ?Hts, ?Hwl, ?He, ?Hin.
  - intros Hi k Hk. destruct (parked k) eqn:Hp; [|done].
    apply Hctl in Hk; [|done]. by rewrite (Hs Hi k Hk) in Hp.
  - intros t st Hl. apply Hctl in Hl; [|done]. by apply Hw.
Qed.

Ltac ctl_exec tid Hl :=
  let E := fresh "E" in
  match type of Hl with
  | <[tid := _]> _ !! ?e = _ =>
      destruct (decide (tid = e)) as [E | E];
      [ rewrite <- E in Hl; rewrite lookup_insert_eq in Hl; cbn [after] in Hl;
        simplify_eq
      | rewrite lookup_insert_ne in Hl by done ]
  end.

Lemma sys_step_wake_inv y y' :
  sys_reachable y -> wake_inv y -> sys_step y y' -> wake_inv y'.
Proof.
  intros Hy Hwi Hstep.
  pose proof (sys_reachable_inv _ Hy) as [Hinv Htids Hsys Hexe Hout].
  pose proof (sys_reachable_run_inv _ Hy) as [_ Huniq Hpos _ _].
  pose proof (inv_wf _ Hinv) as Hwf.
  pose proof (wf_threadStates _ Hwf) as Hlen.
  pose proof (wf_waitLocks _ Hwf) as Hlenw.
  destruct Hstep as
    [tid ctxt c s' y Hlt Hnone H | tid c s' y Hl H
    | cb tid c ctxt k s' y Hl Hrun Hg H | tid s' y Hl H | tid k s' y Hl H
    | cb tid c ctxt k s' y Hl Hrun Hg H | tid c ctxt k s' y Hl Hrun Hg H
    | s' y H | t0 s' y H | t0 s' y H].
  - (* ThreadStart *)
    apply ThreadStart_Ok in H as (_ & -> & ->).
    apply (wake_inv_frame y); try done.
    intros t k Hk Hp. ctl_cases t tid Hk; done.
  - (* ThreadFini *)
    apply ThreadFini_Ok in H as (_ & ->).
    apply (wake_inv_frame y); try done.
    intros t k [_ Hk]%lookup_delete_Some _. done.
  - (* TraceGuard *)
    assert (tid < MAX_THREADS) as Hlt by (apply Htids; eauto).
    apply TraceGuard_Ok in H
      as (Her & [(Hst & He & Hc & Hn & -> & ->) | (Hst & _ & s2 & Hd & Hloop)]).
    + destruct Hwi as [Hs Hw].
      split; cbn [prot ctl after]; unfold trace_resumed; fields; [done|].
      intros t st Hk. ctl_cases t tid Hk. by apply Hw.
    + apply TraceGuard_delayed_uncapture_Ok in Hd. fields.
      apply TraceGuard_loop_Ok in Hloop.
      destruct Hwi as [Hs Hw].
      destruct Hd as [[Hin ->] | (Hin & Hce & Hn & c1 & Hc1 & Hnext & Hrn & ->)];
        unfold delayed_uncapture_result, uncaptured_and_switched in Hloop;
        fields;
        destruct Hloop as [(He & -> & ->) | (He & c2 & Hc2 & -> & ->)];
        try done;
        unfold became_executor, delayed_uncapture_result,
          uncaptured_and_switched, capture_result in *; fields;
        (split; cbn [prot ctl after]; fields; [by intros ?; congruence|]).
      * (* captured, parks behind the executor *)
        intros t st Hk Hlk Hst'.
        assert (1 <= capturedThreads (prot y)) as H1 by (by apply Hpos).
        rewrite bool_decide_eq_false_2 in Hst' by lia.
        rewrite aget_aset_full in Hst' by done.
        case_decide; simplify_eq; [done|].
        ctl_cases t tid Hk. by eapply Hw.
      * (* captured, takes the vacant executor role *)
        intros t st Hk Hlk Hst'. ctl_cases t tid Hk.
        rewrite aget_aset_ne in Hst' by done.
        destruct (Hw _ _ Hk Hlk Hst') as [? _]. split; [done|].
        intros _. by apply MAX_THREADS_NO_TID.
      * (* runs the deferred uncapture *)
        intros t st Hk Hlk Hst'. ctl_cases t tid Hk.
        destruct (Hsys Hin) as (Hec & Hcr).
        assert (capturedThreads (prot y) = 1) as Hone
          by (apply u32_incr_two; [apply Hwf | done]).
        rewrite Hone in *. rewrite bool_decide_eq_false_2 in * by done.
        split; [|intros _; by apply MAX_THREADS_NO_TID].
        pose proof (aget_Some_lt _ _ _ Hcr) as Hltc.
        pose proof (aget_Some_lt _ _ _ Hnext) as Hltn.
        rewrite !aget_aset_full in Hst' by (by rewrite ?length_aset).
        repeat case_decide; simplify_eq; try done.
        -- (* the executor inside its system call does not sleep *)
           rewrite <- Hec in Hk. by pose proof (Hs Hin _ Hk).
        -- by destruct (Hw _ _ Hk Hlk Hst').
  - (* waitLocks[tid].lock() *)
    assert (tid < MAX_THREADS) as Hlt by (apply Htids; eauto).
    apply waitLocks_lock_Some in H as (Hfree & ->).
    destruct Hwi as [Hs Hw].
    split; cbn [prot ctl]; fields.
    + intros Hin k Hk. ctl_exec tid Hk; [|by eapply Hs].
      by pose proof (Hs Hin _ Hl).
    + intros t st Hk Hlk Hst'. ctl_cases t tid Hk.
      rewrite aget_aset_ne in Hlk by done. by eapply Hw.
  - (* the wake-up *)
    assert (tid < MAX_THREADS) as Hlt by (apply Htids; eauto).
    destruct Hwi as [Hs Hw].
    apply TraceGuard_wakeup_Ok in H
      as [(Hst & c & Hc & -> & ->) | ([st0 Hst0] & Hnu & Hloop)].
    + split; cbn [prot ctl after]; unfold took_syscall; fields.
      * intros Hin k Hk.
        ctl_exec tid Hk; [done | by eapply Hs].
      * intros t st Hk. ctl_cases t tid Hk. by apply Hw.
    + apply TraceGuard_loop_Ok in Hloop
        as [(He & -> & ->) | (He & c & Hc & -> & ->)].
      * split; cbn [prot ctl after].
        -- intros Hin k Hk.
           ctl_exec tid Hk; [|by eapply Hs].
           by pose proof (Hs Hin _ Hl).
        -- intros t st Hk Hlk Hst'. ctl_cases t tid Hk; [|by eapply Hw].
           split; [congruence | done].
      * assert (executorInSyscall (prot y) = false) as Hin.
        { destruct (executorInSyscall (prot y)); [|done].
          destruct Hsys as (Hec & Hcr%aget_Some_lt%MAX_THREADS_NO_TID);
            [done | congruence]. }
        split; cbn [prot ctl after]; unfold became_executor; fields;
          [by intros ?; congruence|].
        intros t st Hk Hlk Hst'. ctl_cases t tid Hk.
        destruct (Hw _ _ Hk Hlk Hst') as [? _]. split; [done|].
        intros _. by apply MAX_THREADS_NO_TID.
  - (* SyscallGuard *)
    assert (tid < MAX_THREADS) as Hlt by (apply Htids; eauto).
    assert (PIN_GetContextReg c executorReg <> 0) as Her.
    { unfold runs_to, RunSyscallGuard in *. congruence. }
    destruct (Hexe _ _ Hl Her) as [Hexec Hin].
    destruct Hwi as [Hs Hw].
    assert (executorTid (prot y) <> NO_TID) as Hex
      by (rewrite Hexec; by apply MAX_THREADS_NO_TID).
    apply SyscallGuard_Ok in H as (_ & Hsc & H). cbv zeta in H.
    destruct H as [(Hne & _ & Hnext & Hrn & c' & _ & -> & ->) |
                  [(Heq & _ & Hnext & Hrn & -> & ->) |
                   (Heq & Hn & _ & -> & ->)]].
    + unfold syscall_shipped.
      split; cbn [prot ctl after]; fields; [by intros ?; congruence|].
      intros t st Hk Hlk Hst'. ctl_cases t tid Hk.
      pose proof (aget_Some_lt _ _ _ Hrn) as Hltc.
      pose proof (aget_Some_lt _ _ _ Hnext) as Hltn.
      rewrite aget_aset_full in Hlk by done.
      rewrite !aget_aset_full in Hst' by (by rewrite ?length_aset).
      repeat case_decide; simplify_eq; try done.
      by eapply Hw.
    + unfold syscall_handed_over.
      split; cbn [prot ctl after]; fields; [by intros ?; congruence|].
      intros t st Hk Hlk Hst'. ctl_cases t tid Hk.
      pose proof (aget_Some_lt _ _ _ Hrn) as Hltc.
      pose proof (aget_Some_lt _ _ _ Hnext) as Hltn.
      rewrite aget_aset_full in Hlk by done.
      rewrite !aget_aset_full in Hst' by (by rewrite ?length_aset).
      repeat case_decide; simplify_eq; try done.
      destruct (Hw _ _ Hk Hlk Hst') as [? _]. split; [done|].
      intros ->. apply Huniq in Hst'. congruence.
    + unfold syscall_deferred.
      split; cbn [prot ctl after]; fields.
      * intros _ k Hk. rewrite Hexec in Hk.
        rewrite lookup_insert_eq in Hk. by simplify_eq.
      * intros t st Hk. ctl_cases t tid Hk. by apply Hw.
  - (* SwitchHandler *)
    assert (tid < MAX_THREADS) as Hlt by (apply Htids; eauto).
    destruct Hwi as [Hs Hw].
    apply SwitchHandler_Ok in H. cbv zeta in H.
    destruct H as (Her & _ & Hne & Hnext & Hrn & _ & c' & _ & -> & ->).
    assert (PIN_GetContextReg c executorReg <> 0) as Her0.
    { unfold runs_to in Hrun. rewrite <- Hrun, Her. done. }
    destruct (Hexe _ _ Hl Her0) as [Hexec Hin].
    unfold switched.
    split; cbn [prot ctl after]; fields; [by intros ?; congruence|].
    intros t st Hk Hlk Hst'. ctl_cases t tid Hk.
    pose proof (aget_Some_lt _ _ _ Hrn) as Hltc.
    pose proof (aget_Some_lt _ _ _ Hnext) as Hltn.
    rewrite !aget_aset_full in Hst' by (by rewrite ?length_aset).
    assert (executorTid (prot y) <> NO_TID) as Hex
      by (rewrite Hexec; by apply MAX_THREADS_NO_TID).
    repeat case_decide; simplify_eq; try done.
    + by destruct (blockAfterSwitchcall (prot y)).
    + destruct (Hw _ _ Hk Hlk Hst') as [? _]. done.
  - (* blockAfterSwitch *)
    apply blockAfterSwitch_Ok in H as (_ & ->).
    apply (wake_inv_frame y); done.
  - (* blockIdleThread *)
    destruct Hwi as [Hs Hw].
    apply blockIdleThread_Ok in H as (Hidle & _ & ->).
    unfold blocked_idle.
    split; cbn [prot ctl]; fields; [done|].
    intros t st Hk Hlk Hst'.
    pose proof (aget_Some_lt _ _ _ Hidle) as Hlti.
    rewrite aget_aset_full in Hst' by done.
    case_decide; simplify_eq; [done|]. by eapply Hw.
  - (* unblock *)
    destruct Hwi as [Hs Hw].
    apply unblock_Ok in H as (Hblocked & ->).
    unfold unblocked.
    split; cbn [prot ctl]; fields; [done|].
    intros t st Hk Hlk Hst'.
    pose proof (aget_Some_lt _ _ _ Hblocked) as Hlti.
    rewrite aget_aset_full in Hst' by done.
    case_decide; simplify_eq; [done|]. by eapply Hw.
Qed.

Lemma sys_reachable_wake_inv y : sys_reachable y -> wake_inv y.
Proof.
  induction 1 as [|y y' Hy IH Hstep];
    [apply wake_inv_init | by eapply sys_step_wake_inv].
Qed.

(** X21.  No wake-up is lost.  In every state that the threads can reach,
    a thread that sleeps in the loop of [TraceGuard] while it has something
    to do (its state is [UNCAPTURED]: a system call was shipped to it; or it
    is the [RUNNING] thread and the executor role is vacant: the run was
    handed to it) has been signalled: its wait lock is free.  It can take
    the lock and go through the wake-up, which leads it out of the guard: to
    its own system call in the first case, to its own code as the executor
    in the second. *)
Theorem no_lost_wakeup y t st :
  sys_reachable y ->
  ctl y !! t = Some Waiting ->
  aget (threadStates (prot y)) t = Some st ->
  st = UNCAPTURED \/ (st = RUNNING /\ executorTid (prot y) = NO_TID) ->
  aget (waitLocks (prot y)) t = Some false /\
  exists c y1 y2,
    sys_step y y1 /\ sys_step y1 y2 /\
    ctl y2 !! t = Some (Live c) /\
    (st = UNCAPTURED -> syscall_exit t c (prot y2)) /\
    (st = RUNNING -> executor_exit t c (prot y2) /\ curTid (prot y2) = t).
Proof.
  intros Hy Hl Hst Hwork.
  pose proof (sys_reachable_inv _ Hy) as [Hinv Htids _ _ _].
  pose proof (sys_reachable_run_inv _ Hy) as [_ Huniq _ _ _].
  pose proof (sys_reachable_wake_inv _ Hy) as [_ Hw].
  pose proof (inv_wf _ Hinv) as Hwf.
  pose proof (aget_Some_lt _ _ _ Hst) as Hlt.
  destruct (aget_is_Some (waitLocks (prot y)) t) as [b Hb];
    [by destruct Hwf | done |].
  assert (b = false) as ->.
  { destruct b; [|done]. destruct (Hw _ _ Hl Hb Hst) as [Hnu Hrun].
    destruct Hwork as [-> | [-> He]]; [done | by destruct Hrun]. }
  split; [done|].
  set (s1 := set_waitLocks (aset (waitLocks (prot y)) t true) (prot y)).
  assert (waitLocks_lock t (prot y) = Some s1) as Hlock
    by (by apply waitLocks_lock_Some).
  set (y1 := mkSystem s1 (<[t := Woken]> (ctl y))).
  assert (sys_step y y1) as Hstep1 by (by apply sys_waitLocks_lock).
  assert (exists c s2, TraceGuard_wakeup t s1 = Ok (ExecuteAt c) s2 /\
            (st = UNCAPTURED -> syscall_exit t c s2) /\
            (st = RUNNING -> executor_exit t c s2 /\ curTid s2 = t))
    as (c & s2 & Hwake & Hsys & Hexe).
  { destruct Hwork as [-> | [-> He]].
    - destruct (inv_contexts_Some (prot y) t Hinv Hlt) as [c0 Hc0].
      eexists _, _. split; [by apply (TraceGuard_wakeup_syscall t s1 c0)|].
      split; [|done]. intros _.
      unfold syscall_exit, took_syscall. fields.
      repeat split; try done. apply aget_aset_eq. eauto.
    - assert (t = curTid (prot y)) as Hcur by (by apply Huniq).
      destruct (inv_contexts_Some (prot y) t Hinv Hlt) as [c0 Hc0].
      eexists _, _. split.
      + apply (TraceGuard_wakeup_executor t s1 RUNNING c0); try done.
        unfold s1. fields. by rewrite <- Hcur.
      + split; [done|]. intros _.
        unfold executor_exit, became_executor, s1. fields. rewrite <- Hcur.
        repeat split; try done. apply aget_aset_eq. eauto. }
  exists c, y1, (mkSystem s2 (<[t := after (ExecuteAt c)]> (ctl y1))).
  split; [done|]. split.
  - apply sys_TraceGuard_wakeup; [|done]. unfold y1. cbn [ctl].
    apply lookup_insert_eq.
  - cbn [prot ctl]. split; [apply lookup_insert_eq | done].
Qed.

Lemma no_lost_wakeup_witness :
  aget (waitLocks (prot sys_handed)) 1 = Some false /\
  exists c y1 y2,
    sys_step sys_handed y1 /\ sys_step y1 y2 /\
    ctl y2 !! 1 = Some (Live c) /\
    executor_exit 1 c (prot y2).
Proof.
  destruct (no_lost_wakeup sys_handed 1 RUNNING sys_reachable_handed)
    as (H1 & c & y1 & y2 & H2 & H3 & H4 & _ & H5);
    [vm_compute; reflexivity | vm_compute; reflexivity
    | right; split; vm_compute; reflexivity |].
  split; [exact H1|]. exists c, y1, y2.
  repeat split; try assumption. all: apply H5; reflexivity.
Defined.

(** ** The deferred system call

    How far the state that the assertions of lines 162-164 and 189-190
    expect is kept: [unblock] and [blockIdleThread] can be called at any
    time, also while the executor is inside its system call. *)

(** X24.  In every state that the threads can reach, while
    [executorInSyscall] is set there is an executor, it is the current
    thread, its state is [RUNNING], and it runs its own code with
    [executorReg] clear (it is not parked).  A thread that enters
    [TraceGuard] while its state is [RUNNING] is that executor, and the flag
    is set: the assertions of lines 162 and 163 hold.  [capturedThreads] is
    1 when the flag is set, and while the flag stays set only [unblock]
    (plus 1) and [blockIdleThread] (minus 1) change it: the assertions of
    lines 164 and 190 can fail only after an [unblock] during the system
    call. *)
Theorem deferred_syscall_executor y :
  sys_reachable y ->
  (executorInSyscall (prot y) = true ->
   executorTid (prot y) < MAX_THREADS /\
   executorTid (prot y) = curTid (prot y) /\
   aget (threadStates (prot y)) (executorTid (prot y)) = Some RUNNING /\
   1 <= capturedThreads (prot y) /\
   forall k, ctl y !! executorTid (prot y) = Some k ->
     exists c, k = Live c /\ PIN_GetContextReg c executorReg = 0) /\
  (forall tid c,
     ctl y !! tid = Some (Live c) ->
     RunTraceGuard (PIN_GetContextReg c executorReg) <> 0 ->
     aget (threadStates (prot y)) tid = Some RUNNING ->
     executorInSyscall (prot y) = true /\
     executorTid (prot y) = tid /\
     curTid (prot y) = tid) /\
  (forall y', sys_step y y' -> executorInSyscall (prot y') = true ->
     (executorInSyscall (prot y) = false -> capturedThreads (prot y') = 1) /\
     (executorInSyscall (prot y) = true ->
      capturedThreads (prot y') = capturedThreads (prot y) \/
      (exists t, unblock t (prot y) = Ok tt (prot y') /\
         capturedThreads (prot y') = capturedThreads (prot y) + 1) \/
      (exists t, blockIdleThread t (prot y) = Ok tt (prot y') /\
         capturedThreads (prot y') + 1 = capturedThreads (prot y)))).
Proof.
  intros Hy.
  pose proof (sys_reachable_inv _ Hy) as [Hinv Htids Hsys Hexe Hout].
  pose proof (sys_reachable_wake_inv _ Hy) as [Hpark _].
  pose proof (inv_wf _ Hinv) as Hwf.
  split; [|split].
  - intros Hin. destruct (Hsys Hin) as (He & Hrun).
    destruct (inv_captured_pos _ Hinv) as [_ Hpos]; [by eexists|].
    rewrite He. repeat split; try done; [by eapply aget_Some_lt|].
    intros k Hk. rewrite <- He in Hk.
    pose proof (Hpark Hin _ Hk) as Hp.
    destruct k as [c| |]; try done. exists c. split; [done|].
    destruct (decide (PIN_GetContextReg c executorReg = 0)) as [|Hne]; [done|].
    destruct (Hexe _ _ Hk Hne). congruence.
  - intros tid c Hl Hg Hst.
    assert (PIN_GetContextReg c executorReg = 0) as Her.
    { unfold RunTraceGuard in Hg. by case_decide. }
    destruct (Hout _ _ _ Hl Her Hst) as [? | (_ & Hin & He)]; [done|].
    destruct (Hsys Hin) as (He' & _).
    repeat split; congruence.
  - intros y' Hstep Hin'.
    destruct Hstep as
      [tid ctxt c s' y Hlt Hnone H | tid c s' y Hl H
      | cb tid c ctxt k s' y Hl Hrun Hg H | tid s' y Hl H | tid k s' y Hl H
      | cb tid c ctxt k s' y Hl Hrun Hg H | tid c ctxt k s' y Hl Hrun Hg H
      | s' y H | t0 s' y H | t0 s' y H]; cbn [prot] in *.
    + apply ThreadStart_Ok in H as (_ & _ & ->). fields.
      split; [congruence | by left].
    + apply ThreadFini_Ok in H as (_ & ->). fields.
      split; [congruence | by left].
    + apply TraceGuard_Ok in H
        as (Her & [(Hst & He & Hc & Hn & -> & ->) | (Hst & _ & s2 & Hd & Hloop)]).
      { unfold trace_resumed in Hin'. fields. done. }
      apply TraceGuard_delayed_uncapture_Ok in Hd. fields.
      apply TraceGuard_loop_Ok in Hloop.
      destruct Hd as [[Hin ->] | (Hin & Hce & Hn & c1 & Hc1 & Hnext & Hrn & ->)];
        destruct Hloop as [(He & -> & ->) | (He & c2 & Hc2 & -> & ->)];
        unfold became_executor, delayed_uncapture_result,
          uncaptured_and_switched, capture_result in *; fields; congruence.
    + apply waitLocks_lock_Some in H as (_ & ->). fields.
      split; [congruence | by left].
    + apply TraceGuard_wakeup_Ok in H
        as [(Hst & c & Hc & -> & ->) | (_ & _ & Hloop)].
      { unfold took_syscall in *. fields. split; [congruence | by left]. }
      apply TraceGuard_loop_Ok in Hloop
        as [(He & -> & ->) | (He & c & Hc & -> & ->)];
        unfold became_executor in *; fields; (split; [congruence | by left]).
    + assert (PIN_GetContextReg c executorReg <> 0) as Her.
      { unfold runs_to, RunSyscallGuard in *. congruence. }
      destruct (Hexe _ _ Hl Her) as [Hexec Hin].
      apply SyscallGuard_Ok in H as (_ & Hsc & H). cbv zeta in H.
      destruct H as [(Hne & _ & Hnext & Hrn & c' & _ & -> & ->) |
                    [(Heq & _ & Hnext & Hrn & -> & ->) |
                     (Heq & Hn & _ & -> & ->)]];
        unfold syscall_shipped, syscall_handed_over, syscall_deferred in *;
        fields; try congruence.
      split; [|congruence]. intros _.
      destruct (inv_captured_pos _ Hinv) as [_ Hpos];
        [apply aget_is_Some; [by destruct Hwf | rewrite Heq; apply Htids; eauto] |].
      lia.
    + apply SwitchHandler_Ok in H. cbv zeta in H.
      destruct H as (Her & _ & Hne & Hnext & Hrn & _ & c' & _ & -> & ->).
      assert (PIN_GetContextReg c executorReg <> 0) as Her0.
      { unfold runs_to in Hrun. rewrite <- Hrun, Her. done. }
      destruct (Hexe _ _ Hl Her0) as [Hexec Hin].
      unfold switched in *. fields. congruence.
    + apply blockAfterSwitch_Ok in H as (_ & ->). fields.
      split; [congruence | by left].
    + pose proof H as H0.
      apply blockIdleThread_Ok in H as (Hidle & Hn & ->).
      unfold blocked_idle in *. fields.
      split; [congruence|]. intros _. right. right. exists t0.
      split; [done|].
      pose proof (wf_capturedThreads _ Hwf).
      rewrite u32_decr_small by lia. lia.
    + pose proof H as H0.
      apply unblock_Ok in H as (Hblocked & ->).
      unfold unblocked in *. fields.
      split; [congruence|]. intros _. right. left. exists t0.
      split; [done|].
      pose proof (countCaptured_bound _ Hwf) as Hb.
      rewrite <- (inv_count _ Hinv) in Hb. unfold MAX_THREADS in Hb.
      rewrite u32_incr_small by lia. done.
Qed.

Lemma deferred_syscall_executor_witness :
  executorTid (prot sys_blocked_deferred) = curTid (prot sys_blocked_deferred) /\
  capturedThreads (prot sys_blocked_deferred) = 1 /\
  (capturedThreads (prot sys_unblocked_in_syscall)
   = capturedThreads (prot sys_blocked_deferred) \/
   (exists t,
      unblock t (prot sys_blocked_deferred)
      = Ok tt (prot sys_unblocked_in_syscall) /\
      capturedThreads (prot sys_unblocked_in_syscall)
      = capturedThreads (prot sys_blocked_deferred) + 1) \/
   (exists t,
      blockIdleThread t (prot sys_blocked_deferred)
      = Ok tt (prot sys_unblocked_in_syscall) /\
      capturedThreads (prot sys_unblocked_in_syscall) + 1
      = capturedThreads (prot sys_blocked_deferred))).
Proof.
  split; [|split].
  - refine (proj1 (proj2 (proj1
      (deferred_syscall_executor sys_blocked_deferred
         sys_reachable_blocked_deferred) _))).
    vm_compute. reflexivity.
  - refine (proj1 (proj2 (proj2
      (deferred_syscall_executor sys_blocked sys_reachable_blocked))
      sys_blocked_deferred _ _) _).
    + eapply (sys_SyscallGuard (pick 0) 0 _ (ctx_of 1 0 101) _ _ sys_blocked).
      * exact sys_two_executor.
      * reflexivity.
      * vm_compute. discriminate.
      * vm_compute. reflexivity.
    + vm_compute. reflexivity.
    + vm_compute. reflexivity.
  - refine (proj2 (proj2 (proj2
      (deferred_syscall_executor sys_blocked_deferred
         sys_reachable_blocked_deferred))
      sys_unblocked_in_syscall _ _) _).
    + apply (sys_unblock 1 st_unblocked_in_syscall sys_blocked_deferred).
      vm_compute. reflexivity.
    + vm_compute. reflexivity.
    + vm_compute. reflexivity.
Defined.

(** ** The instrumentation *)

Section InstrumentationProofs.

Variable INS_IsSyscall : INS -> bool.
Variable traceCallback : TRACE -> TraceInfo -> TraceInfo.

Lemma then_calls_app f l1 l2 :
  then_calls f (l1 ++ l2) = then_calls f l1 ++ then_calls f l2.
Proof.
  induction l1 as [|c l1 IH]; [done|]. destruct c; cbn [then_calls app]; [done|].
  case_decide; [|done]. by rewrite IH.
Qed.

Lemma well_paired_app l1 l2 :
  well_paired l1 = true -> well_paired l2 = true ->
  well_paired (l1 ++ l2) = true.
Proof.
  intros H1 H2. remember (length l1) as n eqn:Hn.
  revert l1 Hn H1. induction n as [n IH] using lt_wf_ind. intros l1 Hn H1.
  destruct l1 as [|[ins p f a|] [|[|ins' p' g a'] l1]];
    try done; destruct p; try done; destruct p'; try done.
  cbn [app well_paired] in *.
  apply andb_prop in H1 as [H1 H1'].
  rewrite H1. cbn [andb]. apply (IH (length l1)); [cbn in Hn; lia | done | done].
Qed.

Lemma Trace_syscalls_then f l :
  then_calls f (Trace_syscalls INS_IsSyscall l)
  = if decide (f = Fun_SyscallGuard)
    then filter (fun ins => INS_IsSyscall ins = true) l else [].
Proof.
  induction l as [|ins l IH]; [by case_decide|].
  cbn [Trace_syscalls]. rewrite then_calls_app, IH, filter_cons.
  destruct (INS_IsSyscall ins); cbn [insert_SyscallGuard then_calls];
    repeat case_decide; simplify_eq; done.
Qed.

Lemma Trace_syscalls_paired l :
  well_paired (Trace_syscalls INS_IsSyscall l) = true.
Proof.
  induction l as [|ins l IH]; [done|]. cbn [Trace_syscalls].
  destruct (INS_IsSyscall ins); [|done].
  cbn [insert_SyscallGuard app well_paired predicate_of].
  by rewrite !bool_decide_eq_true_2.
Qed.

Lemma Trace_switchpoints_panic first sps :
  Trace_switchpoints INS_IsSyscall first sps = TracePanic 380 <->
  Exists (fun sp => sp.2 <> IPOINT_BEFORE) sps.
Proof.
  induction sps as [|[ins p] sps IH]; cbn [Trace_switchpoints].
  - split; [done | by intros ?%Exists_nil].
  - rewrite Exists_cons. cbn [snd]. case_decide as Hp.
    + split; [by left | done].
    + destruct (bool_decide (ins = first) && INS_IsSyscall ins).
      * rewrite IH. split; [by right | by intros [? | ?]].
      * destruct (Trace_switchpoints INS_IsSyscall first sps) eqn:E.
        -- split; [done | intros [? | H]; [done|]]. by apply IH in H.
        -- split; [intros [= ->]; right; by apply IH|].
           intros [? | H]; [done|]. by apply IH in H.
        -- split; [done | intros [? | H]; [done|]]. by apply IH in H.
Qed.

Lemma Trace_switchpoints_run first sps :
  Forall (fun sp => sp.2 = IPOINT_BEFORE) sps ->
  exists calls,
    Trace_switchpoints INS_IsSyscall first sps = Instrumented calls /\
    well_paired calls = true /\
    forall f, then_calls f calls
      = if decide (f = Fun_SwitchHandler)
        then (filter (handled INS_IsSyscall first) sps).*1 else [].
Proof.
  induction 1 as [|[ins p] sps Hp _ (calls & IH & Hpair & Hthen)];
    cbn [Trace_switchpoints].
  - exists []. split; [done|]. split; [done|]. intros f. by case_decide.
  - cbn [snd] in Hp. subst p. rewrite decide_False by (by intros ?).
    rewrite filter_cons.
    destruct (decide (handled INS_IsSyscall first (ins, IPOINT_BEFORE))) as [Hh | Hh];
      unfold handled in Hh; cbn [fst] in Hh.
    + assert (bool_decide (ins = first) && INS_IsSyscall ins = false) as ->.
      { apply andb_false_iff. case_bool_decide; [right | by left].
        destruct (INS_IsSyscall ins); [|done]. exfalso. by apply Hh. }
      rewrite IH. eexists. split; [done|]. split.
      * cbn [insert_SwitchHandler app well_paired predicate_of].
        by rewrite !bool_decide_eq_true_2.
      * intros f. cbn [insert_SwitchHandler app then_calls]. rewrite Hthen.
        repeat case_decide; simplify_eq; done.
    + apply dec_stable in Hh as [-> Hs]. rewrite Hs.
      rewrite bool_decide_eq_true_2 by done. cbn [andb].
      exists calls. done.
Qed.

(** X22.  How a run of [Trace] ends.  It indexes an empty vector exactly
    when the trace has no instruction.  Otherwise it panics, at line 380,
    exactly when the tool has declared a switchpoint whose point is not
    [IPOINT_BEFORE], wherever that switchpoint is in the list; and it
    returns exactly when every declared switchpoint is at
    [IPOINT_BEFORE]. *)
Theorem Trace_outcome trace :
  (Trace INS_IsSyscall traceCallback trace = TraceUndef <-> concat trace = []) /\
  (forall first rest, concat trace = first :: rest ->
     let pt :=
       traceCallback trace (mkTraceInfo first (INS_IsSyscall first) []) in
     (Trace INS_IsSyscall traceCallback trace = TracePanic 380 <->
      Exists (fun sp => sp.2 <> IPOINT_BEFORE) (switchpoints pt)) /\
     ((exists calls,
         Trace INS_IsSyscall traceCallback trace = Instrumented calls) <->
      Forall (fun sp => sp.2 = IPOINT_BEFORE) (switchpoints pt))).
Proof.
  split.
  - unfold Trace. destruct (concat trace) as [|first rest]; [done|].
    split; [|done].
    destruct (Trace_switchpoints _ _ _) eqn:E; try done.
    intros _. clear -E. exfalso.
    revert E. generalize (switchpoints
      (traceCallback trace (mkTraceInfo first (INS_IsSyscall first) []))).
    intros sps. induction sps as [|[ins p] sps IH]; cbn [Trace_switchpoints];
      [done|].
    case_decide; [done|].
    destruct (bool_decide (ins = first) && INS_IsSyscall ins); [done|].
    by destruct (Trace_switchpoints INS_IsSyscall first sps).
  - intros first rest Hc pt. unfold Trace. rewrite Hc. fold pt.
    split; [|split].
    + rewrite <- (Trace_switchpoints_panic first).
      destruct (Trace_switchpoints _ _ _); split; done.
    + intros [calls H].
      apply Forall_forall. intros sp Hsp.
      destruct (decide (sp.2 = IPOINT_BEFORE)) as [|Hne]; [done|]. exfalso.
      assert (Exists (fun sp => sp.2 <> IPOINT_BEFORE) (switchpoints pt)) as Hex
        by (apply Exists_exists; eauto).
      apply (Trace_switchpoints_panic first) in Hex. by rewrite Hex in H.
    + intros Hall.
      destruct (Trace_switchpoints_run first _ Hall) as (calls & -> & _).
      eauto.
Qed.

(** X23.  What [Trace] inserts when it returns.  [TraceGuard] is inserted
    before the first instruction of the trace, once, unless that
    instruction is a system call, and nowhere else.  [SyscallGuard] is
    inserted before every system call instruction of the trace, once each
    and in the order of the trace, and before no other instruction.
    [SwitchHandler] is inserted at every declared switchpoint, in order,
    except at a switchpoint on the first instruction when that is a system
    call.  Every routine is the then-part of a pair whose if-part is its
    predicate ([RunTraceGuard], [RunSyscallGuard], [NeedsSwitch]) before the
    same instruction. *)
Theorem Trace_instruments trace first rest calls :
  let pt :=
    traceCallback trace (mkTraceInfo first (INS_IsSyscall first) []) in
  concat trace = first :: rest ->
  Trace INS_IsSyscall traceCallback trace = Instrumented calls ->
  then_calls Fun_TraceGuard calls
  = (if INS_IsSyscall first then [] else [first]) /\
  then_calls Fun_SyscallGuard calls
  = filter (fun ins => INS_IsSyscall ins = true) (concat trace) /\
  then_calls Fun_SwitchHandler calls
  = (filter (handled INS_IsSyscall first) (switchpoints pt)).*1 /\
  well_paired calls = true.
Proof.
  intros pt Hc H.
  assert (Forall (fun sp => sp.2 = IPOINT_BEFORE) (switchpoints pt)) as Hall.
  { apply Forall_forall. intros sp Hsp.
    destruct (decide (sp.2 = IPOINT_BEFORE)) as [|Hne]; [done|]. exfalso.
    assert (Exists (fun sp => sp.2 <> IPOINT_BEFORE) (switchpoints pt)) as Hex
      by (apply Exists_exists; eauto).
    apply (Trace_switchpoints_panic first) in Hex.
    unfold Trace in H. rewrite Hc in H. fold pt in H. by rewrite Hex in H. }
  destruct (Trace_switchpoints_run first _ Hall) as (sw & Hsw & Hpair & Hthen).
  unfold Trace in H. rewrite Hc in H. fold pt in H. rewrite Hsw in H.
  injection H as <-. rewrite Hc.
  rewrite !then_calls_app, !Trace_syscalls_then, !Hthen.
  repeat split.
  1-3: rewrite ?filter_cons; destruct (INS_IsSyscall first) eqn:Hs;
    cbn [negb insert_TraceGuard insert_SyscallGuard then_calls app];
    repeat case_decide; simplify_eq; rewrite ?app_nil_r; done.
  apply well_paired_app.
  { destruct (INS_IsSyscall first); [done|].
    cbn [negb insert_TraceGuard well_paired predicate_of].
    by rewrite !bool_decide_eq_true_2. }
  apply well_paired_app; [|done].
  apply (Trace_syscalls_paired (first :: rest)).
Qed.

End InstrumentationProofs.

Lemma Trace_outcome_witness :
  Trace example_IsSyscall example_traceCallback [] = TraceUndef /\
  exists calls,
    Trace example_IsSyscall example_traceCallback example_trace
    = Instrumented calls.
Proof.
  split.
  - apply (proj1 (Trace_outcome example_IsSyscall example_traceCallback [])).
    reflexivity.
  - apply (proj2 (Trace_outcome example_IsSyscall example_traceCallback
                    example_trace) 0 [1; 2; 3] eq_refl).
    repeat constructor.
Defined.

Lemma Trace_instruments_witness :
  then_calls Fun_TraceGuard example_calls = [0] /\
  then_calls Fun_SyscallGuard example_calls = [2] /\
  then_calls Fun_SwitchHandler example_calls = [1; 3] /\
  well_paired example_calls = true.
Proof.
  exact (Trace_instruments example_IsSyscall example_traceCallback
           example_trace 0 [1; 2; 3] example_calls eq_refl eq_refl).
Defined.
